(** * Chunking, consolidation and query matching of the document processors

    A shallow embedding of the Python services under
    [backend/src/common/services] that chunk, annotate, consolidate and
    search documents:

    - [advanced-document-processor.py]  (module [Generic] below),
    - [advanced_document_processor.py]  (module [Legal]),
    - [python-document-processor.py]    (module [Basic]).

    Python values are modelled as follows.  A [str] is a list of characters
    (code points below 256), an [int] is a [Z] or, for indices and lengths,
    a [nat]; a [float] is taken as the rational it denotes ([Q]), so rounding
    is outside the model.  A [set] of indices is a [gset nat].  Exceptions are
    an explicit result type.  The machine-learned models, scikit-learn, the
    LangChain splitter and the regular expressions of the pattern library are
    parameters of the functions that call them. *)

From Stdlib Require Import ZArith QArith List Ascii String Bool Lia.
From Stdlib Require Import Permutation Sorted DecimalString DecimalNat.
From stdpp Require Import base gmap list strings sorting.

(** ** Python strings *)

Abbreviation pystr := (list ascii).

(** A literal. *)
Definition py (s : string) : pystr := list_ascii_of_string s.

(** [str.isspace] on one character below 256. *)
Definition isspace (c : ascii) : bool :=
  let n := nat_of_ascii c in
  ((9 <=? n) && (n <=? 13)) || ((28 <=? n) && (n <=? 32))
  || (n =? 133) || (n =? 160).

Fixpoint lstrip (s : pystr) : pystr :=
  match s with
  | c :: s' => if isspace c then lstrip s' else s
  | [] => []
  end.

Definition rstrip (s : pystr) : pystr := rev (lstrip (rev s)).

(** [s.strip()] *)
Definition strip (s : pystr) : pystr := rstrip (lstrip s).

(** Truth value of a string: non-empty. *)
Definition truthy (s : pystr) : bool :=
  match s with [] => false | _ :: _ => true end.

(** [str(i)] for a non-negative integer. *)
Definition str_of_nat (i : nat) : pystr :=
  py (NilEmpty.string_of_uint (Nat.to_uint i)).

(** [sep.join(parts)] *)
Fixpoint join (sep : pystr) (parts : list pystr) : pystr :=
  match parts with
  | [] => []
  | [p] => p
  | p :: rest => p ++ sep ++ join sep rest
  end.

Definition newline : ascii := ascii_of_nat 10.

(** [s.startswith(p)] *)
Fixpoint startswith (p s : pystr) : bool :=
  match p, s with
  | [], _ => true
  | a :: p', b :: s' => if ascii_dec a b then startswith p' s' else false
  | _ :: _, [] => false
  end.

(** [w in s] for strings: [w] occurs as a substring of [s]. *)
Fixpoint contains (w s : pystr) : bool :=
  startswith w s ||
  match s with
  | [] => false
  | _ :: s' => contains w s'
  end.

(** [s.find(w)]: the first index where [w] occurs, or -1. *)
Fixpoint find_from (w s : pystr) (pos : nat) : Z :=
  if startswith w s then Z.of_nat pos
  else match s with
       | [] => (-1)%Z
       | _ :: s' => find_from w s' (S pos)
       end.

Definition find (s w : pystr) : Z := find_from w s 0.

(** [s.lower()] on one character below 256. *)
Definition lower_char (c : ascii) : ascii :=
  let n := nat_of_ascii c in
  if ((65 <=? n) && (n <=? 90))
     || ((192 <=? n) && (n <=? 222) && negb (n =? 215))
  then ascii_of_nat (n + 32) else c.

Definition lower (s : pystr) : pystr := map lower_char s.

(** [s[start:]] with Python's treatment of a negative or too large start. *)
Definition slice_from (start : Z) (s : pystr) : pystr :=
  let len := Z.of_nat (length s) in
  let from := if (start <? 0)%Z then Z.max (len + start) 0 else Z.min start len in
  drop (Z.to_nat from) s.

(** [l[:stop]] with Python's treatment of a negative or too large stop. *)
Definition slice_to {A} (stop : Z) (l : list A) : list A :=
  let len := Z.of_nat (length l) in
  let upto := if (stop <? 0)%Z then Z.max (len + stop) 0 else Z.min stop len in
  take (Z.to_nat upto) l.

(** [enumerate(l)] *)
Definition enumerate {A} (l : list A) : list (nat * A) :=
  zip (seq 0 (length l)) l.

(** ** Exceptions *)

Inductive exn :=
| IndexError
| ValueError (msg : pystr)
| OtherError (msg : pystr).

(** [str(e)] *)
Definition str_of_exn (e : exn) : pystr :=
  match e with
  | IndexError => py "index out of range"
  | ValueError msg => msg
  | OtherError msg => msg
  end.

Inductive result (A : Type) :=
| Ok (a : A)
| Raise (e : exn).
Arguments Ok {A} a.
Arguments Raise {A} e.

#[global] Instance result_ret : MRet result := fun A a => Ok a.
#[global] Instance result_bind : MBind result := fun A B f m =>
  match m with
  | Ok a => f a
  | Raise e => Raise e
  end.

(** [l[i]] for a non-negative index. *)
Definition getitem {A} (l : list A) (i : nat) : result A :=
  match l !! i with
  | Some a => Ok a
  | None => Raise IndexError
  end.

(** ** Floats, embeddings and the similarity matrix *)

Abbreviation Embedding := (list Q).
Abbreviation Matrix := (list (list Q)).

(** [a > b] on scores. *)
Definition gtb (a b : Q) : bool := negb (Qle_bool a b).

(** The merge threshold of both consolidators. *)
Definition threshold : Q := 8 # 10.

(** [similarity_matrix[i][j]] *)
Definition getitem2 (m : Matrix) (i j : nat) : result Q :=
  row ← getitem m i; getitem row j.

(** [range(a, b)] *)
Definition range (a b : nat) : list nat := seq a (b - a).

(** [s.count(w)]: the number of non-overlapping occurrences of a non-empty
    [w], scanning from the left.  [fuel] bounds the scan by the length. *)
Fixpoint count_from (fuel : nat) (w s : pystr) : nat :=
  match fuel with
  | 0 => 0
  | S fuel' =>
      match s with
      | [] => 0
      | _ :: s' =>
          if startswith w s
          then S (count_from fuel' w (drop (length w) s))
          else count_from fuel' w s'
      end
  end.

Definition count (s w : pystr) : nat := count_from (length s) w s.

(** [len(s.split())]: the number of maximal runs of non-space characters. *)
Fixpoint count_words (in_word : bool) (s : pystr) : nat :=
  match s with
  | [] => 0
  | c :: s' =>
      if isspace c then count_words false s'
      else if in_word then count_words true s'
      else S (count_words true s')
  end.

Definition len_split (s : pystr) : nat := count_words false s.

(** [l.sort(key=key, reverse=True)]: a stable sort into descending key
    order.  An element is put in front of the elements of the already sorted
    rest that come later in the input, unless their key is strictly larger,
    so equal keys keep their input order. *)
Fixpoint insert_desc {A} (key : A -> Q) (x : A) (l : list A) : list A :=
  match l with
  | [] => [x]
  | y :: l' =>
      if Qle_bool (key y) (key x) then x :: y :: l'
      else y :: insert_desc key x l'
  end.

Definition sort_desc {A} (key : A -> Q) (l : list A) : list A :=
  foldr (insert_desc key) [] l.

(** Values stored in the loosely typed extraction metadata. *)
Inductive pyval :=
| Int (z : Z)
| Str (s : pystr).

(** ** advanced-document-processor.py *)

Module Generic.

Record Entity := {
  ent_text : pystr;
  ent_label : pystr;
  ent_start : nat;
  ent_end : nat
}.

(** What the code reads off a spaCy token. *)
Record Token := {
  tok_text : pystr;
  lemma_ : pystr;
  pos_ : pystr;
  is_stop : bool;
  is_punct : bool
}.

(** What the code reads off a spaCy document. *)
Record Doc := {
  ents : list Entity;
  tokens : list Token;
  sents : list pystr
}.

(** The ['metadata'] dictionary of a chunk; [merged_from] is the key that
    only consolidation adds. *)
Record Metadata := {
  chunk_index : nat;
  start_char : Z;
  end_char : Z;
  word_count : nat;
  sentence_count : nat;
  paragraph_count : nat;
  keywords : list pystr;
  entities : list Entity;
  semantic_embedding : option Embedding;
  chunk_type : pystr;
  confidence_score : Q;
  merged_from : option (list pystr)
}.

(** A chunk dictionary. *)
Record Chunk := {
  chunk_id : pystr;
  document_id : pystr;
  content : pystr;
  metadata : Metadata
}.

Record ProcessingResult := {
  pr_document_id : pystr;
  title : pyval;
  pr_content : pystr;
  chunks : list Chunk;
  pr_metadata : gmap pystr pyval;
  processing_time : Q;
  success : bool;
  error_message : option pystr
}.

(** [metadata['merged_from'] = ids] on a copy. *)
Definition set_merged_from (md : Metadata) (ids : list pystr) : Metadata :=
  {| chunk_index := chunk_index md;
     start_char := start_char md;
     end_char := end_char md;
     word_count := word_count md;
     sentence_count := sentence_count md;
     paragraph_count := paragraph_count md;
     keywords := keywords md;
     entities := entities md;
     semantic_embedding := semantic_embedding md;
     chunk_type := chunk_type md;
     confidence_score := confidence_score md;
     merged_from := Some ids |}.

(** [np.array(embeddings)] followed by scikit-learn's input check: a chunk
    without a vector makes the call raise. *)
Definition np_array (embeddings : list (option Embedding)) : result (list Embedding) :=
  mapM (fun e => match e with
                 | Some v => Ok v
                 | None => Raise (ValueError (py "setting an array element with a sequence"))
                 end) embeddings.

(** The dictionary built for a group of more than one chunk:
    [anchor] is [chunks[similar_chunks[0]]], [members] are the chunks at
    [similar_chunks], [i] is the loop index. *)
Definition merged_chunk (anchor : Chunk) (members : list Chunk) (i : nat) : Chunk :=
  let merged_content := join (py " ") (map content members) in
  let merged_metadata :=
    set_merged_from (metadata anchor) (map chunk_id members) in
  {| chunk_id := document_id anchor ++ py "_merged_" ++ str_of_nat i;
     document_id := document_id anchor;
     content := merged_content;
     metadata := merged_metadata |}.

Section Capabilities.

(** [sklearn.metrics.pairwise.cosine_similarity(X, Y)]. *)
Variable cosine_similarity : list Embedding -> list Embedding -> result Matrix.
(** [self.sentence_model.encode]. *)
Variable encode : pystr -> result Embedding.
(** [self.nlp]. *)
Variable nlp : pystr -> result Doc.
(** [self.text_splitter.split_text]. *)
Variable split_text : pystr -> result (list pystr).
(** [list(set(xs))]: the order in which the interpreter iterates over the
    set built from [xs]. *)
Variable list_set : list pystr -> list pystr.
(** The format readers behind [_extract_content]. *)
Variable _extract_content : pystr -> result (pystr * gmap pystr pyval).

(** The inner loop of [_optimize_chunks_semantically]:
    [for j in range(i + 1, len(chunks))]. *)
Fixpoint scan_similar (m : Matrix) (i : nat) (js : list nat)
    (similar_chunks : list nat) (used_indices : gset nat)
    : result (list nat * gset nat) :=
  match js with
  | [] => Ok (similar_chunks, used_indices)
  | j :: js' =>
      if decide (j ∈ used_indices)
      then scan_similar m i js' similar_chunks used_indices
      else
        s ← getitem2 m i j;
        if gtb s threshold
        then scan_similar m i js' (similar_chunks ++ [j]) ({[j]} ∪ used_indices)
        else scan_similar m i js' similar_chunks used_indices
  end.

(** The body of [if len(similar_chunks) > 1:]. *)
Definition merge_similar (chunks : list Chunk) (i : nat)
    (similar_chunks : list nat) : result Chunk :=
  members ← mapM (getitem chunks) similar_chunks;
  first ← getitem similar_chunks 0;
  anchor ← getitem chunks first;
  Ok (merged_chunk anchor members i).

(** The outer loop: [for i, chunk in enumerate(chunks)]. *)
Fixpoint optimize_loop (chunks : list Chunk) (m : Matrix)
    (todo : list (nat * Chunk)) (optimized_chunks : list Chunk)
    (used_indices : gset nat) : result (list Chunk) :=
  match todo with
  | [] => Ok optimized_chunks
  | (i, chunk) :: todo' =>
      if decide (i ∈ used_indices)
      then optimize_loop chunks m todo' optimized_chunks used_indices
      else
        '(similar_chunks, used_indices') ←
          scan_similar m i (range (i + 1) (length chunks)) [i] used_indices;
        if 1 <? length similar_chunks
        then
          optimized_chunk ← merge_similar chunks i similar_chunks;
          optimize_loop chunks m todo'
            (optimized_chunks ++ [optimized_chunk]) used_indices'
        else
          optimize_loop chunks m todo'
            (optimized_chunks ++ [chunk]) used_indices'
  end.

Definition _optimize_chunks_semantically (chunks : list Chunk)
    : result (list Chunk) :=
  if length chunks <=? 1 then Ok chunks
  else
    let embeddings := map (fun c => semantic_embedding (metadata c)) chunks in
    embeddings_matrix ← np_array embeddings;
    similarity_matrix ← cosine_similarity embeddings_matrix embeddings_matrix;
    optimize_loop chunks similarity_matrix (enumerate chunks) [] ∅.

(** The successive values of [similar_chunks], one list per anchor, that
    the loop above builds: the merge-groups. *)
Fixpoint group_loop (n : nat) (m : Matrix) (todo : list nat)
    (used_indices : gset nat) : result (list (list nat)) :=
  match todo with
  | [] => Ok []
  | i :: todo' =>
      if decide (i ∈ used_indices)
      then group_loop n m todo' used_indices
      else
        '(similar_chunks, used_indices') ←
          scan_similar m i (range (i + 1) n) [i] used_indices;
        groups ← group_loop n m todo' used_indices';
        Ok (similar_chunks :: groups)
  end.

Definition merge_groups (n : nat) (m : Matrix) : result (list (list nat)) :=
  group_loop n m (seq 0 n) ∅.

(** The keyword filter on one token. *)
Definition is_keyword (token : Token) : bool :=
  (bool_decide (pos_ token = py "NOUN") || bool_decide (pos_ token = py "PROPN"))
  && negb (is_stop token) && negb (is_punct token)
  && (2 <? length (tok_text token)).

(** One round of the annotation loop of [_create_intelligent_chunks], for
    a chunk text that is not blank. *)
Definition annotate (content document_id : pystr) (i : nat)
    (chunk_text : pystr) : result Chunk :=
  doc ← nlp chunk_text;
  let entities := ents doc in
  let keywords := map (fun token => lower (lemma_ token))
                    (List.filter is_keyword (tokens doc)) in
  let keywords := slice_to 10 (list_set keywords) in
  embedding ← encode chunk_text;
  Ok {| chunk_id := document_id ++ py "_chunk_" ++ str_of_nat i;
        document_id := document_id;
        content := chunk_text;
        metadata :=
          {| chunk_index := i;
             start_char := find content chunk_text;
             end_char := find content chunk_text + Z.of_nat (length chunk_text);
             word_count := len_split chunk_text;
             sentence_count := length (sents doc);
             paragraph_count := count chunk_text [newline; newline] + 1;
             keywords := keywords;
             entities := entities;
             semantic_embedding := Some embedding;
             chunk_type := py "text";
             confidence_score := 1;
             merged_from := None |} |}.

(** [for i, chunk_text in enumerate(basic_chunks)]. *)
Fixpoint annotate_loop (content document_id : pystr)
    (todo : list (nat * pystr)) (chunks : list Chunk) : result (list Chunk) :=
  match todo with
  | [] => Ok chunks
  | (i, chunk_text) :: todo' =>
      if negb (truthy (strip chunk_text))
      then annotate_loop content document_id todo' chunks
      else
        chunk_data ← annotate content document_id i chunk_text;
        annotate_loop content document_id todo' (chunks ++ [chunk_data])
  end.

(** Steps 1 and 2 of [_create_intelligent_chunks]: the chunk list before
    the semantic optimisation. *)
Definition annotated_chunks (content document_id : pystr) : result (list Chunk) :=
  basic_chunks ← split_text content;
  annotate_loop content document_id (enumerate basic_chunks) [].

Definition _create_intelligent_chunks (content document_id : pystr)
    (metadata : gmap pystr pyval) : result (list Chunk) :=
  chunks ← annotated_chunks content document_id;
  _optimize_chunks_semantically chunks.

(** [t0] and [t1] are the clock readings at entry and at return. *)
Definition process_document (t0 t1 : Q) (file_path document_id : pystr)
    : ProcessingResult :=
  let failed e :=
    {| pr_document_id := document_id;
       title := Str (py "Unknown");
       pr_content := [];
       chunks := [];
       pr_metadata := ∅;
       processing_time := t1 - t0;
       success := false;
       error_message := Some (str_of_exn e) |} in
  match _extract_content file_path with
  | Raise e => failed e
  | Ok (content, metadata) =>
      let title := default (Str (py "Unknown")) (metadata !! py "title") in
      if negb (truthy (strip content))
      then {| pr_document_id := document_id;
              title := title;
              pr_content := content;
              chunks := [];
              pr_metadata := metadata;
              processing_time := t1 - t0;
              success := false;
              error_message := Some (py "No content extracted from document") |}
      else
        match _create_intelligent_chunks content document_id metadata with
        | Raise e => failed e
        | Ok chunks =>
            {| pr_document_id := document_id;
               title := title;
               pr_content := content;
               chunks := chunks;
               pr_metadata := metadata;
               processing_time := t1 - t0;
               success := true;
               error_message := None |}
        end
  end.

(** [chunk['metadata'].get('semantic_embedding')] taken as a condition. *)
Definition has_embedding (chunk : Chunk) : option Embedding :=
  match semantic_embedding (metadata chunk) with
  | Some (x :: v) => Some (x :: v)
  | _ => None
  end.

(** The loop of [search_similar_chunks] that scores the chunks. *)
Fixpoint score_chunks (query_embedding : Embedding) (chunks : list Chunk)
    (similarities : list (Q * Chunk)) : result (list (Q * Chunk)) :=
  match chunks with
  | [] => Ok similarities
  | chunk :: chunks' =>
      match has_embedding chunk with
      | Some chunk_embedding =>
          sm ← cosine_similarity [query_embedding] [chunk_embedding];
          similarity ← getitem2 sm 0 0;
          score_chunks query_embedding chunks' (similarities ++ [(similarity, chunk)])
      | None => score_chunks query_embedding chunks' similarities
      end
  end.

Definition search_similar_chunks (query : pystr) (chunks : list Chunk)
    (top_k : Z) : result (list Chunk) :=
  match chunks with
  | [] => Ok []
  | _ :: _ =>
      query_embedding ← encode query;
      similarities ← score_chunks query_embedding chunks [];
      let similarities := sort_desc fst similarities in
      Ok (map snd (slice_to top_k similarities))
  end.

Definition get_chunk_similarity (chunk1 chunk2 : Chunk) : result Q :=
  match has_embedding chunk1, has_embedding chunk2 with
  | Some embedding1, Some embedding2 =>
      sm ← cosine_similarity [embedding1] [embedding2];
      getitem2 sm 0 0
  | _, _ => Ok 0%Q
  end.

End Capabilities.

Section Readers.

(** [Path(file_path).suffix]. *)
Variable suffix : pystr -> pystr.
(** pdfplumber: [page.extract_text()] for every page of the file, [None] for
    a page without text. *)
Variable pdfplumber_pages : pystr -> result (list (option pystr)).
(** PyMuPDF: [page.get_text()] for every page of the file. *)
Variable fitz_pages : pystr -> result (list pystr).
(** python-docx: [paragraph.text] for every paragraph of the file. *)
Variable docx_paragraphs : pystr -> result (list pystr).
(** [open(file_path, 'r', encoding='utf-8').read()]. *)
Variable read_text : pystr -> result pystr.

(** The separator of pages and paragraphs: a blank line. *)
Definition blank_line : pystr := [newline; newline].

Definition _extract_pdf_content (file_path : pystr)
    : result (pystr * gmap pystr pyval) :=
  match pdfplumber_pages file_path with
  | Ok pages =>
      let pages_text := List.filter truthy (omap id pages) in
      let content := join blank_line pages_text in
      let metadata : gmap pystr pyval :=
        <[py "extraction_method" := Str (py "pdfplumber")]>
          (<[py "page_count" := Int (Z.of_nat (length pages))]> ∅) in
      Ok (content, metadata)
  | Raise e =>
      match fitz_pages file_path with
      | Ok pages =>
          let pages_text := List.filter truthy pages in
          let content := join blank_line pages_text in
          let metadata : gmap pystr pyval :=
            <[py "extraction_method" := Str (py "pymupdf")]>
              (<[py "page_count" := Int (Z.of_nat (length pages))]> ∅) in
          Ok (content, metadata)
      | Raise e2 =>
          Raise (OtherError (py "Failed to extract PDF content: " ++ str_of_exn e2))
      end
  end.

Definition _extract_word_content (file_path : pystr)
    : result (pystr * gmap pystr pyval) :=
  all_paragraphs ← docx_paragraphs file_path;
  let paragraphs := List.filter (fun text => truthy (strip text)) all_paragraphs in
  let content := join blank_line paragraphs in
  let metadata : gmap pystr pyval :=
    <[py "paragraph_count" := Int (Z.of_nat (length paragraphs))]>
      (<[py "extraction_method" := Str (py "python-docx")]> ∅) in
  Ok (content, metadata).

Definition _extract_text_content (file_path : pystr)
    : result (pystr * gmap pystr pyval) :=
  content ← read_text file_path;
  let metadata : gmap pystr pyval :=
    <[py "extraction_method" := Str (py "plain_text")]> ∅ in
  Ok (content, metadata).

Definition _extract_content (file_path : pystr)
    : result (pystr * gmap pystr pyval) :=
  let file_ext := lower (suffix file_path) in
  if bool_decide (file_ext = py ".pdf") then _extract_pdf_content file_path
  else if bool_decide (file_ext = py ".docx") || bool_decide (file_ext = py ".doc")
  then _extract_word_content file_path
  else if bool_decide (file_ext = py ".txt") then _extract_text_content file_path
  else Raise (ValueError (py "Unsupported file format: " ++ file_ext)).

End Readers.

(** [process_document] with the readers of the file. *)
Definition process_file
    (cosine_similarity : list Embedding -> list Embedding -> result Matrix)
    (encode : pystr -> result Embedding)
    (nlp : pystr -> result Doc)
    (split_text : pystr -> result (list pystr))
    (list_set : list pystr -> list pystr)
    (suffix : pystr -> pystr)
    (pdfplumber_pages : pystr -> result (list (option pystr)))
    (fitz_pages docx_paragraphs : pystr -> result (list pystr))
    (read_text : pystr -> result pystr)
    (t0 t1 : Q) (file_path document_id : pystr) : ProcessingResult :=
  process_document cosine_similarity encode nlp split_text list_set
    (_extract_content suffix pdfplumber_pages fitz_pages docx_paragraphs
       read_text)
    t0 t1 file_path document_id.

End Generic.


(** ** advanced_document_processor.py *)

Module Legal.

Record Entity := {
  ent_text : pystr;
  ent_label : pystr;
  ent_start : nat;
  ent_end : nat;
  ent_description : option pystr
}.

(** What the code reads off a spaCy document. *)
Record Doc := {
  ents : list Entity;
  sents : list pystr
}.

(** The dataclass of the same name. *)
Record ChunkMetadata := {
  chunk_id : pystr;
  document_id : pystr;
  content : pystr;
  start_position : Z;
  end_position : Z;
  chunk_index : Z;
  entities : list Entity;
  keywords : list pystr;
  topics : list pystr;
  sentiment : pystr;
  importance_score : Q;
  legal_terms : list pystr;
  case_references : list pystr;
  statute_references : list pystr
}.

(** A chunk as the assembler creates it, before annotation. *)
Definition new_chunk (document_id : pystr) (chunk_index : nat)
    (content : pystr) (start_position end_position : Z) : ChunkMetadata :=
  {| chunk_id := document_id ++ py "_chunk_" ++ str_of_nat chunk_index;
     document_id := document_id;
     content := content;
     start_position := start_position;
     end_position := end_position;
     chunk_index := Z.of_nat chunk_index;
     entities := [];
     keywords := [];
     topics := [];
     sentiment := [];
     importance_score := 0;
     legal_terms := [];
     case_references := [];
     statute_references := [] |}.

Definition positive_words : list pystr :=
  [py "good"; py "favorable"; py "positive"; py "beneficial"; py "advantageous"].
Definition negative_words : list pystr :=
  [py "bad"; py "negative"; py "harmful"; py "detrimental"; py "adverse"].

(** [sum(1 for word in words if word in text)] *)
Definition count_present (words : list pystr) (text : pystr) : nat :=
  length (List.filter (fun word => contains word text) words).

(** [max(xs)] over a non-empty sequence with first element [x]. *)
Definition max_list (x : Q) (xs : list Q) : Q :=
  fold_left (fun a b => if gtb b a then b else a) xs x.

(** [max(a, b)] *)
Definition max2 (a b : Q) : Q := if gtb b a then b else a.

(** [min(a, b)] *)
Definition min2 (a b : Q) : Q := if gtb a b then b else a.

(** [range(0, n, step)] for a positive step; [fuel] bounds the length. *)
Fixpoint range_step (fuel : nat) (i n step : nat) : list nat :=
  match fuel with
  | 0 => []
  | S fuel' => if i <? n then i :: range_step fuel' (i + step) n step else []
  end.

(** A chunk as [process_document] reports it: the dictionary built from a
    [ChunkMetadata], without its [document_id] and [topics]. *)
Record ChunkDict := {
  d_chunk_id : pystr;
  d_content : pystr;
  d_start_position : Z;
  d_end_position : Z;
  d_chunk_index : Z;
  d_entities : list Entity;
  d_keywords : list pystr;
  d_legal_terms : list pystr;
  d_case_references : list pystr;
  d_statute_references : list pystr;
  d_importance_score : Q;
  d_sentiment : pystr
}.

Definition chunk_dict (chunk : ChunkMetadata) : ChunkDict :=
  {| d_chunk_id := chunk_id chunk;
     d_content := content chunk;
     d_start_position := start_position chunk;
     d_end_position := end_position chunk;
     d_chunk_index := chunk_index chunk;
     d_entities := entities chunk;
     d_keywords := keywords chunk;
     d_legal_terms := legal_terms chunk;
     d_case_references := case_references chunk;
     d_statute_references := statute_references chunk;
     d_importance_score := importance_score chunk;
     d_sentiment := sentiment chunk |}.

(** The ['advanced_metadata'] dictionary; [average_importance] is [None]
    where numpy reports [nan]. *)
Record AdvancedMetadata := {
  total_entities : nat;
  total_legal_terms : nat;
  average_importance : option Q;
  processing_timestamp : pystr
}.

(** The two dictionaries [process_document] returns. *)
Inductive Response :=
| Success (document_id filename : pystr) (total_chunks : nat)
    (chunks : list ChunkDict) (processing_method : pystr)
    (advanced_metadata : AdvancedMetadata)
| Failure (error document_id filename : pystr).

(** [np.mean(xs)]: [nan] for no value. *)
Definition np_mean (xs : list Q) : option Q :=
  match xs with
  | [] => None
  | _ :: _ => Some (fold_right Qplus 0%Q xs / inject_Z (Z.of_nat (length xs)))%Q
  end.

(** [document_id or filename]: an empty id counts as none. *)
Definition or_else (document_id : option pystr) (filename : pystr) : pystr :=
  match document_id with
  | Some (c :: s) => c :: s
  | _ => filename
  end.

Section Capabilities.

(** [self.nlp]. *)
Variable nlp : pystr -> result Doc.
(** [nltk.sent_tokenize]. *)
Variable sent_tokenize : pystr -> result (list pystr).
(** [self.sentence_model.encode] on a list of texts. *)
Variable encode : list pystr -> result (list Embedding).
(** [sklearn.metrics.pairwise.cosine_similarity(X)]. *)
Variable cosine_similarity : list Embedding -> result Matrix.
(** The TF-IDF vectoriser fitted on one text: feature names with scores. *)
Variable tfidf : pystr -> result (list (pystr * Q)).
(** [re.finditer] for the three patterns of [self.legal_patterns] used
    below, case-insensitive: the whole match for legal terms, group 1 for
    the references. *)
Variable finditer_legal_terms : pystr -> list pystr.
Variable finditer_case_reference : pystr -> list pystr.
Variable finditer_statute_reference : pystr -> list pystr.
(** [list(set(xs))]: the order in which the interpreter iterates over the
    set built from [xs]. *)
Variable list_set : list pystr -> list pystr.

Definition _extract_content (content filename : pystr) : pystr :=
  strip content.

Definition _split_into_sentences (text : pystr) : result (list pystr) :=
  match nlp text with
  | Ok doc => Ok (List.filter truthy (map strip (sents doc)))
  | Raise _ => sent_tokenize text
  end.

Definition _create_simple_chunks (content document_id : pystr)
    : list ChunkMetadata :=
  let chunk_size := 1000 in
  let overlap := 200 in
  map (fun i =>
         new_chunk document_id (i / (chunk_size - overlap))
           (take chunk_size (drop i content))
           (Z.of_nat i)
           (Z.of_nat (Nat.min (i + chunk_size) (length content))))
      (range_step (length content) 0 (length content) (chunk_size - overlap)).

(** The local variables of the assembling loop. *)
Record Assembler := {
  chunks : list ChunkMetadata;
  current_chunk : pystr;
  chunk_start : Z;
  next_index : nat
}.

(** One round of [for i, sentence in enumerate(sentences)]. *)
Definition add_sentence (document_id : pystr) (st : Assembler)
    (sentence : pystr) : Assembler :=
  if (1000 <? length (current_chunk st) + length sentence)
     && truthy (current_chunk st)
  then
    let chunk :=
      new_chunk document_id (next_index st) (strip (current_chunk st))
        (chunk_start st)
        (chunk_start st + Z.of_nat (length (current_chunk st))) in
    let current_chunk' := sentence in
    {| chunks := chunks st ++ [chunk];
       current_chunk := current_chunk';
       chunk_start := chunk_start st + Z.of_nat (length current_chunk')
                      - Z.of_nat (length sentence);
       next_index := next_index st + 1 |}
  else
    {| chunks := chunks st;
       current_chunk := if truthy (current_chunk st)
                        then current_chunk st ++ py " " ++ sentence
                        else sentence;
       chunk_start := chunk_start st;
       next_index := next_index st |}.

(** The loop and the final [if current_chunk:]. *)
Definition assemble (document_id : pystr) (sentences : list pystr)
    : list ChunkMetadata :=
  let st := fold_left (add_sentence document_id) sentences
              {| chunks := []; current_chunk := [];
                 chunk_start := 0; next_index := 0 |} in
  if truthy (current_chunk st)
  then chunks st ++
       [new_chunk document_id (next_index st) (strip (current_chunk st))
          (chunk_start st)
          (chunk_start st + Z.of_nat (length (current_chunk st)))]
  else chunks st.

Definition _create_intelligent_chunks (content document_id : pystr)
    : list ChunkMetadata :=
  match _split_into_sentences content with
  | Ok sentences => assemble document_id sentences
  | Raise _ => _create_simple_chunks content document_id
  end.

Definition _extract_entities (text : pystr) : list Entity :=
  match nlp text with
  | Ok doc => ents doc
  | Raise _ => []
  end.

Definition _extract_keywords (text : pystr) : list pystr :=
  match tfidf text with
  | Ok keyword_scores =>
      let keyword_scores := sort_desc snd keyword_scores in
      map fst (List.filter (fun ks => gtb (snd ks) 0) (slice_to 5 keyword_scores))
  | Raise _ => []
  end.

Definition _extract_legal_terms (text : pystr) : list pystr :=
  list_set (finditer_legal_terms text).

Definition _extract_case_references (text : pystr) : list pystr :=
  finditer_case_reference text.

Definition _extract_statute_references (text : pystr) : list pystr :=
  finditer_statute_reference text.

Definition high_value_labels : list pystr :=
  [py "PERSON"; py "ORG"; py "GPE"; py "LAW"].

Definition _calculate_importance_score (text : pystr) : Q :=
  (let score := 0 in
   let legal_terms := _extract_legal_terms text in
   let score := score + inject_Z (Z.of_nat (length legal_terms)) * (1 # 10) in
   let entities := _extract_entities text in
   let score :=
     fold_left (fun score entity =>
                  if bool_decide (ent_label entity ∈ high_value_labels)
                  then score + (5 # 100) else score) entities score in
   let case_refs := _extract_case_references text in
   let statute_refs := _extract_statute_references text in
   let score := score + inject_Z (Z.of_nat (length case_refs)) * (2 # 10) in
   let score := score + inject_Z (Z.of_nat (length statute_refs)) * (15 # 100) in
   min2 score 1)%Q.

Definition _analyze_sentiment (text : pystr) : pystr :=
  match nlp text with
  | Ok doc =>
      let pos_count := count_present positive_words (lower text) in
      let neg_count := count_present negative_words (lower text) in
      if neg_count <? pos_count then py "positive"
      else if pos_count <? neg_count then py "negative"
      else py "neutral"
  | Raise _ => py "neutral"
  end.

Definition _generate_embeddings (texts : list pystr) : list Embedding :=
  match encode texts with
  | Ok embeddings => embeddings
  | Raise _ => []
  end.

(** One round of the annotation loop of [process_document]. *)
Definition annotate (chunk : ChunkMetadata) : ChunkMetadata :=
  {| chunk_id := chunk_id chunk;
     document_id := document_id chunk;
     content := content chunk;
     start_position := start_position chunk;
     end_position := end_position chunk;
     chunk_index := chunk_index chunk;
     entities := _extract_entities (content chunk);
     keywords := _extract_keywords (content chunk);
     topics := topics chunk;
     sentiment := _analyze_sentiment (content chunk);
     importance_score := _calculate_importance_score (content chunk);
     legal_terms := _extract_legal_terms (content chunk);
     case_references := _extract_case_references (content chunk);
     statute_references := _extract_statute_references (content chunk) |}.

(** The inner comprehension loop of [_merge_chunks]:
    [for j in range(i + 1, len(chunks))]. *)
Fixpoint scan_similar (m : Matrix) (i : nat) (js : list nat)
    (similar_indices : list nat) (used_indices : gset nat)
    : result (list nat) :=
  match js with
  | [] => Ok similar_indices
  | j :: js' =>
      if decide (j ∈ used_indices)
      then scan_similar m i js' similar_indices used_indices
      else
        s ← getitem2 m i j;
        if gtb s threshold
        then scan_similar m i js' (similar_indices ++ [j]) used_indices
        else scan_similar m i js' similar_indices used_indices
  end.

(** The accumulators of [for idx in similar_indices]. *)
Record Merged := {
  merged_content : pystr;
  merged_entities : list Entity;
  merged_keywords : list pystr;
  merged_legal_terms : list pystr;
  merged_case_refs : list pystr;
  merged_statute_refs : list pystr
}.

Definition extend (acc : Merged) (similar_chunk : ChunkMetadata) : Merged :=
  {| merged_content := merged_content acc ++ py " " ++ content similar_chunk;
     merged_entities := merged_entities acc ++ entities similar_chunk;
     merged_keywords := merged_keywords acc ++ keywords similar_chunk;
     merged_legal_terms := merged_legal_terms acc ++ legal_terms similar_chunk;
     merged_case_refs := merged_case_refs acc ++ case_references similar_chunk;
     merged_statute_refs :=
       merged_statute_refs acc ++ statute_references similar_chunk |}.

(** The merged chunk built from the anchor [chunk] and the chunks at
    [similar_indices], the last of which is [last]. *)
Definition merged_chunk (chunk : ChunkMetadata) (members : list ChunkMetadata)
    (last : ChunkMetadata) : ChunkMetadata :=
  let acc :=
    fold_left extend members
      {| merged_content := content chunk;
         merged_entities := entities chunk;
         merged_keywords := keywords chunk;
         merged_legal_terms := legal_terms chunk;
         merged_case_refs := case_references chunk;
         merged_statute_refs := statute_references chunk |} in
  {| chunk_id := chunk_id chunk;
     document_id := document_id chunk;
     content := merged_content acc;
     start_position := start_position chunk;
     end_position := end_position last;
     chunk_index := chunk_index chunk;
     entities := merged_entities acc;
     keywords := list_set (merged_keywords acc);
     topics := topics chunk;
     sentiment := sentiment chunk;
     importance_score :=
       max2 (importance_score chunk)
         (match map importance_score members with
          | x :: xs => max_list x xs
          | [] => importance_score chunk
          end);
     legal_terms := list_set (merged_legal_terms acc);
     case_references := list_set (merged_case_refs acc);
     statute_references := list_set (merged_statute_refs acc) |}.

(** The body of [if similar_indices:]. *)
Definition merge_similar (chunks : list ChunkMetadata) (chunk : ChunkMetadata)
    (similar_indices : list nat) : result ChunkMetadata :=
  members ← mapM (getitem chunks) similar_indices;
  last_index ← getitem similar_indices (length similar_indices - 1);
  last ← getitem chunks last_index;
  Ok (merged_chunk chunk members last).

(** The outer loop: [for i, chunk in enumerate(chunks)]. *)
Fixpoint merge_loop (chunks : list ChunkMetadata) (m : Matrix)
    (todo : list (nat * ChunkMetadata)) (merged_chunks : list ChunkMetadata)
    (used_indices : gset nat) : result (list ChunkMetadata) :=
  match todo with
  | [] => Ok merged_chunks
  | (i, chunk) :: todo' =>
      if decide (i ∈ used_indices)
      then merge_loop chunks m todo' merged_chunks used_indices
      else
        similar_indices ←
          scan_similar m i (range (i + 1) (length chunks)) [] used_indices;
        match similar_indices with
        | _ :: _ =>
            merged ← merge_similar chunks chunk similar_indices;
            merge_loop chunks m todo' (merged_chunks ++ [merged])
              ({[i]} ∪ (list_to_set similar_indices ∪ used_indices))
        | [] =>
            merge_loop chunks m todo' (merged_chunks ++ [chunk])
              ({[i]} ∪ used_indices)
        end
  end.

(** The body of the [try] block of [_merge_chunks]. *)
Definition merge_body (chunks : list ChunkMetadata) (embeddings : list Embedding)
    : result (list ChunkMetadata) :=
  if length chunks <=? 1 then Ok chunks
  else
    similarity_matrix ← cosine_similarity embeddings;
    merge_loop chunks similarity_matrix (enumerate chunks) [] ∅.

Definition _merge_chunks (chunks : list ChunkMetadata) (embeddings : list Embedding)
    : list ChunkMetadata :=
  match merge_body chunks embeddings with
  | Ok merged_chunks => merged_chunks
  | Raise _ => chunks
  end.

(** Lines 132 to 148 of [process_document]: extraction, assembly, the
    embeddings and the annotation loop. *)
Definition annotated_chunks (content filename : pystr) (document_id : option pystr)
    : list ChunkMetadata * list Embedding :=
  let extracted_content := _extract_content content filename in
  let chunks :=
    _create_intelligent_chunks extracted_content (default filename document_id) in
  let embeddings := _generate_embeddings (map Legal.content chunks) in
  (map annotate chunks, embeddings).

(** Lines 132 to 151 of [process_document]: the chunks that are reported. *)
Definition processed_chunks (content filename : pystr) (document_id : option pystr)
    : list ChunkMetadata :=
  let '(chunks, embeddings) := annotated_chunks content filename document_id in
  _merge_chunks chunks embeddings.

(** The body of the [try] block of [process_document]; [now] is the reading
    of the clock.  Every helper it calls catches its own exceptions. *)
Definition process_body (now content filename : pystr) (document_id : option pystr)
    : result Response :=
  let merged_chunks :=
    processed_chunks content filename (Some (or_else document_id filename)) in
  Ok (Success (or_else document_id filename) filename (length merged_chunks)
        (map chunk_dict merged_chunks) (py "advanced")
        {| total_entities :=
             sum_list (map (fun chunk => length (entities chunk)) merged_chunks);
           total_legal_terms :=
             sum_list (map (fun chunk => length (legal_terms chunk)) merged_chunks);
           average_importance := np_mean (map importance_score merged_chunks);
           processing_timestamp := now |}).

Definition process_document (now content filename : pystr)
    (document_id : option pystr) : Response :=
  match process_body now content filename document_id with
  | Ok result => result
  | Raise e => Failure (str_of_exn e) (or_else document_id filename) filename
  end.

End Capabilities.

End Legal.


(** ** python-document-processor.py *)

Module Basic.

(** The ['metadata'] dictionary of a chunk. *)
Record Metadata := {
  chunkIndex : nat;
  isHeader : bool;
  isFooter : bool;
  isTable : bool;
  isList : bool;
  confidence : Q;
  language : pystr
}.

Record Chunk := {
  chunkText : pystr;
  startPos : Z;
  endPos : Z;
  tokenCount : nat;
  metadata : Metadata
}.

(** The dictionary [process_document] returns; [error] is the key of the
    failure record, [processing_method] that of a success. *)
Record Response := {
  error : option pystr;
  chunks : list Chunk;
  word_document : pystr;
  chunk_count : nat;
  total_tokens : nat;
  processing_method : option pystr
}.

(** The keys of [input_data] that [process_document] reads. *)
Record InputData := {
  text : option pystr;
  in_title : option pystr;
  file_path : option pystr;
  in_document_id : option pystr;
  in_max_chunk_size : option Z;
  in_overlap_size : option Z
}.

Definition isdigit (c : ascii) : bool :=
  let n := nat_of_ascii c in (48 <=? n) && (n <=? 57).

(** [re.sub(r'\s+', ' ', text)] *)
Fixpoint collapse_spaces (in_run : bool) (s : pystr) : pystr :=
  match s with
  | [] => []
  | c :: s' =>
      if isspace c
      then if in_run then collapse_spaces true s'
           else " "%char :: collapse_spaces true s'
      else c :: collapse_spaces false s'
  end.

(** The longest prefix of digits, and what follows it. *)
Fixpoint span_digits (s : pystr) : pystr * pystr :=
  match s with
  | c :: s' =>
      if isdigit c then let '(d, r) := span_digits s' in (c :: d, r)
      else ([], s)
  | [] => ([], [])
  end.

(** [s] without the prefix [p], when it starts with it. *)
Fixpoint after_prefix (p s : pystr) : option pystr :=
  match p, s with
  | [], _ => Some s
  | a :: p', b :: s' => if ascii_dec a b then after_prefix p' s' else None
  | _ :: _, [] => None
  end.

(** [re.sub(r'^\d+\s*$', '', text, flags=re.MULTILINE)] on a text without
    line break, as it is after the first substitution: the anchors are the
    two ends of the text, and a text of digits followed by spaces only is
    emptied. *)
Definition blank_page_number (text : pystr) : pystr :=
  let '(d, r) := span_digits text in
  if truthy d && negb (truthy (lstrip r)) then [] else text.

(** A match of [Page \d+ of \d+] at the start of [s]: what follows it. *)
Definition match_page_of (s : pystr) : option pystr :=
  r1 ← after_prefix (py "Page ") s;
  let '(d1, r2) := span_digits r1 in
  if negb (truthy d1) then None
  else
    r3 ← after_prefix (py " of ") r2;
    let '(d2, r4) := span_digits r3 in
    if negb (truthy d2) then None else Some r4.

(** [re.sub(r'Page \d+ of \d+', '', text)] *)
Fixpoint remove_page_of (fuel : nat) (s : pystr) : pystr :=
  match fuel with
  | 0 => s
  | S fuel' =>
      match s with
      | [] => []
      | c :: s' =>
          match match_page_of s with
          | Some r => remove_page_of fuel' r
          | None => c :: remove_page_of fuel' s'
          end
      end
  end.

(** The rest of the line is dropped by [.*]. *)
Fixpoint drop_line (s : pystr) : pystr :=
  match s with
  | [] => []
  | c :: s' => if ascii_dec c newline then s else drop_line s'
  end.

(** The three characters before the digits in the copyright pattern. *)
Definition copyright_mark : pystr :=
  [ascii_of_nat 194; ascii_of_nat 169; " "%char].

(** A match of the copyright pattern at the start of [s]: what follows. *)
Definition match_copyright (s : pystr) : option pystr :=
  r1 ← after_prefix copyright_mark s;
  let '(d, r2) := span_digits r1 in
  if negb (truthy d) then None else Some (drop_line r2).

(** [re.sub] with the copyright pattern followed by [\d+.*]. *)
Fixpoint remove_copyright (fuel : nat) (s : pystr) : pystr :=
  match fuel with
  | 0 => s
  | S fuel' =>
      match s with
      | [] => []
      | c :: s' =>
          match match_copyright s with
          | Some r => remove_copyright fuel' r
          | None => c :: remove_copyright fuel' s'
          end
      end
  end.

Definition preprocess_text (text : pystr) : pystr :=
  let text := collapse_spaces false text in
  let text := blank_page_number text in
  let text := remove_page_of (length text) text in
  let text := remove_copyright (length text) text in
  strip text.

Definition is_terminator (c : ascii) : bool :=
  bool_decide (c = "."%char) || bool_decide (c = "!"%char)
  || bool_decide (c = "?"%char).

(** Where the scan of [re.split] stands: inside a separator, or after a
    character that was or was not one of [.!?]. *)
Inductive SplitState := InSeparator | After (terminator : bool).

(** [re.split(r'(?<=[.!?])\s+', text)] *)
Fixpoint split_sentences (st : SplitState) (cur : pystr) (s : pystr)
    : list pystr :=
  match s with
  | [] => [rev cur]
  | c :: s' =>
      match st with
      | InSeparator =>
          if isspace c then split_sentences InSeparator [] s'
          else split_sentences (After (is_terminator c)) [c] s'
      | After terminator =>
          if terminator && isspace c
          then rev cur :: split_sentences InSeparator [] s'
          else split_sentences (After (is_terminator c)) (c :: cur) s'
      end
  end.

Definition new_chunk (current_chunk : pystr) (start_pos : Z) (chunk_index : nat)
    : Chunk :=
  {| chunkText := strip current_chunk;
     startPos := start_pos;
     endPos := start_pos + Z.of_nat (length current_chunk);
     tokenCount := len_split current_chunk;
     metadata := {| chunkIndex := chunk_index;
                    isHeader := false;
                    isFooter := false;
                    isTable := false;
                    isList := false;
                    confidence := 1;
                    language := py "en" |} |}.

(** The local variables of the loop of [create_chunks]. *)
Record Chunker := {
  st_chunks : list Chunk;
  current_chunk : pystr;
  chunk_index : nat;
  start_pos : Z
}.

Section DocumentChunker.

Variables (max_chunk_size overlap_size : Z).

(** [current_chunk[-self.overlap_size:] if len(current_chunk) >
    self.overlap_size else current_chunk] *)
Definition overlap_of (current_chunk : pystr) : pystr :=
  if (overlap_size <? Z.of_nat (length current_chunk))%Z
  then slice_from (- overlap_size) current_chunk
  else current_chunk.

(** One round of [for sentence in sentences]. *)
Definition add_sentence (st : Chunker) (sentence : pystr) : Chunker :=
  if negb (truthy (strip sentence)) then st
  else if (max_chunk_size <?
             Z.of_nat (length (current_chunk st)) + Z.of_nat (length sentence))%Z
          && truthy (current_chunk st)
  then
    let chunk := new_chunk (current_chunk st) (start_pos st) (chunk_index st) in
    let overlap_text := overlap_of (current_chunk st) in
    let current_chunk' := overlap_text ++ py " " ++ sentence in
    {| st_chunks := st_chunks st ++ [chunk];
       current_chunk := current_chunk';
       chunk_index := chunk_index st + 1;
       start_pos := (start_pos st + Z.of_nat (length current_chunk')
                     - Z.of_nat (length overlap_text)
                     - Z.of_nat (length sentence))%Z |}
  else
    {| st_chunks := st_chunks st;
       current_chunk := if truthy (current_chunk st)
                        then current_chunk st ++ py " " ++ sentence
                        else sentence;
       chunk_index := chunk_index st;
       start_pos := start_pos st |}.

Definition initial : Chunker :=
  {| st_chunks := []; current_chunk := []; chunk_index := 0; start_pos := 0 |}.

(** The final [if current_chunk.strip():]. *)
Definition finish (st : Chunker) : list Chunk :=
  if truthy (strip (current_chunk st))
  then st_chunks st ++ [new_chunk (current_chunk st) (start_pos st) (chunk_index st)]
  else st_chunks st.

(** The loop over the sentences and the final chunk. *)
Definition assemble (sentences : list pystr) : list Chunk :=
  finish (fold_left add_sentence sentences initial).

Definition create_chunks (text : pystr) : list Chunk :=
  let cleaned_text := preprocess_text text in
  let sentences := split_sentences (After false) [] cleaned_text in
  assemble sentences.

End DocumentChunker.

Section ProcessDocument.

(** [WordDocumentCreator().create_word_document(chunks, title).hex()]. *)
Variable create_word_document : list Chunk -> pystr -> result pystr.
(** The attempt at advanced processing: a response when it is available,
    the file exists and the advanced result reports success. *)
Variable try_advanced : InputData -> option Response.

(** The body of the [try] block of [process_document]. *)
Definition process_body (input_data : InputData) : result Response :=
  let text := default [] (text input_data) in
  let document_title := default (py "Legal Document") (in_title input_data) in
  if negb (truthy (strip text))
  then Raise (ValueError (py "No text content provided"))
  else
    match try_advanced input_data with
    | Some response => Ok response
    | None =>
        let chunks :=
          create_chunks (default 1000%Z (in_max_chunk_size input_data))
            (default 200%Z (in_overlap_size input_data)) text in
        word_bytes ← create_word_document chunks document_title;
        Ok {| error := None;
              chunks := chunks;
              word_document := word_bytes;
              chunk_count := length chunks;
              total_tokens := sum_list (map tokenCount chunks);
              processing_method := Some (py "basic") |}
    end.

Definition process_document (input_data : InputData) : Response :=
  match process_body input_data with
  | Ok response => response
  | Raise e =>
      {| error := Some (str_of_exn e);
         chunks := [];
         word_document := [];
         chunk_count := 0;
         total_tokens := 0;
         processing_method := None |}
  end.

End ProcessDocument.

End Basic.


(** ** Stand-ins for the injected capabilities

    Fixed, deterministic instances of the capabilities, used to run the
    functions above on concrete inputs. *)

Module Stub.

Definition dot (u v : Embedding) : Q :=
  fold_right Qplus 0%Q (zip_with Qmult u v).

(** The cosine matrix of vectors of length one: their dot products. *)
Definition cosine2 (X Y : list Embedding) : result Matrix :=
  Ok (map (fun x => map (fun y => Qred (dot x y)) Y) X).

Definition cosine1 (X : list Embedding) : result Matrix := cosine2 X X.

(** Two iteration orders of a set of strings: by first insertion, and the
    reverse. *)
Definition first_seen (xs : list pystr) : list pystr := remove_dups xs.
Definition last_seen (xs : list pystr) : list pystr := rev (remove_dups xs).

(** A splitter that cuts at blank lines. *)
Fixpoint paragraphs (cur : pystr) (s : pystr) : list pystr :=
  match s with
  | [] => [rev cur]
  | c :: s' =>
      match s' with
      | c' :: s'' =>
          if bool_decide (c = newline) && bool_decide (c' = newline)
          then rev cur :: paragraphs [] s''
          else paragraphs (c :: cur) s'
      | [] => [rev (c :: cur)]
      end
  end.

(** A language pipeline that finds one sentence and nothing else. *)
Definition legal_nlp (text : pystr) : result Legal.Doc :=
  Ok {| Legal.ents := []; Legal.sents := [text] |}.

Definition generic_nlp (text : pystr) : result Generic.Doc :=
  Ok {| Generic.ents := []; Generic.tokens := []; Generic.sents := [text] |}.

(** A matcher for the two legal terms "court" and "judge", in text order
    when "court" comes first. *)
Definition find_terms (text : pystr) : list pystr :=
  List.filter (fun w => contains w (lower text)) [py "court"; py "judge"].

(** The number of characters of [s] equal to [c]. *)
Definition occurrences (c : ascii) (s : pystr) : nat :=
  length (List.filter (fun x => bool_decide (x = c)) s).

(** A sentence model that reports which of the letters "a", "b" and "c" is
    the most frequent in the text. *)
Definition encode (text : pystr) : result Embedding :=
  let a := occurrences "a" text in
  let b := occurrences "b" text in
  let c := occurrences "c" text in
  Ok (if (b <=? a) && (c <=? a) then [1; 0; 0]
      else if c <=? b then [0; 1; 0]
      else [0; 0; 1])%Q.

End Stub.


(** ** Sample inputs *)

Module Example.

Definition doc : pystr := py "doc".

(** A chunk as the annotation loop of [advanced-document-processor.py]
    leaves it. *)
Definition gchunk (i : nat) (text : string) (kws : list string)
    (v : Embedding) : Generic.Chunk :=
  {| Generic.chunk_id := doc ++ py "_chunk_" ++ str_of_nat i;
     Generic.document_id := doc;
     Generic.content := py text;
     Generic.metadata :=
       {| Generic.chunk_index := i;
          Generic.start_char := Z.of_nat (10 * i);
          Generic.end_char := Z.of_nat (10 * i + String.length text);
          Generic.word_count := 1;
          Generic.sentence_count := 1;
          Generic.paragraph_count := 1;
          Generic.keywords := map py kws;
          Generic.entities := [];
          Generic.semantic_embedding := Some v;
          Generic.chunk_type := py "text";
          Generic.confidence_score := 1;
          Generic.merged_from := None |} |}.

(** Chunks 0 and 1 have the same direction, chunk 2 is orthogonal. *)
Definition gchunks : list Generic.Chunk :=
  [gchunk 0 "alpha" ["court"] [1; 0]%Q;
   gchunk 1 "beta" ["judge"] [1; 0]%Q;
   gchunk 2 "gamma" ["appeal"] [0; 1]%Q].

Definition gmatrix : Matrix :=
  [[1; 1; 0]; [1; 1; 0]; [0; 0; 1]]%Q.

(** A chunk as the annotation loop of [advanced_document_processor.py]
    leaves it. *)
Definition lchunk (i : nat) (text : string) (kws terms : list string)
    (score : Q) : Legal.ChunkMetadata :=
  {| Legal.chunk_id := doc ++ py "_chunk_" ++ str_of_nat i;
     Legal.document_id := doc;
     Legal.content := py text;
     Legal.start_position := 0;
     Legal.end_position := Z.of_nat (String.length text);
     Legal.chunk_index := Z.of_nat i;
     Legal.entities := [];
     Legal.keywords := map py kws;
     Legal.topics := [];
     Legal.sentiment := py "neutral";
     Legal.importance_score := score;
     Legal.legal_terms := map py terms;
     Legal.case_references := [];
     Legal.statute_references := [] |}.

Definition lchunks : list Legal.ChunkMetadata :=
  [lchunk 0 "alpha" ["court"] ["court"] (1 # 10);
   lchunk 1 "beta" ["judge"] ["court"; "judge"] (2 # 10);
   lchunk 2 "gamma" ["appeal"] ["appeal"] (3 # 10)].

Definition lembeddings : list Embedding :=
  [[1; 0]; [1; 0]; [0; 1]]%Q.

(** Three unit vectors: the second and the third both make a cosine of 0.9
    with the first, and one of 0.62 with each other. *)
Definition star_embeddings : list Embedding :=
  [[1; 0; 0; 0];
   [9 # 10; 3 # 10; 3 # 10; 1 # 10];
   [9 # 10; -3 # 10; -3 # 10; -1 # 10]]%Q.

(** The sample chunks with these vectors. *)
Definition star_gchunks : list Generic.Chunk :=
  [gchunk 0 "alpha" ["court"] [1; 0; 0; 0]%Q;
   gchunk 1 "beta" ["judge"] [9 # 10; 3 # 10; 3 # 10; 1 # 10]%Q;
   gchunk 2 "gamma" ["appeal"] [9 # 10; -3 # 10; -3 # 10; -1 # 10]%Q].

(** A document of three paragraphs: 200 times "a" followed by 700 times
    "c", then 900 times "b", then 200 times "a" again.  With a chunk size of
    1000 and an overlap of 200 the recursive splitter returns the three
    paragraphs, as the splitter at blank lines does. *)
Definition repeated : pystr :=
  repeat "a"%char 200 ++ repeat "c"%char 700 ++ [newline; newline]
  ++ repeat "b"%char 900 ++ [newline; newline] ++ repeat "a"%char 200.

Definition split_paragraphs (s : pystr) : result (list pystr) :=
  Ok (Stub.paragraphs [] s).

(** A query embedding that does not depend on the query. *)
Definition encode_query (query : pystr) : result Embedding := Ok [1; 0]%Q.

(** One sentence with two legal terms. *)
Definition ruling : pystr := py "The court and the judge agreed.".

Definition encode_all (texts : list pystr) : result (list Embedding) :=
  Ok (map (fun _ => [1; 0]%Q) texts).

(** Lines 132 to 148 of [process_document] on [ruling], for a given
    iteration order of sets. *)
Definition annotated_ruling (list_set : list pystr -> list pystr)
    : list Legal.ChunkMetadata :=
  fst (Legal.annotated_chunks Stub.legal_nlp (fun _ => Ok []) encode_all
         (fun _ => Ok []) Stub.find_terms (fun _ => []) (fun _ => [])
         list_set ruling (py "ruling.txt") None).

(** The example of the specification: three sentences of 400 characters. *)
Definition three_sentences : pystr :=
  repeat "A"%char 399 ++ py ". " ++ repeat "B"%char 399 ++ py ". "
  ++ repeat "C"%char 399 ++ py ".".

End Example.

(** * Specification-side definitions *)

(** An [n] by [n] matrix, as scikit-learn returns for [n] vectors. *)
Definition square (n : nat) (m : Matrix) : Prop :=
  length m = n /\ Forall (fun row => length row = n) m.

(** [similarity_matrix[i][j] > 0.8], false outside the matrix. *)
Definition similar (m : Matrix) (i j : nat) : bool :=
  match getitem2 m i j with
  | Ok s => gtb s threshold
  | Raise _ => false
  end.

(** The chunks that join the group anchored at [i], given the indices
    consumed so far. *)
Definition joiners (n : nat) (m : Matrix) (i : nat) (used : gset nat) : list nat :=
  filter (fun j => (j ∉ used) /\ similar m i j = true) (range (i + 1) n).

(** The merge-groups as a total function of a well-formed matrix. *)
Fixpoint groups_from (n : nat) (m : Matrix) (todo : list nat) (used : gset nat)
    : list (list nat) :=
  match todo with
  | [] => []
  | i :: todo' =>
      if decide (i ∈ used) then groups_from n m todo' used
      else (i :: joiners n m i used)
             :: groups_from n m todo' (list_to_set (joiners n m i used) ∪ used)
  end.

(** The first index of a group. *)
Definition anchor (g : list nat) : nat := hd 0 g.

(** The source chunk ids an output chunk stands for: its [merged_from]
    list, or itself when it was passed through. *)
Definition sources (c : Generic.Chunk) : list pystr :=
  match Generic.merged_from (Generic.metadata c) with
  | Some ids => ids
  | None => [Generic.chunk_id c]
  end.

(** The output chunk of a merge-group [g] of [_optimize_chunks_semantically]:
    the anchor itself for a singleton, the merged dictionary otherwise. *)
Definition group_chunk (chunks : list Generic.Chunk) (g : list nat)
    : option Generic.Chunk :=
  a ← chunks !! anchor g;
  members ← mapM (fun idx => chunks !! idx) g;
  Some (if 1 <? length g then Generic.merged_chunk a members (anchor g) else a).

(** The output chunk of a merge-group [g] of [_merge_chunks]: the anchor
    itself for a singleton, the merged record otherwise. *)
Definition legal_group_chunk (list_set : list pystr -> list pystr)
    (chunks : list Legal.ChunkMetadata) (g : list nat)
    : option Legal.ChunkMetadata :=
  a ← chunks !! anchor g;
  members ← mapM (fun idx => chunks !! idx) (tail g);
  Some (match members with
        | [] => a
        | _ :: _ => Legal.merged_chunk list_set a members (List.last members a)
        end).

(** The groups are a partition of the indices below [n], listed by
    increasing anchor, each group in increasing order. *)
Definition partition_of (n : nat) (gs : list (list nat)) : Prop :=
  List.concat gs ≡ₚ seq 0 n /\
  StronglySorted lt (map anchor gs) /\
  Forall (fun g => g <> [] /\ StronglySorted lt g) gs.

(** What [_optimize_chunks_semantically] needs in order to return: for more
    than one chunk, every chunk has a vector and scikit-learn returns the
    pairwise matrix [m] of these vectors. *)
Definition similarity_of
    (cosine_similarity : list Embedding -> list Embedding -> result Matrix)
    (chunks : list Generic.Chunk) (m : Matrix) : Prop :=
  1 < length chunks ->
  exists embeddings,
    Generic.np_array
      (map (fun c => Generic.semantic_embedding (Generic.metadata c)) chunks)
    = Ok embeddings /\
    cosine_similarity embeddings embeddings = Ok m /\
    square (length chunks) m.

(** What is known of [list(set(xs))] whatever the iteration order: every
    element of [xs] once. *)
Definition set_order (list_set : list pystr -> list pystr) : Prop :=
  forall xs, NoDup (list_set xs) /\ forall x, x ∈ list_set xs <-> x ∈ xs.

(** [l] lists, without repetition, what occurs in some list of [ls]. *)
Definition union_of (l : list pystr) (ls : list (list pystr)) : Prop :=
  NoDup l /\ forall x, x ∈ l <-> exists l', l' ∈ ls /\ x ∈ l'.

(** [q] is the largest of the scores [qs]. *)
Definition max_of (q : Q) (qs : list Q) : Prop :=
  q ∈ qs /\ Forall (fun y => (y <= q)%Q) qs.

(** Following the specification's words for the sentiment counts: the
    number of occurrences of the words of a lexicon in a text. *)
Definition lexicon_occurrences (words : list pystr) (text : pystr) : nat :=
  sum_list (map (fun word => count text word) words).

(** A text without any character other than white space. *)
Definition blank (s : pystr) : Prop := Forall (fun c => isspace c = true) s.

(** A chunk of [advanced_document_processor.py] without its legal terms. *)
Definition forget_terms (c : Legal.ChunkMetadata) : Legal.ChunkMetadata :=
  {| Legal.chunk_id := Legal.chunk_id c;
     Legal.document_id := Legal.document_id c;
     Legal.content := Legal.content c;
     Legal.start_position := Legal.start_position c;
     Legal.end_position := Legal.end_position c;
     Legal.chunk_index := Legal.chunk_index c;
     Legal.entities := Legal.entities c;
     Legal.keywords := Legal.keywords c;
     Legal.topics := Legal.topics c;
     Legal.sentiment := Legal.sentiment c;
     Legal.importance_score := Legal.importance_score c;
     Legal.legal_terms := [];
     Legal.case_references := Legal.case_references c;
     Legal.statute_references := Legal.statute_references c |}.

(** A chunk of [advanced-document-processor.py] without its keywords. *)
Definition forget_keywords (c : Generic.Chunk) : Generic.Chunk :=
  let md := Generic.metadata c in
  {| Generic.chunk_id := Generic.chunk_id c;
     Generic.document_id := Generic.document_id c;
     Generic.content := Generic.content c;
     Generic.metadata :=
       {| Generic.chunk_index := Generic.chunk_index md;
          Generic.start_char := Generic.start_char md;
          Generic.end_char := Generic.end_char md;
          Generic.word_count := Generic.word_count md;
          Generic.sentence_count := Generic.sentence_count md;
          Generic.paragraph_count := Generic.paragraph_count md;
          Generic.keywords := [];
          Generic.entities := Generic.entities md;
          Generic.semantic_embedding := Generic.semantic_embedding md;
          Generic.chunk_type := Generic.chunk_type md;
          Generic.confidence_score := Generic.confidence_score md;
          Generic.merged_from := Generic.merged_from md |} |}.

(** Two runs of [advanced_document_processor.py] agree on a chunk except for
    the order of its legal terms. *)
Definition same_but_term_order (c1 c2 : Legal.ChunkMetadata) : Prop :=
  forget_terms c1 = forget_terms c2 /\
  Legal.legal_terms c1 ≡ₚ Legal.legal_terms c2.

(** Two runs of [advanced-document-processor.py] agree on a chunk except for
    its keywords, which are the first ten of two orderings of the same set. *)
Definition same_but_keyword_choice (c1 c2 : Generic.Chunk) : Prop :=
  forget_keywords c1 = forget_keywords c2 /\
  exists all1 all2,
    all1 ≡ₚ all2 /\ NoDup all1 /\
    Generic.keywords (Generic.metadata c1) = take 10 all1 /\
    Generic.keywords (Generic.metadata c2) = take 10 all2.

(** The last [k] characters of [s], all of [s] when it is shorter. *)
Definition trailing (k : nat) (s : pystr) : pystr := drop (length s - k) s.

(** A text with a character that is not white space. *)
Definition nonblank (s : pystr) : Prop := Exists (fun c => isspace c = false) s.

(** The cosine matrix of [Example.star_embeddings]: chunks 1 and 2 both
    resemble chunk 0 but not each other. *)
Definition star_matrix : Matrix :=
  [[1; 9 # 10; 9 # 10]; [9 # 10; 1; 31 # 50]; [9 # 10; 31 # 50; 1]]%Q.

(** The state of the loop of [create_chunks] after the chunks [prefix] were
    sealed and the buffer was seeded with [overlap], a space and [sentence]:
    either the seeded buffer is still growing, or it was sealed into the chunk
    that follows [prefix]. *)
Definition seeded (prefix : list Basic.Chunk) (overlap sentence : pystr)
    (st : Basic.Chunker) : Prop :=
  (Basic.st_chunks st = prefix /\
   exists x, Basic.current_chunk st = overlap ++ py " " ++ sentence ++ x) \/
  (exists next more,
     Basic.st_chunks st = prefix ++ next :: more /\
     startswith (lstrip overlap) (Basic.chunkText next) = true).

(** ** Invariants and notions of the further properties *)

(** What the chunker has built after some sentences: [k] sealed chunks,
    numbered from 0, each made from a buffer that is not blank, and a buffer
    that is empty or not blank. *)
Definition chunker_inv (st : Basic.Chunker) : Prop :=
  Basic.start_pos st = Z.of_nat (Basic.chunk_index st) /\
  (Basic.current_chunk st = [] \/ nonblank (Basic.current_chunk st)) /\
  Forall2 (fun k c => exists buffer,
             nonblank buffer /\ c = Basic.new_chunk buffer (Z.of_nat k) k)
    (seq 0 (Basic.chunk_index st)) (Basic.st_chunks st).

(** [w] is a substring of [s]. *)
Definition occurs (w s : pystr) : Prop := exists pre post, s = pre ++ w ++ post.

(** What became of the sentences read so far: each one that is not blank is
    inside a sealed chunk, or still in the buffer. *)
Definition kept (st : Basic.Chunker) (s : pystr) : Prop :=
  (exists c, c ∈ Basic.st_chunks st /\ occurs (strip s) (Basic.chunkText c)) \/
  occurs s (Basic.current_chunk st).

(** The only white space [re.sub(r'\s+', ' ', text)] leaves is the space. *)
Definition only_spaces (s : pystr) : Prop :=
  Forall (fun c => isspace c = true -> c = " "%char) s.

(** A sentence as [_split_into_sentences] returns it from spaCy: not empty,
    and without white space at either end. *)
Definition clean (s : pystr) : Prop := s <> [] /\ strip s = s.

(** The assembler has sealed the runs [runs] of sentences and holds the run
    [run] in its buffer. *)
Definition assembled (st : Legal.Assembler) (runs : list (list pystr))
    (run : list pystr) : Prop :=
  map Legal.content (Legal.chunks st) = map (join (py " ")) runs /\
  Forall (fun r => r <> []) runs /\
  Legal.current_chunk st = join (py " ") run /\
  Forall clean run.

(** The assembler has sealed [k] chunks, numbered from 0, each from a buffer
    that is not empty. *)
Definition legal_inv (document_id : pystr) (st : Legal.Assembler) : Prop :=
  Legal.chunk_start st = 0%Z /\
  Forall2 (fun k c => exists buffer,
             buffer <> [] /\
             c = Legal.new_chunk document_id k (strip buffer) 0
                   (Z.of_nat (length buffer)))
    (seq 0 (Legal.next_index st)) (Legal.chunks st).

(** [s[start:stop]] for [0 <= start <= stop]. *)
Definition substring (start stop : Z) (s : pystr) : pystr :=
  take (Z.to_nat (stop - start)) (drop (Z.to_nat start) s).

(** What a chunk keeps through consolidation. *)
Definition identity (c : Legal.ChunkMetadata)
    : pystr * pystr * Z * Z * pystr * list pystr :=
  (Legal.chunk_id c, Legal.document_id c, Legal.chunk_index c,
   Legal.start_position c, Legal.sentiment c, Legal.topics c).

(** The pieces that make a chunk: those that are not blank, with their
    position in the output of the splitter. *)
Definition kept_pieces (todo : list (nat * pystr)) : list (nat * pystr) :=
  List.filter (fun it => truthy (strip (snd it))) todo.

(** The similarity under which the search ranks [chunk] against the query
    embedding: the single entry of the matrix scikit-learn returns for the
    two vectors. *)
Definition scored
    (cosine_similarity : list Embedding -> list Embedding -> result Matrix)
    (query_embedding : Embedding) (sc : Q * Generic.Chunk) : Prop :=
  exists chunk_embedding sm,
    Generic.has_embedding (snd sc) = Some chunk_embedding /\
    cosine_similarity [query_embedding] [chunk_embedding] = Ok sm /\
    getitem2 sm 0 0 = Ok (fst sc).

(** The extensions [_extract_content] has a reader for. *)
Definition supported : list pystr := [py ".pdf"; py ".docx"; py ".doc"; py ".txt"].

(** The id of the output chunk of a group, from the piece numbers of the
    annotated chunks. *)
Definition group_id (document_id : pystr) (numbers : list nat)
    (tag : nat * bool) : pystr :=
  if snd tag
  then document_id ++ py "_merged_" ++ str_of_nat (fst tag)
  else document_id ++ py "_chunk_" ++ str_of_nat (default 0 (numbers !! fst tag)).

(** The last character of a sentence is one of [.!?]. *)
Definition ends_sentence (s : pystr) : Prop :=
  exists t c, s = t ++ [c] /\ Basic.is_terminator c = true.

(** The characters of a text that are not white space. *)
Definition visible (s : pystr) : pystr :=
  List.filter (fun c => negb (isspace c)) s.

(** Where the scan stands: in a separator with text left that ends in a
    visible character, or in a sentence that, with the text left, starts and
    ends in a visible character. *)
Definition scanning (st : Basic.SplitState) (cur s : pystr) : Prop :=
  match st with
  | Basic.InSeparator => s <> [] /\ rstrip s = s
  | Basic.After t =>
      rev cur ++ s <> [] /\
      lstrip (rev cur ++ s) = rev cur ++ s /\
      rstrip (rev cur ++ s) = rev cur ++ s /\
      (t = true -> exists d cur', cur = d :: cur' /\ Basic.is_terminator d = true)
  end.


(** * Properties *)

Section Grouping.

Variables (n : nat) (m : Matrix).
Hypothesis Hsq : square n m.

Lemma getitem2_square i j :
  i < n -> j < n -> exists s, getitem2 m i j = Ok s.
Proof.
  intros Hi Hj. destruct Hsq as [Hlen Hrows].
  unfold getitem2, getitem.
  destruct (m !! i) as [row|] eqn:Hrow.
  - assert (length row = n) as Hr.
    { rewrite Forall_forall in Hrows. apply Hrows.
      eapply list_elem_of_lookup_2; eauto. }
    cbn. destruct (row !! j) as [s|] eqn:Hs.
    + by exists s.
    + apply lookup_ge_None in Hs. lia.
  - apply lookup_ge_None in Hrow. lia.
Qed.

Lemma filter_ext_elem {A} (P Q : A -> Prop)
    `{!forall x, Decision (P x)} `{!forall x, Decision (Q x)} (l : list A) :
  (forall x, x ∈ l -> (P x <-> Q x)) -> filter P l = filter Q l.
Proof.
  induction l as [|x l IH]; intros Hext; [done|].
  rewrite !filter_cons.
  destruct (decide (P x)) as [HP|HP], (decide (Q x)) as [HQ|HQ].
  - f_equal. apply IH. intros y Hy. apply Hext. by right.
  - exfalso. apply HQ, Hext; [by left|done].
  - exfalso. apply HP, Hext; [by left|done].
  - apply IH. intros y Hy. apply Hext. by right.
Qed.

(** The inner loop returns, and collects exactly the indices that are not
    yet consumed and exceed the threshold against the anchor. *)
Lemma scan_similar_spec i js :
  i < n -> Forall (fun j => j < n) js -> NoDup js ->
  forall similar_chunks used,
    Generic.scan_similar m i js similar_chunks used =
    Ok (similar_chunks ++ filter (fun j => (j ∉ used) /\ similar m i j = true) js,
        list_to_set (filter (fun j => (j ∉ used) /\ similar m i j = true) js) ∪ used).
Proof.
  intros Hi. induction js as [|j js IH]; intros Hjs Hnd sc used.
  - simpl. rewrite app_nil_r. f_equal. f_equal. set_solver.
  - apply Forall_cons in Hjs as [Hj Hjs]. apply NoDup_cons in Hnd as [Hnin Hnd].
    simpl. destruct (decide (j ∈ used)) as [Hin|Hin].
    + rewrite filter_cons_False by tauto. by apply IH.
    + destruct (getitem2_square i j Hi Hj) as [s Hs].
      rewrite Hs. simpl.
      assert (similar m i j = gtb s threshold) as Hsim.
      { unfold similar. by rewrite Hs. }
      destruct (gtb s threshold) eqn:Hgt.
      * rewrite filter_cons_True by (split; [done|by rewrite Hsim]).
        rewrite IH by done.
        rewrite (filter_ext_elem
                   (fun j0 => (j0 ∉ {[j]} ∪ used) /\ similar m i j0 = true)
                   (fun j0 => (j0 ∉ used) /\ similar m i j0 = true) js).
        -- rewrite <- app_assoc. simpl. f_equal. f_equal. set_solver.
        -- intros x Hx. assert (x <> j) by (intros ->; done). set_solver.
      * rewrite filter_cons_False by (rewrite Hsim; intros [_ ?]; done).
        by apply IH.
Qed.

Lemma range_lt a j : j ∈ range a n -> a <= j < n.
Proof. unfold range. rewrite elem_of_seq. lia. Qed.

Lemma scan_similar_range i used :
  i < n ->
  Generic.scan_similar m i (range (i + 1) n) [i] used =
  Ok (i :: joiners n m i used, list_to_set (joiners n m i used) ∪ used).
Proof.
  intros Hi. rewrite scan_similar_spec; [done|done| |apply NoDup_seq].
  apply Forall_forall. intros j Hj%range_lt. lia.
Qed.

(** The group loop returns, and computes [groups_from]. *)
Lemma group_loop_spec todo :
  Forall (fun i => i < n) todo ->
  forall used, Generic.group_loop n m todo used = Ok (groups_from n m todo used).
Proof.
  induction todo as [|i todo IH]; intros Htodo used; [done|].
  apply Forall_cons in Htodo as [Hi Htodo]. simpl.
  destruct (decide (i ∈ used)); [by apply IH|].
  rewrite scan_similar_range by done. simpl.
  rewrite IH by done. done.
Qed.

End Grouping.

(** ** The merge-groups as a function *)

Section Groups.

Variables (n : nat) (m : Matrix).

Lemma joiners_elem i (used : gset nat) j :
  j ∈ joiners n m i used <->
  i < j < n /\ (j ∉ used) /\ similar m i j = true.
Proof.
  unfold joiners, range. rewrite list_elem_of_filter, elem_of_seq.
  split; intros; destruct_and?; split_and?; auto; lia.
Qed.

Lemma joiners_sorted i (used : gset nat) : StronglySorted lt (joiners n m i used).
Proof.
  unfold joiners, range.
  generalize (i + 1) (n - (i + 1)). intros a d. revert a.
  induction d as [|d IH]; intros a; simpl; [constructor|].
  rewrite filter_cons. case_decide.
  - constructor; [apply IH|].
    apply Forall_forall. intros x [_ Hx]%list_elem_of_filter.
    apply elem_of_seq in Hx. lia.
  - apply IH.
Qed.

Lemma split_unconsumed (L : list nat) i (used : gset nat) :
  let J := filter (fun j => (j ∉ used) /\ similar m i j = true) L in
  J ++ filter (fun x => x ∉ list_to_set J ∪ used) L
  ≡ₚ filter (fun x => x ∉ used) L.
Proof.
  intros J.
  rewrite (filter_ext_elem (fun x => x ∉ list_to_set J ∪ used)
             (fun x => ~ (similar m i x = true) /\ (x ∉ used)) L).
  2:{ intros x Hx. unfold J.
      rewrite not_elem_of_union, elem_of_list_to_set, list_elem_of_filter.
      tauto. }
  unfold J.
  rewrite (list_filter_iff (fun j => (j ∉ used) /\ similar m i j = true)
             (fun j => similar m i j = true /\ (j ∉ used)) L) by (intros; tauto).
  rewrite <- !list_filter_filter.
  apply filter_app_complement.
Qed.

(** The groups partition the indices that were not consumed before. *)
Lemma groups_from_partition d :
  forall k (used : gset nat), k + d = n ->
    concat (groups_from n m (seq k d) used)
    ≡ₚ filter (fun x => x ∉ used) (seq k d).
Proof.
  induction d as [|d IH]; intros k used Hk; [done|].
  simpl. destruct (decide (k ∈ used)) as [Hin|Hin].
  - rewrite filter_cons_False by tauto. apply IH. lia.
  - rewrite filter_cons_True by done. simpl.
    constructor. rewrite IH by lia.
    unfold joiners, range.
    replace (k + 1) with (S k) by lia. replace (n - S k) with d by lia.
    apply split_unconsumed.
Qed.

Lemma groups_from_anchors todo :
  forall used,
    Forall (fun g => g <> []) (groups_from n m todo used) /\
    sublist (map anchor (groups_from n m todo used)) todo.
Proof.
  induction todo as [|i todo IH]; intros used; simpl.
  - split; constructor.
  - destruct (decide (i ∈ used)).
    + destruct (IH used) as [H1 H2]. split; [done|by apply sublist_cons].
    + destruct (IH (list_to_set (joiners n m i used) ∪ used)) as [H1 H2].
      split; [by constructor|]. simpl. by apply sublist_skip.
Qed.

Lemma groups_from_sorted todo used :
  Forall (StronglySorted lt) (groups_from n m todo used).
Proof.
  revert used. induction todo as [|i todo IH]; intros used; simpl; [constructor|].
  destruct (decide (i ∈ used)); [apply IH|].
  constructor; [|apply IH].
  constructor; [apply joiners_sorted|].
  apply Forall_forall. intros j Hj%joiners_elem. lia.
Qed.

Lemma groups_from_bounded todo used :
  Forall (fun i => i < n) todo ->
  Forall (Forall (fun j => j < n)) (groups_from n m todo used).
Proof.
  revert used. induction todo as [|i todo IH]; intros used Htodo; simpl; [constructor|].
  apply Forall_cons in Htodo as [Hi Htodo].
  destruct (decide (i ∈ used)); [by apply IH|].
  constructor; [|by apply IH].
  constructor; [done|].
  apply Forall_forall. intros j Hj%joiners_elem. lia.
Qed.

(** Membership in the group at a given position of the output. *)
Lemma groups_from_member todo :
  forall used gs1 i g gs2,
    groups_from n m todo used = gs1 ++ (i :: g) :: gs2 ->
    forall j, j ∈ g <->
      i < j < n /\ (j ∉ used) /\ (forall g', g' ∈ gs1 -> j ∉ tail g')
      /\ similar m i j = true.
Proof.
  induction todo as [|i0 todo IH]; intros used gs1 i g gs2 Heq j; simpl in Heq.
  - by destruct gs1.
  - destruct (decide (i0 ∈ used)); [by eapply IH|].
    destruct gs1 as [|g1 gs1]; simpl in Heq.
    + injection Heq as -> <- _. rewrite joiners_elem.
      split; [intros (?&?&?)|intros (?&?&?&?)]; split_and?; auto; try lia.
      intros g' Hg'. by apply elem_of_nil in Hg'.
    + injection Heq as <- Heq. rewrite (IH _ _ _ _ _ Heq j).
      rewrite not_elem_of_union, elem_of_list_to_set.
      split.
      * intros (?&[HJ ?]&Hgs&?). split_and?; auto; try lia.
        intros g' [->|Hg']%elem_of_cons; [done|by apply Hgs].
      * intros (?&?&Hgs&?). split_and?; auto; try lia.
        -- apply (Hgs (i0 :: joiners n m i0 used)). by left.
        -- intros g' Hg'. apply Hgs. by right.
Qed.

End Groups.

(** ** The consolidation loop of [advanced-document-processor.py] *)

Lemma mapM_getitem {A} (l : list A) (idxs : list nat) :
  Forall (fun i => i < length l) idxs ->
  exists ms, mapM (getitem l) idxs = Ok ms
             /\ mapM (fun i => l !! i) idxs = Some ms.
Proof.
  induction idxs as [|i idxs IH]; intros Hall.
  - by exists [].
  - apply Forall_cons in Hall as [Hi Hall].
    destruct (IH Hall) as (ms & H1 & H2).
    destruct (lookup_lt_is_Some_2 l i Hi) as [a Ha].
    exists (a :: ms). split.
    + change (mapM (getitem l) (i :: idxs))
        with (y ← getitem l i; k ← mapM (getitem l) idxs; mret (y :: k)).
      rewrite H1. unfold getitem. by rewrite Ha.
    + change (mapM (fun i => l !! i) (i :: idxs))
        with (y ← l !! i; k ← mapM (fun i => l !! i) idxs; mret (y :: k)).
      by rewrite H2, Ha.
Qed.

Lemma mapM_getitem_Ok {A} (l : list A) (idxs : list nat) ms :
  mapM (getitem l) idxs = Ok ms -> mapM (fun i => l !! i) idxs = Some ms.
Proof.
  revert ms. induction idxs as [|i idxs IH]; intros ms H.
  - injection H as <-. done.
  - change (mapM (getitem l) (i :: idxs))
      with (y ← getitem l i; k ← mapM (getitem l) idxs; mret (y :: k)) in H.
    change (mapM (fun i => l !! i) (i :: idxs))
      with (y ← l !! i; k ← mapM (fun i => l !! i) idxs; mret (y :: k)).
    destruct (getitem l i) as [a|] eqn:Hg; cbn in H; [|done].
    destruct (mapM (getitem l) idxs) as [k|] eqn:Hk; cbn in H; [|done].
    injection H as <-. rewrite (IH k eq_refl).
    unfold getitem in Hg. destruct (l !! i); [|done]. by injection Hg as ->.
Qed.

Lemma list_last_lookup {A} (l : list A) (d c : A) :
  l !! (length l - 1) = Some c -> List.last l d = c.
Proof.
  induction l as [|x l IH]; intros Hc; [done|].
  destruct l as [|y l].
  - simpl in Hc. by injection Hc as ->.
  - change (List.last (x :: y :: l) d) with (List.last (y :: l) d).
    apply IH. replace (length (y :: l) - 1) with (length l) by (simpl; lia).
    replace (length (x :: y :: l) - 1) with (S (length l)) in Hc by (simpl; lia).
    done.
Qed.

Lemma enumerate_from_lookup {A} (l : list A) k i c :
  (i, c) ∈ zip (seq k (length l)) l -> k <= i /\ l !! (i - k) = Some c.
Proof.
  revert k. induction l as [|a l IH]; intros k; simpl.
  - by intros ?%elem_of_nil.
  - intros [Heq|Hin]%elem_of_cons.
    + injection Heq as -> ->. split; [lia|]. by rewrite Nat.sub_diag.
    + apply IH in Hin as [Hle Hl]. split; [lia|].
      replace (i - k) with (S (i - S k)) by lia. done.
Qed.

Lemma enumerate_lookup {A} (l : list A) i c :
  (i, c) ∈ enumerate l -> l !! i = Some c.
Proof.
  intros [_ H]%enumerate_from_lookup. by rewrite Nat.sub_0_r in H.
Qed.

Lemma enumerate_fst {A} (l : list A) : map fst (enumerate l) = seq 0 (length l).
Proof. unfold enumerate. apply fst_zip. by rewrite length_seq. Qed.

Section OptimizeLoop.

Variable chunks : list Generic.Chunk.
Variable m : Matrix.
Hypothesis Hsq : square (length chunks) m.

Lemma merge_similar_spec i J members :
  mapM (fun idx => chunks !! idx) (i :: J) = Some members ->
  exists a, chunks !! i = Some a /\
    Generic.merge_similar chunks i (i :: J) = Ok (Generic.merged_chunk a members i).
Proof.
  intros Hm. pose proof Hm as Hm'.
  apply mapM_Some in Hm'. apply Forall2_cons_inv_l in Hm' as (a & ms & Ha & Hms & ->).
  exists a. split; [done|].
  assert (Forall (fun i => i < length chunks) (i :: J)) as Hb.
  { assert (is_Some (mapM (fun idx => chunks !! idx) (i :: J))) as Hs by eauto.
    apply mapM_is_Some_1 in Hs. eapply Forall_impl; [exact Hs|].
    intros x Hx. by apply lookup_lt_is_Some_1. }
  destruct (mapM_getitem chunks (i :: J) Hb) as (ms' & H1 & H2).
  rewrite Hm in H2. injection H2 as <-.
  unfold Generic.merge_similar. rewrite H1. cbn.
  unfold getitem. rewrite Ha. done.
Qed.

Lemma optimize_loop_skip i chunk todo acc (used : gset nat) :
  i ∈ used ->
  Generic.optimize_loop chunks m ((i, chunk) :: todo) acc used =
  Generic.optimize_loop chunks m todo acc used.
Proof. intros. simpl. by rewrite decide_True. Qed.

Lemma optimize_loop_step i chunk todo acc (used : gset nat) :
  i < length chunks -> i ∉ used ->
  Generic.optimize_loop chunks m ((i, chunk) :: todo) acc used =
  let J := joiners (length chunks) m i used in
  if 1 <? length (i :: J)
  then optimized_chunk ← Generic.merge_similar chunks i (i :: J);
       Generic.optimize_loop chunks m todo (acc ++ [optimized_chunk])
         (list_to_set J ∪ used)
  else Generic.optimize_loop chunks m todo (acc ++ [chunk])
         (list_to_set J ∪ used).
Proof.
  intros Hi Hused. simpl. rewrite decide_False by done.
  rewrite (scan_similar_range _ _ Hsq) by done. done.
Qed.

Lemma optimize_loop_spec todo :
  (forall i c, (i, c) ∈ todo -> chunks !! i = Some c) ->
  forall acc used,
  exists out,
    Generic.optimize_loop chunks m todo acc used = Ok (acc ++ out) /\
    Forall2 (fun g c => group_chunk chunks g = Some c)
      (groups_from (length chunks) m (map fst todo) used) out.
Proof.
  induction todo as [|[i chunk] todo IH]; intros Htodo acc used.
  - exists []. simpl. by rewrite app_nil_r.
  - assert (chunks !! i = Some chunk) as Hi by (apply Htodo; by left).
    assert (forall i c, (i, c) ∈ todo -> chunks !! i = Some c) as Htodo'.
    { intros ? ? ?. apply Htodo. by right. }
    assert (i < length chunks) as Hlt by (by eapply lookup_lt_Some).
    change (map fst ((i, chunk) :: todo)) with (i :: map fst todo).
    destruct (decide (i ∈ used)) as [Hin|Hin].
    { rewrite optimize_loop_skip by done. simpl.
      rewrite decide_True by done. by apply IH. }
    rewrite optimize_loop_step by done. simpl groups_from.
    rewrite decide_False by done. cbv zeta.
    set (J := joiners (length chunks) m i used).
    assert (Forall (fun j => j < length chunks) (i :: J)) as Hb.
    { constructor; [done|]. apply Forall_forall.
      intros j Hj%joiners_elem. lia. }
    destruct (mapM_getitem chunks (i :: J) Hb) as (ms & _ & Hms).
    destruct (merge_similar_spec i J ms Hms) as (a & Ha & Hmerge).
    assert (a = chunk) as -> by congruence.
    assert (group_chunk chunks (i :: J) =
            Some (if 1 <? length (i :: J)
                  then Generic.merged_chunk chunk ms i else chunk)) as Hg.
    { unfold group_chunk. change (anchor (i :: J)) with i.
      rewrite Hi. cbn [mbind option_bind]. rewrite Hms. done. }
    destruct (1 <? length (i :: J)).
    + rewrite Hmerge. cbn [mbind result_bind].
      destruct (IH Htodo' (acc ++ [Generic.merged_chunk chunk ms i])
                  (list_to_set J ∪ used)) as (out & Hout & Hall).
      exists (Generic.merged_chunk chunk ms i :: out). split.
      * rewrite Hout. by rewrite <- app_assoc.
      * by constructor.
    + destruct (IH Htodo' (acc ++ [chunk]) (list_to_set J ∪ used))
        as (out & Hout & Hall).
      exists (chunk :: out). split.
      * rewrite Hout. by rewrite <- app_assoc.
      * by constructor.
Qed.

End OptimizeLoop.

(** ** The consolidation loop of [advanced_document_processor.py] *)

Lemma groups_from_irrelevant n m i todo :
  Forall (fun x => i < x) todo ->
  forall used : gset nat,
    groups_from n m todo ({[i]} ∪ used) = groups_from n m todo used.
Proof.
  induction todo as [|x todo IH]; intros Hall used; [done|].
  apply Forall_cons in Hall as [Hx Hall]. simpl.
  assert (joiners n m x ({[i]} ∪ used) = joiners n m x used) as HJ.
  { unfold joiners. apply filter_ext_elem. intros j Hj.
    unfold range in Hj. apply elem_of_seq in Hj.
    assert (j <> i) by lia. set_solver. }
  rewrite HJ.
  destruct (decide (x ∈ {[i]} ∪ used)) as [H1|H1],
           (decide (x ∈ used)) as [H2|H2].
  - by apply IH.
  - exfalso. assert (x <> i) by lia. set_solver.
  - exfalso. set_solver.
  - f_equal.
    replace (list_to_set (joiners n m x used) ∪ ({[i]} ∪ used))
      with ({[i]} ∪ (list_to_set (joiners n m x used) ∪ used)) by set_solver.
    by apply IH.
Qed.

Lemma groups_from_equiv n m todo (used used' : gset nat) :
  used = used' -> groups_from n m todo used = groups_from n m todo used'.
Proof. by intros ->. Qed.

Section MergeLoop.

Variable list_set : list pystr -> list pystr.
Variable chunks : list Legal.ChunkMetadata.
Variable m : Matrix.

(** When the inner loop returns, it has collected the indices that are not
    consumed and exceed the threshold against the anchor. *)
Lemma legal_scan_spec i js :
  forall similar_indices (used : gset nat) r,
    Legal.scan_similar m i js similar_indices used = Ok r ->
    r = similar_indices
          ++ filter (fun j => (j ∉ used) /\ similar m i j = true) js.
Proof.
  induction js as [|j js IH]; intros sc used r Hr; simpl in Hr.
  - injection Hr as <-. by rewrite app_nil_r.
  - destruct (decide (j ∈ used)) as [Hin|Hin].
    + rewrite filter_cons_False by tauto. by apply IH.
    + destruct (getitem2 m i j) as [s|e] eqn:Hs; [|done].
      cbn in Hr.
      assert (similar m i j = gtb s threshold) as Hsim.
      { unfold similar. by rewrite Hs. }
      destruct (gtb s threshold) eqn:Hgt.
      * rewrite filter_cons_True by (split; [done|by rewrite Hsim]).
        apply IH in Hr. rewrite Hr, <- app_assoc. done.
      * rewrite filter_cons_False by (rewrite Hsim; intros [_ ?]; done).
        by apply IH.
Qed.

Lemma legal_merge_similar_spec chunk J merged :
  J <> [] ->
  Legal.merge_similar list_set chunks chunk J = Ok merged ->
  exists members,
    mapM (fun idx => chunks !! idx) J = Some members /\
    members <> [] /\
    merged = Legal.merged_chunk list_set chunk members (List.last members chunk).
Proof.
  intros HJ Hm. unfold Legal.merge_similar in Hm.
  destruct (mapM (getitem chunks) J) as [members|] eqn:Hmem; [|done].
  cbn in Hm.
  destruct (getitem J (length J - 1)) as [last_index|] eqn:Hli; [|done].
  cbn in Hm.
  destruct (getitem chunks last_index) as [last|] eqn:Hl; [|done].
  cbn in Hm. injection Hm as <-.
  apply mapM_getitem_Ok in Hmem. exists members. split; [done|].
  pose proof Hmem as HF. apply mapM_Some in HF.
  split.
  { intros ->. apply Forall2_nil_inv_r in HF. done. }
  f_equal.
  (* the chunk at the last index is the last member *)
  unfold getitem in Hli, Hl.
  destruct (J !! (length J - 1)) as [li|] eqn:HJl; [|done].
  injection Hli as <-.
  destruct (chunks !! li) as [l|] eqn:Hcl; [|done]. injection Hl as <-.
  assert (length members = length J) as Hlen by (symmetry; by eapply Forall2_length).
  destruct (Forall2_lookup_l _ _ _ _ _ HF HJl) as (c & Hc & Hcc).
  rewrite Hcl in Hcc. injection Hcc as <-.
  rewrite <- Hlen in Hc.
  symmetry. by apply list_last_lookup.
Qed.

Lemma legal_merge_loop_spec todo :
  (forall i c, (i, c) ∈ todo -> chunks !! i = Some c) ->
  StronglySorted lt (map fst todo) ->
  forall acc used out,
    Legal.merge_loop list_set chunks m todo acc used = Ok out ->
    exists out',
      out = acc ++ out' /\
      Forall2 (fun g c => legal_group_chunk list_set chunks g = Some c)
        (groups_from (length chunks) m (map fst todo) used) out'.
Proof.
  induction todo as [|[i chunk] todo IH]; intros Htodo Hsorted acc used out Hout.
  - simpl in Hout. injection Hout as <-. exists []. by rewrite app_nil_r.
  - assert (chunks !! i = Some chunk) as Hi by (apply Htodo; by left).
    assert (forall i c, (i, c) ∈ todo -> chunks !! i = Some c) as Htodo'.
    { intros ? ? ?. apply Htodo. by right. }
    change (map fst ((i, chunk) :: todo)) with (i :: map fst todo) in *.
    apply StronglySorted_cons in Hsorted as [Hlt Hsorted].
    simpl in Hout. simpl groups_from.
    destruct (decide (i ∈ used)) as [Hin|Hin]; [by eapply IH|].
    destruct (Legal.scan_similar m i (range (i + 1) (length chunks)) [] used)
      as [J|] eqn:Hscan; [|done].
    apply legal_scan_spec in Hscan. simpl in Hscan.
    fold (joiners (length chunks) m i used) in Hscan. subst J.
    cbn [mbind result_bind] in Hout.
    destruct (joiners (length chunks) m i used) as [|j J] eqn:HJ.
    + apply (IH Htodo' Hsorted) in Hout as (out' & -> & Hall).
      exists (chunk :: out'). split; [by rewrite <- app_assoc|].
      constructor.
      * unfold legal_group_chunk. simpl. by rewrite Hi.
      * rewrite groups_from_irrelevant in Hall by done.
        erewrite groups_from_equiv; [exact Hall|]. set_solver.
    + destruct (Legal.merge_similar list_set chunks chunk (j :: J))
        as [merged|] eqn:Hmerge; [|done].
      cbn [mbind result_bind] in Hout.
      apply legal_merge_similar_spec in Hmerge as (members & Hmem & Hne & ->); [|done].
      apply (IH Htodo' Hsorted) in Hout as (out' & -> & Hall).
      eexists (_ :: out'). split; [by rewrite <- app_assoc|].
      constructor.
      * unfold legal_group_chunk.
        change (anchor (i :: j :: J)) with i. rewrite Hi.
        cbn [mbind option_bind]. change (tail (i :: j :: J)) with (j :: J).
        rewrite Hmem. cbn [mbind option_bind].
        destruct members; [done|]. done.
      * rewrite groups_from_irrelevant in Hall by done. exact Hall.
Qed.

Hypothesis Hsq : square (length chunks) m.

Lemma legal_scan_ok i js :
  i < length chunks -> Forall (fun j => j < length chunks) js ->
  forall similar_indices (used : gset nat),
    exists r, Legal.scan_similar m i js similar_indices used = Ok r.
Proof.
  intros Hi. induction js as [|j js IH]; intros Hjs sc used; simpl; [eauto|].
  apply Forall_cons in Hjs as [Hj Hjs].
  destruct (decide (j ∈ used)); [by apply IH|].
  destruct (getitem2_square _ _ Hsq i j Hi Hj) as [s ->].
  cbn [mbind result_bind]. destruct (gtb s threshold); by apply IH.
Qed.

Lemma legal_merge_similar_ok chunk J :
  J <> [] -> Forall (fun j => j < length chunks) J ->
  exists merged, Legal.merge_similar list_set chunks chunk J = Ok merged.
Proof.
  intros HJ Hb. unfold Legal.merge_similar.
  destruct (mapM_getitem chunks J Hb) as (ms & -> & _).
  cbn [mbind result_bind].
  assert (length J - 1 < length J) as Hlt.
  { destruct J; [done|]. simpl. lia. }
  destruct (lookup_lt_is_Some_2 J _ Hlt) as [li Hli].
  assert (getitem J (length J - 1) = Ok li) as ->
    by (unfold getitem; by rewrite Hli).
  cbn [mbind result_bind].
  assert (li < length chunks) as Hlc.
  { rewrite Forall_forall in Hb. apply Hb. by eapply list_elem_of_lookup_2. }
  destruct (lookup_lt_is_Some_2 chunks _ Hlc) as [l Hl].
  assert (getitem chunks li = Ok l) as -> by (unfold getitem; by rewrite Hl).
  cbn [mbind result_bind]. eauto.
Qed.

Lemma legal_merge_loop_ok todo :
  Forall (fun ic => fst ic < length chunks) todo ->
  forall acc used,
    exists out, Legal.merge_loop list_set chunks m todo acc used = Ok out.
Proof.
  induction todo as [|[i chunk] todo IH]; intros Htodo acc used; simpl; [eauto|].
  apply Forall_cons in Htodo as [Hi Htodo]. simpl in Hi.
  destruct (decide (i ∈ used)); [by apply IH|].
  destruct (Legal.scan_similar m i (range (i + 1) (length chunks)) [] used)
    as [J|] eqn:Hscan.
  - cbn [mbind result_bind]. pose proof Hscan as HJ.
    apply legal_scan_spec in HJ. simpl in HJ.
    destruct J as [|j J]; [by apply IH|].
    destruct (legal_merge_similar_ok chunk (j :: J)) as [merged ->]; [done| |].
    + rewrite HJ. apply Forall_forall.
      intros x [_ Hx]%list_elem_of_filter. apply range_lt in Hx. lia.
    + cbn [mbind result_bind]. by apply IH.
  - destruct (legal_scan_ok i (range (i + 1) (length chunks)) Hi) with
      (similar_indices := @nil nat) (used := used) as [r Hr].
    + apply Forall_forall. intros x Hx%range_lt. lia.
    + congruence.
Qed.

End MergeLoop.

(** ** The merge-groups partition the input *)

Lemma sublist_StronglySorted {A} (R : relation A) (l1 l2 : list A) :
  sublist l1 l2 -> StronglySorted R l2 -> StronglySorted R l1.
Proof.
  induction 1 as [|x l1 l2 Hsub IH|x l1 l2 Hsub IH]; intros Hs; [done| |].
  - apply StronglySorted_cons in Hs as [Hall Hs].
    apply StronglySorted_cons. split; [|by apply IH].
    apply Forall_forall. intros y Hy.
    rewrite Forall_forall in Hall. apply Hall.
    by eapply sublist_subseteq.
  - apply StronglySorted_cons in Hs as [_ Hs]. by apply IH.
Qed.

Lemma seq_StronglySorted k d : StronglySorted lt (seq k d).
Proof.
  revert k. induction d as [|d IH]; intros k; simpl; [constructor|].
  constructor; [apply IH|].
  apply Forall_forall. intros x Hx%elem_of_seq. lia.
Qed.

Lemma groups_from_partition_of n m :
  partition_of n (groups_from n m (seq 0 n) ∅).
Proof.
  split_and!.
  - rewrite groups_from_partition by done.
    rewrite (filter_ext_elem (fun x : nat => x ∉ (∅ : gset nat)) (fun _ => True)).
    + induction (seq 0 n) as [|x l IH]; [done|].
      rewrite filter_cons_True by done. by f_equiv.
    + intros x _. set_solver.
  - eapply sublist_StronglySorted; [|apply seq_StronglySorted].
    apply groups_from_anchors.
  - pose proof (groups_from_anchors n m (seq 0 n) ∅) as [Hne _].
    pose proof (groups_from_sorted n m (seq 0 n) ∅) as Hs.
    revert Hne Hs. generalize (groups_from n m (seq 0 n) ∅).
    induction l as [|g l IH]; intros Hne Hs; [constructor|].
    apply Forall_cons in Hne as [? ?]. apply Forall_cons in Hs as [? ?].
    constructor; [done|by apply IH].
Qed.

Lemma singletons_partition_of n :
  partition_of n (map (fun i => [i]) (seq 0 n)).
Proof.
  assert (forall l : list nat, List.concat (map (fun i => [i]) l) = l) as Hc.
  { induction l as [|x l IH]; [done|]. simpl. by rewrite IH. }
  assert (forall l : list nat, map anchor (map (fun i => [i]) l) = l) as Ha.
  { induction l as [|x l IH]; [done|]. simpl. by rewrite IH. }
  split_and!.
  - by rewrite Hc.
  - rewrite Ha. apply seq_StronglySorted.
  - apply Forall_forall. intros g Hg.
    apply list_elem_of_fmap in Hg as (i & -> & _).
    split; [done|]. repeat constructor.
Qed.

Lemma omap_lookup_seq {A B} (f : A -> B) (l : list A) k :
  omap (fun i => f <$> l !! i) (seq k (length (drop k l))) = map f (drop k l).
Proof.
  remember (length (drop k l)) as d eqn:Hd. revert k Hd.
  induction d as [|d IH]; intros k Hd.
  - symmetry in Hd. apply length_zero_iff_nil in Hd. by rewrite Hd.
  - destruct (drop k l) as [|x r] eqn:Hdrop; [done|].
    assert (l !! k = Some x) as Hk.
    { pose proof (lookup_drop l k 0) as H. rewrite Nat.add_0_r in H.
      by rewrite <- H, Hdrop. }
    assert (drop (S k) l = r) as Hr.
    { replace (S k) with (k + 1) by lia. rewrite <- drop_drop, Hdrop. done. }
    simpl. rewrite Hk. simpl. f_equal.
    rewrite <- Hr. apply IH. rewrite Hr. simpl in Hd. lia.
Qed.

Lemma sources_group_chunk (chunks : list Generic.Chunk) g c :
  Forall (fun c => Generic.merged_from (Generic.metadata c) = None) chunks ->
  g <> [] ->
  group_chunk chunks g = Some c ->
  sources c = omap (fun i => Generic.chunk_id <$> chunks !! i) g.
Proof.
  intros Hnone Hg Hc. unfold group_chunk in Hc.
  destruct (chunks !! anchor g) as [a|] eqn:Ha; [|done]. cbn in Hc.
  destruct (mapM (fun idx => chunks !! idx) g) as [members|] eqn:Hm; [|done].
  cbn in Hc. injection Hc as <-.
  assert (omap (fun i => Generic.chunk_id <$> chunks !! i) g
          = map Generic.chunk_id members) as ->.
  { apply mapM_Some in Hm. clear -Hm.
    induction Hm as [|i x g members Hi _ IH]; [done|].
    change (omap (fun i => Generic.chunk_id <$> chunks !! i) (i :: g))
      with (match Generic.chunk_id <$> chunks !! i with
            | Some y => y :: omap (fun i => Generic.chunk_id <$> chunks !! i) g
            | None => omap (fun i => Generic.chunk_id <$> chunks !! i) g
            end).
    rewrite Hi, IH. done. }
  destruct g as [|i [|j g]]; [done| |].
  - (* a singleton is passed through *)
    simpl. apply mapM_Some in Hm.
    apply Forall2_cons_inv_l in Hm as (x & ms & Hx & Hms & ->).
    apply Forall2_nil_inv_l in Hms as ->.
    simpl in Ha. assert (x = a) as -> by congruence.
    unfold sources. rewrite Forall_forall in Hnone.
    rewrite Hnone; [done|]. by eapply list_elem_of_lookup_2.
  - done.
Qed.

Lemma optimize_groups
    (cosine_similarity : list Embedding -> list Embedding -> result Matrix)
    (chunks : list Generic.Chunk) (m : Matrix) :
  similarity_of cosine_similarity chunks m ->
  exists out,
    Generic._optimize_chunks_semantically cosine_similarity chunks = Ok out /\
    Generic.merge_groups (length chunks) m
    = Ok (groups_from (length chunks) m (seq 0 (length chunks)) ∅) /\
    Forall2 (fun g c => group_chunk chunks g = Some c)
      (groups_from (length chunks) m (seq 0 (length chunks)) ∅) out.
Proof.
  intros Hready. unfold Generic._optimize_chunks_semantically.
  destruct (length chunks <=? 1) eqn:Hlen.
  - apply Nat.leb_le in Hlen. exists chunks. split; [done|].
    destruct chunks as [|c [|c' chunks']]; [| |simpl in Hlen; lia].
    + split; [reflexivity|constructor].
    + split; [reflexivity|].
      assert (groups_from (length [c]) m (seq 0 (length [c])) ∅ = [[0]]) as ->
        by reflexivity.
      repeat constructor.
  - apply Nat.leb_gt in Hlen.
    destruct (Hready Hlen) as (embeddings & Hnp & Hcos & Hsq).
    rewrite Hnp. cbn [mbind result_bind]. rewrite Hcos. cbn [mbind result_bind].
    destruct (optimize_loop_spec chunks m Hsq (enumerate chunks)
                (fun i c => enumerate_lookup chunks i c) [] ∅)
      as (out & Hout & Hall).
    rewrite enumerate_fst in Hall.
    exists out. split; [done|]. split; [|done].
    unfold Generic.merge_groups. apply group_loop_spec; [done|].
    apply Forall_forall. intros i Hi%elem_of_seq. lia.
Qed.

Lemma sum_sources (chunks : list Generic.Chunk) gs out :
  List.concat gs ≡ₚ seq 0 (length chunks) ->
  Forall2 (fun g c =>
             sources c = omap (fun i => Generic.chunk_id <$> chunks !! i) g) gs out ->
  List.concat (map sources out) ≡ₚ map Generic.chunk_id chunks.
Proof.
  intros Hperm Hall.
  assert (List.concat (map sources out)
          = omap (fun i => Generic.chunk_id <$> chunks !! i) (List.concat gs)) as ->.
  { clear Hperm. induction Hall as [|g c gs out Hc _ IH]; [done|].
    simpl. rewrite omap_app, Hc, IH. done. }
  rewrite Hperm.
  pose proof (omap_lookup_seq Generic.chunk_id chunks 0) as H.
  rewrite drop_0 in H. by rewrite H.
Qed.

(** C1.  Consolidation partitions its input.  For
    [_optimize_chunks_semantically], whenever the pairwise similarity matrix
    is available, the call returns; its merge-groups are a partition of the
    input indices, listed by increasing anchor; the k-th output chunk stands
    for exactly the chunks of the k-th group (its [merged_from] list, or
    itself when passed through), and the number of source chunks referenced
    over the whole output is the number of input chunks.  [_merge_chunks]
    returns one chunk per group of such a partition on every input. *)
Theorem C1_consolidation_partitions
    (cosine2 : list Embedding -> list Embedding -> result Matrix)
    (chunks : list Generic.Chunk) (m : Matrix)
    (cosine1 : list Embedding -> result Matrix)
    (list_set : list pystr -> list pystr)
    (lchunks : list Legal.ChunkMetadata) (embeddings : list Embedding) :
  similarity_of cosine2 chunks m ->
  Forall (fun c => Generic.merged_from (Generic.metadata c) = None) chunks ->
  (exists out gs,
     Generic._optimize_chunks_semantically cosine2 chunks = Ok out /\
     Generic.merge_groups (length chunks) m = Ok gs /\
     partition_of (length chunks) gs /\
     Forall2 (fun g c =>
                sources c = omap (fun i => Generic.chunk_id <$> chunks !! i) g)
       gs out /\
     List.concat (map sources out) ≡ₚ map Generic.chunk_id chunks /\
     sum_list_with (fun c => length (sources c)) out = length chunks) /\
  (exists gs,
     partition_of (length lchunks) gs /\
     Forall2 (fun g c => legal_group_chunk list_set lchunks g = Some c) gs
       (Legal._merge_chunks cosine1 list_set lchunks embeddings)).
Proof.
  intros Hready Hnone. split.
  - destruct (optimize_groups cosine2 chunks m Hready) as (out & Hout & Hgs & Hall).
    pose proof (groups_from_partition_of (length chunks) m) as Hpart.
    set (gs := groups_from (length chunks) m (seq 0 (length chunks)) ∅) in *.
    assert (Forall2 (fun g c =>
              sources c = omap (fun i => Generic.chunk_id <$> chunks !! i) g)
              gs out) as Hsrc.
    { destruct Hpart as (_ & _ & Hne). clear -Hall Hne Hnone.
      induction Hall as [|g c gs out Hc _ IH]; [constructor|].
      apply Forall_cons in Hne as [[Hg _] Hne].
      constructor; [by apply sources_group_chunk|by apply IH]. }
    pose proof (sum_sources chunks gs out (proj1 Hpart) Hsrc) as Hperm.
    exists out, gs. split_and!; try done.
    transitivity (length (List.concat (map sources out))).
    + clear. induction out as [|c out IH]; [done|].
      simpl. rewrite length_app. by rewrite IH.
    + rewrite Hperm. by rewrite length_map.
  - unfold Legal._merge_chunks.
    assert (exists gs, partition_of (length lchunks) gs /\
              Forall2 (fun g c => legal_group_chunk list_set lchunks g = Some c)
                gs lchunks) as Hsingle.
    { exists (map (fun i => [i]) (seq 0 (length lchunks))).
      split; [apply singletons_partition_of|].
      apply Forall2_fmap_l. apply Forall2_same_length_lookup.
      split; [by rewrite length_seq|].
      intros i j c Hj Hc. apply lookup_seq in Hj as [-> _].
      unfold legal_group_chunk. simpl. by rewrite Hc. }
    destruct (Legal.merge_body cosine1 list_set lchunks embeddings)
      as [out|e] eqn:Hbody; [|done].
    unfold Legal.merge_body in Hbody.
    destruct (length lchunks <=? 1); [by injection Hbody as <-|].
    destruct (cosine1 embeddings) as [m'|] eqn:Hcos; [|done].
    cbn [mbind result_bind] in Hbody.
    apply legal_merge_loop_spec in Hbody as (out' & -> & Hall).
    + rewrite enumerate_fst in Hall. simpl.
      eexists. split; [apply groups_from_partition_of|exact Hall].
    + apply enumerate_lookup.
    + rewrite enumerate_fst. apply seq_StronglySorted.
Qed.

(** ** Membership in a merge-group *)

Lemma similar_gt m i j :
  similar m i j = true <->
  exists s, getitem2 m i j = Ok s /\ (threshold < s)%Q.
Proof.
  unfold similar. destruct (getitem2 m i j) as [s|e].
  - unfold gtb. rewrite negb_true_iff. split.
    + intros Hle. exists s. split; [done|].
      apply Qnot_le_lt. intros Hq. apply Qle_bool_iff in Hq. congruence.
    + intros (s' & [= <-] & Hlt). apply not_true_is_false.
      intros Hq%Qle_bool_iff. by apply Qlt_not_le in Hlt.
  - split; [done|]. by intros (s & ? & _).
Qed.

Lemma earlier_anchor gs1 i g gs2 g' :
  StronglySorted lt (map anchor (gs1 ++ (i :: g) :: gs2)) ->
  g' ∈ gs1 -> anchor g' < i.
Proof.
  intros Hs Hg'. rewrite map_app in Hs.
  eapply (StronglySorted_app_1_elem_of _ _ _ (anchor g') i) in Hs; [done| |].
  - apply list_elem_of_fmap. eauto.
  - simpl. by left.
Qed.

(** C4.  Membership on the output of consolidation.
    [_optimize_chunks_semantically] returns one chunk for each of its
    merge-groups, in order: a chunk with [merged_from], the ids of the chunks
    of the group, for a group of more than one, and the input chunk itself
    for a group of one; [_merge_chunks] returns the chunks of the same
    groups.  In these groups chunk [j] is a member of the group anchored at
    [i] exactly when [j > i], [j] is in no earlier group, and
    [similarity_matrix[i][j]] is strictly above 0.8.  Only the anchor is
    compared: for the three unit vectors of [Example.star_embeddings] both
    functions return a single chunk made of all three inputs, although the
    cosine of the second and the third is 0.62. *)
Theorem C4_anchor_membership
    (cosine2 : list Embedding -> list Embedding -> result Matrix)
    (chunks : list Generic.Chunk) (m : Matrix)
    (cosine1 : list Embedding -> result Matrix)
    (list_set : list pystr -> list pystr)
    (lchunks : list Legal.ChunkMetadata) (embeddings : list Embedding) :
  similarity_of cosine2 chunks m ->
  1 < length chunks ->
  length lchunks = length chunks ->
  cosine1 embeddings = Ok m ->
  (exists out gs,
     Generic._optimize_chunks_semantically cosine2 chunks = Ok out /\
     Forall2 (fun g c => group_chunk chunks g = Some c) gs out /\
     Forall2 (fun g c => legal_group_chunk list_set lchunks g = Some c) gs
       (Legal._merge_chunks cosine1 list_set lchunks embeddings) /\
     Forall (fun g => g <> []) gs /\
     (forall p g c,
        gs !! p = Some g -> out !! p = Some c ->
        if 1 <? length g
        then Generic.merged_from (Generic.metadata c)
             = Some (omap (fun k => Generic.chunk_id <$> chunks !! k) g)
        else chunks !! anchor g = Some c) /\
     (forall gs1 i g gs2 j,
        gs = gs1 ++ (i :: g) :: gs2 ->
        (j ∈ g <->
           i < j < length chunks /\ (forall g', g' ∈ gs1 -> j ∉ g') /\
           exists s, getitem2 m i j = Ok s /\ (threshold < s)%Q))) /\
  (exists c lc,
     Generic._optimize_chunks_semantically Stub.cosine2 Example.star_gchunks
     = Ok [c] /\
     Generic.merged_from (Generic.metadata c)
     = Some (map Generic.chunk_id Example.star_gchunks) /\
     Legal._merge_chunks Stub.cosine1 Stub.first_seen Example.lchunks
       Example.star_embeddings = [lc] /\
     Legal.content lc = py "alpha beta gamma" /\
     Stub.cosine1 Example.star_embeddings = Ok star_matrix /\
     getitem2 star_matrix 1 2 = Ok (31 # 50)%Q).
Proof.
  intros Hready Hn Hlen Hcos.
  destruct (optimize_groups cosine2 chunks m Hready) as (out & Hout & _ & Hall).
  destruct (Hready Hn) as (_ & _ & _ & Hsq).
  pose proof (groups_from_partition_of (length chunks) m) as (_ & Hanchors & Hne).
  remember (groups_from (length chunks) m (seq 0 (length chunks)) ∅) as gs eqn:Hgs.
  split.
  - exists out, gs. split_and!.
    + done.
    + done.
    + unfold Legal._merge_chunks, Legal.merge_body.
      replace (length lchunks <=? 1) with false
        by (symmetry; apply Nat.leb_gt; lia).
      rewrite Hcos. cbn [mbind result_bind].
      assert (exists r, Legal.merge_loop list_set lchunks m (enumerate lchunks) [] ∅
                        = Ok r) as [r Hr].
      { apply legal_merge_loop_ok; [by rewrite Hlen|].
        apply Forall_forall.
        intros [x c] Hx%enumerate_lookup%lookup_lt_Some. done. }
      rewrite Hr. apply legal_merge_loop_spec in Hr as (out' & -> & Hl).
      * rewrite enumerate_fst, Hlen, <- Hgs in Hl. exact Hl.
      * apply enumerate_lookup.
      * rewrite enumerate_fst. apply seq_StronglySorted.
    + eapply Forall_impl; [exact Hne|]. by intros g [Hg _].
    + intros p g c Hg Hc.
      destruct (Forall2_lookup_l _ _ _ _ _ Hall Hg) as (c' & Hc' & Hgc).
      assert (c' = c) as -> by congruence.
      unfold group_chunk in Hgc.
      destruct (chunks !! anchor g) as [a|] eqn:Ha; [|done].
      cbn [mbind option_bind] in Hgc.
      destruct (mapM (fun idx => chunks !! idx) g) as [members|] eqn:Hm; [|done].
      cbn [mbind option_bind] in Hgc. injection Hgc as <-.
      destruct (1 <? length g); [|done].
      simpl. f_equal. symmetry. apply mapM_Some in Hm. clear -Hm.
      induction Hm as [|k x g members Hk _ IH]; [done|].
      change (omap (fun k => Generic.chunk_id <$> chunks !! k) (k :: g))
        with (match Generic.chunk_id <$> chunks !! k with
              | Some y => y :: omap (fun k => Generic.chunk_id <$> chunks !! k) g
              | None => omap (fun k => Generic.chunk_id <$> chunks !! k) g
              end).
      rewrite Hk, IH. done.
    + intros gs1 i g gs2 j Heq. rewrite Heq in Hanchors, Hne.
      assert (groups_from (length chunks) m (seq 0 (length chunks)) ∅
              = gs1 ++ (i :: g) :: gs2) as Heq' by congruence.
      rewrite (groups_from_member (length chunks) m _ _ _ _ _ _ Heq' j), similar_gt.
      split.
      * intros (Hij & _ & Hgs' & Hs). split; [done|]. split; [|done].
        intros g' Hg' Hj.
        pose proof (earlier_anchor _ _ _ _ _ Hanchors Hg') as Hlt.
        assert (g' <> []) as Hg'ne.
        { rewrite Forall_forall in Hne. apply (Hne g'). set_solver. }
        destruct g' as [|a t]; [done|]. simpl in Hlt.
        apply elem_of_cons in Hj as [->|Hj]; [lia|].
        by apply (Hgs' _ Hg').
      * intros (Hij & Hgs' & Hs). split; [done|]. split; [set_solver|].
        split; [|done].
        intros g' Hg' Hj. apply (Hgs' _ Hg').
        destruct g'; [done|]. by right.
  - eexists _, _. split_and!; by vm_compute.
Qed.

Lemma example_similarity :
  similarity_of Stub.cosine2 Example.gchunks Example.gmatrix.
Proof.
  intros _. exists Example.lembeddings.
  split; [reflexivity|]. split; [reflexivity|].
  split; [reflexivity|]. by repeat constructor.
Defined.

Lemma example_square : square 3 Example.gmatrix.
Proof. split; [reflexivity|]. by repeat constructor. Defined.

Lemma first_seen_set_order : set_order Stub.first_seen.
Proof.
  intros xs. split; [apply NoDup_remove_dups|].
  intros x. apply elem_of_remove_dups.
Qed.

(** The sample chunks of [Example] meet the hypotheses of C1: the three
    inputs are accounted for by the two outputs. *)
Lemma C1_witness :
  similarity_of Stub.cosine2 Example.gchunks Example.gmatrix /\
  Forall (fun c => Generic.merged_from (Generic.metadata c) = None) Example.gchunks /\
  exists out,
    Generic._optimize_chunks_semantically Stub.cosine2 Example.gchunks = Ok out /\
    sum_list_with (fun c => length (sources c)) out = 3.
Proof.
  assert (Forall (fun c => Generic.merged_from (Generic.metadata c) = None)
            Example.gchunks) as Hnone by (by repeat constructor).
  split; [exact example_similarity|]. split; [exact Hnone|].
  destruct (C1_consolidation_partitions Stub.cosine2 Example.gchunks
              Example.gmatrix Stub.cosine1 Stub.first_seen Example.lchunks
              Example.lembeddings example_similarity Hnone)
    as [(out & gs & Hout & _ & _ & _ & _ & Hsum) _].
  exists out. split; [exact Hout|exact Hsum].
Defined.

(** The sample chunks meet the hypotheses of C4: chunks 0 and 1 are one
    group, so two chunks are returned for three. *)
Lemma C4_witness :
  similarity_of Stub.cosine2 Example.gchunks Example.gmatrix /\
  exists out gs,
    Generic._optimize_chunks_semantically Stub.cosine2 Example.gchunks = Ok out /\
    Forall2 (fun g c => group_chunk Example.gchunks g = Some c) gs out /\
    Forall2 (fun g c => legal_group_chunk Stub.first_seen Example.lchunks g = Some c)
      gs (Legal._merge_chunks Stub.cosine1 Stub.first_seen Example.lchunks
            Example.lembeddings).
Proof.
  split; [exact example_similarity|].
  destruct (C4_anchor_membership Stub.cosine2 Example.gchunks Example.gmatrix
              Stub.cosine1 Stub.first_seen Example.lchunks Example.lembeddings)
    as [(out & gs & Hout & Hg & Hl & _) _].
  - exact example_similarity.
  - simpl. lia.
  - reflexivity.
  - reflexivity.
  - exists out, gs. split; [exact Hout|]. split; [exact Hg|exact Hl].
Defined.

(** ** What a consolidated chunk is made of *)

Lemma merge_chunks_groups
    (cosine1 : list Embedding -> result Matrix)
    (list_set : list pystr -> list pystr)
    (lchunks : list Legal.ChunkMetadata) (embeddings : list Embedding)
    (m : Matrix) :
  square (length lchunks) m -> 1 < length lchunks ->
  cosine1 embeddings = Ok m ->
  Forall2 (fun g c => legal_group_chunk list_set lchunks g = Some c)
    (groups_from (length lchunks) m (seq 0 (length lchunks)) ∅)
    (Legal._merge_chunks cosine1 list_set lchunks embeddings).
Proof.
  intros Hsq Hn Hcos.
  unfold Legal._merge_chunks, Legal.merge_body.
  replace (length lchunks <=? 1) with false
    by (symmetry; apply Nat.leb_gt; lia).
  rewrite Hcos. cbn [mbind result_bind].
  destruct (legal_merge_loop_ok list_set lchunks m Hsq (enumerate lchunks))
    with (acc := @nil Legal.ChunkMetadata) (used := (∅ : gset nat)) as [r Hr].
  { apply Forall_forall. intros [x c] Hx%enumerate_lookup%lookup_lt_Some. done. }
  rewrite Hr. apply legal_merge_loop_spec in Hr as (out' & -> & Hall).
  - by rewrite enumerate_fst in Hall.
  - apply enumerate_lookup.
  - rewrite enumerate_fst. apply seq_StronglySorted.
Qed.

Lemma join_cons (sep x : pystr) (l : list pystr) :
  join sep (x :: l) = x ++ List.concat (map (fun y => sep ++ y) l).
Proof.
  revert x. induction l as [|y l IH]; intros x.
  - simpl. by rewrite app_nil_r.
  - change (join sep (x :: y :: l)) with (x ++ sep ++ join sep (y :: l)).
    rewrite IH. simpl. by rewrite <- app_assoc.
Qed.

Lemma fold_extend (members : list Legal.ChunkMetadata) (acc : Legal.Merged) :
  let r := fold_left Legal.extend members acc in
  Legal.merged_content r
  = Legal.merged_content acc
      ++ List.concat (map (fun c => py " " ++ Legal.content c) members) /\
  Legal.merged_entities r
  = Legal.merged_entities acc ++ List.concat (map Legal.entities members) /\
  Legal.merged_keywords r
  = Legal.merged_keywords acc ++ List.concat (map Legal.keywords members) /\
  Legal.merged_legal_terms r
  = Legal.merged_legal_terms acc ++ List.concat (map Legal.legal_terms members) /\
  Legal.merged_case_refs r
  = Legal.merged_case_refs acc ++ List.concat (map Legal.case_references members) /\
  Legal.merged_statute_refs r
  = Legal.merged_statute_refs acc
      ++ List.concat (map Legal.statute_references members).
Proof.
  revert acc. induction members as [|c members IH]; intros acc; simpl.
  - by rewrite !app_nil_r.
  - destruct (IH (Legal.extend acc c)) as (H1 & H2 & H3 & H4 & H5 & H6).
    rewrite H1, H2, H3, H4, H5, H6. simpl.
    by rewrite <- !app_assoc.
Qed.

Lemma gtb_true (a b : Q) : gtb a b = true <-> (b < a)%Q.
Proof.
  unfold gtb. rewrite negb_true_iff. split.
  - intros H. apply Qnot_le_lt. intros Hq%Qle_bool_iff. congruence.
  - intros Hlt. apply not_true_is_false. intros Hq%Qle_bool_iff.
    by apply Qlt_not_le in Hlt.
Qed.

Lemma gtb_false (a b : Q) : gtb a b = false <-> (a <= b)%Q.
Proof.
  unfold gtb. rewrite negb_false_iff. apply Qle_bool_iff.
Qed.

Lemma max_list_spec (x : Q) (xs : list Q) : max_of (Legal.max_list x xs) (x :: xs).
Proof.
  unfold Legal.max_list. revert x.
  induction xs as [|y xs IH]; intros x; simpl.
  - split; [by left|]. constructor; [apply Qle_refl|constructor].
  - destruct (gtb y x) eqn:Hgt.
    + destruct (IH y) as [Hin Hall]. split.
      * apply elem_of_cons in Hin as [->|Hin]; [right; by left|by do 2 right].
      * apply Forall_cons in Hall as [Hy Hall].
        constructor; [|by constructor].
        apply gtb_true in Hgt. eapply Qle_trans; [|exact Hy].
        by apply Qlt_le_weak.
    + destruct (IH x) as [Hin Hall]. split.
      * apply elem_of_cons in Hin as [->|Hin]; [by left|by do 2 right].
      * apply Forall_cons in Hall as [Hx Hall].
        constructor; [done|]. constructor; [|done].
        apply gtb_false in Hgt. by apply (Qle_trans _ x).
Qed.

Lemma max2_of_max (a : Q) (qs : list Q) (q : Q) :
  max_of q qs -> max_of (Legal.max2 a q) (a :: qs).
Proof.
  intros [Hin Hall]. unfold Legal.max2. destruct (gtb q a) eqn:Hgt.
  - split; [by right|]. constructor; [|done].
    apply gtb_true in Hgt. by apply Qlt_le_weak.
  - split; [by left|]. constructor; [apply Qle_refl|].
    apply gtb_false in Hgt. eapply Forall_impl; [exact Hall|].
    intros y Hy. simpl in Hy. by apply (Qle_trans _ q).
Qed.

Lemma list_set_union (list_set : list pystr -> list pystr)
    (ls : list (list pystr)) :
  set_order list_set -> union_of (list_set (List.concat ls)) ls.
Proof.
  intros Hset. destruct (Hset (List.concat ls)) as [Hnd Hin].
  split; [done|]. intros x. rewrite Hin. rewrite list_elem_of_In, in_concat.
  split; intros (l' & H1 & H2); exists l'; by rewrite ?list_elem_of_In in *.
Qed.

(** The merged record of [_merge_chunks], field by field. *)
Lemma legal_merged_chunk_spec (list_set : list pystr -> list pystr)
    (a : Legal.ChunkMetadata) (members : list Legal.ChunkMetadata)
    (last : Legal.ChunkMetadata) :
  set_order list_set -> members <> [] ->
  let c := Legal.merged_chunk list_set a members last in
  Legal.content c = join (py " ") (map Legal.content (a :: members)) /\
  Legal.entities c = List.concat (map Legal.entities (a :: members)) /\
  union_of (Legal.keywords c) (map Legal.keywords (a :: members)) /\
  union_of (Legal.legal_terms c) (map Legal.legal_terms (a :: members)) /\
  union_of (Legal.case_references c) (map Legal.case_references (a :: members)) /\
  union_of (Legal.statute_references c)
    (map Legal.statute_references (a :: members)) /\
  max_of (Legal.importance_score c) (map Legal.importance_score (a :: members)).
Proof.
  intros Hset Hne c. unfold c, Legal.merged_chunk.
  match goal with |- context [fold_left Legal.extend members ?acc] =>
    destruct (fold_extend members acc) as (H1 & H2 & H3 & H4 & H5 & H6) end.
  cbn [Legal.content Legal.entities Legal.keywords Legal.legal_terms
       Legal.case_references Legal.statute_references Legal.importance_score].
  rewrite H1, H2, H3, H4, H5, H6.
  cbn [Legal.merged_content Legal.merged_entities Legal.merged_keywords
       Legal.merged_legal_terms Legal.merged_case_refs Legal.merged_statute_refs].
  split_and!.
  - rewrite map_cons, join_cons. f_equal. by rewrite map_map.
  - done.
  - by apply (list_set_union list_set (map Legal.keywords (a :: members))).
  - by apply (list_set_union list_set (map Legal.legal_terms (a :: members))).
  - by apply (list_set_union list_set (map Legal.case_references (a :: members))).
  - by apply (list_set_union list_set (map Legal.statute_references (a :: members))).
  - rewrite map_cons. apply max2_of_max.
    destruct members as [|x xs]; [done|]. simpl. apply max_list_spec.
Qed.

(** C3, as the code has it.  For a merge-group [g] with more than one member,
    at position [k] of the output:
    - [_optimize_chunks_semantically] gives the space-joined contents of the
      members in source order and [merged_from], the member ids in order; the
      rest of its metadata is a copy of the anchor's, field by field: index,
      offsets, counts, keywords, entities, embedding, type and confidence are
      those of the anchor alone; its id is [<document_id>_merged_<anchor>]
      with the document id of the anchor;
    - [_merge_chunks] gives the same space-joined contents, the concatenated
      entities, keywords, legal terms, case and statute references that are
      the duplicate-free unions of the members', and the largest of the
      members' importance scores.
    In both, the chunk of a group of one is the input chunk, unchanged. *)
Theorem C3_consolidated_chunk
    (cosine2 : list Embedding -> list Embedding -> result Matrix)
    (chunks : list Generic.Chunk) (m : Matrix)
    (cosine1 : list Embedding -> result Matrix)
    (list_set : list pystr -> list pystr)
    (lchunks : list Legal.ChunkMetadata) (embeddings : list Embedding)
    (gs : list (list nat)) (k : nat) (g : list nat) :
  similarity_of cosine2 chunks m ->
  1 < length chunks ->
  length lchunks = length chunks ->
  cosine1 embeddings = Ok m ->
  set_order list_set ->
  Generic.merge_groups (length chunks) m = Ok gs ->
  gs !! k = Some g ->
  1 < length g ->
  (exists out c a members,
     Generic._optimize_chunks_semantically cosine2 chunks = Ok out /\
     out !! k = Some c /\
     chunks !! anchor g = Some a /\
     mapM (fun i => chunks !! i) g = Some members /\
     Generic.content c = join (py " ") (map Generic.content members) /\
     Generic.merged_from (Generic.metadata c)
     = Some (map Generic.chunk_id members) /\
     Generic.keywords (Generic.metadata c) = Generic.keywords (Generic.metadata a) /\
     Generic.entities (Generic.metadata c) = Generic.entities (Generic.metadata a) /\
     Generic.chunk_index (Generic.metadata c)
     = Generic.chunk_index (Generic.metadata a) /\
     Generic.start_char (Generic.metadata c) = Generic.start_char (Generic.metadata a) /\
     Generic.end_char (Generic.metadata c) = Generic.end_char (Generic.metadata a) /\
     Generic.word_count (Generic.metadata c) = Generic.word_count (Generic.metadata a) /\
     Generic.sentence_count (Generic.metadata c)
     = Generic.sentence_count (Generic.metadata a) /\
     Generic.paragraph_count (Generic.metadata c)
     = Generic.paragraph_count (Generic.metadata a) /\
     Generic.semantic_embedding (Generic.metadata c)
     = Generic.semantic_embedding (Generic.metadata a) /\
     Generic.chunk_type (Generic.metadata c) = Generic.chunk_type (Generic.metadata a) /\
     Generic.confidence_score (Generic.metadata c)
     = Generic.confidence_score (Generic.metadata a) /\
     Generic.chunk_id c
     = Generic.document_id a ++ py "_merged_" ++ str_of_nat (anchor g) /\
     Generic.document_id c = Generic.document_id a /\
     forall k1 i1, gs !! k1 = Some [i1] -> out !! k1 = chunks !! i1) /\
  (exists c members,
     (forall k1 i1,
        gs !! k1 = Some [i1] ->
        Legal._merge_chunks cosine1 list_set lchunks embeddings !! k1
        = lchunks !! i1) /\
     Legal._merge_chunks cosine1 list_set lchunks embeddings !! k = Some c /\
     mapM (fun i => lchunks !! i) g = Some members /\
     Legal.content c = join (py " ") (map Legal.content members) /\
     Legal.entities c = List.concat (map Legal.entities members) /\
     union_of (Legal.keywords c) (map Legal.keywords members) /\
     union_of (Legal.legal_terms c) (map Legal.legal_terms members) /\
     union_of (Legal.case_references c) (map Legal.case_references members) /\
     union_of (Legal.statute_references c)
       (map Legal.statute_references members) /\
     max_of (Legal.importance_score c) (map Legal.importance_score members)).
Proof.
  intros Hready Hn Hlen Hcos Hset Hgroups Hk Hg.
  destruct (optimize_groups cosine2 chunks m Hready) as (out & Hout & Hgs & Hall).
  assert (gs = groups_from (length chunks) m (seq 0 (length chunks)) ∅) as ->
    by congruence.
  destruct (Hready Hn) as (_ & _ & _ & Hsq).
  split.
  - destruct (Forall2_lookup_l _ _ _ _ _ Hall Hk) as (c & Hc & Hgc).
    unfold group_chunk in Hgc.
    destruct (chunks !! anchor g) as [a|] eqn:Ha; [|done].
    cbn [mbind option_bind] in Hgc.
    destruct (mapM (fun idx => chunks !! idx) g) as [members|] eqn:Hm; [|done].
    cbn [mbind option_bind] in Hgc.
    apply Nat.ltb_lt in Hg. rewrite Hg in Hgc. injection Hgc as <-.
    exists out, (Generic.merged_chunk a members (anchor g)), a, members.
    split_and!; try done.
    intros k1 i1 Hk1.
    destruct (Forall2_lookup_l _ _ _ _ _ Hall Hk1) as (c1 & Hc1 & Hgc1).
    rewrite Hc1. unfold group_chunk in Hgc1. simpl in Hgc1.
    destruct (chunks !! i1) as [a1|]; [|done]. simpl in Hgc1. congruence.
  - pose proof (merge_chunks_groups cosine1 list_set lchunks embeddings m) as Hl.
    rewrite Hlen in Hl. specialize (Hl Hsq Hn Hcos).
    destruct (Forall2_lookup_l _ _ _ _ _ Hl Hk) as (c & Hc & Hgc).
    unfold legal_group_chunk in Hgc.
    destruct (lchunks !! anchor g) as [a|] eqn:Ha; [|done].
    cbn [mbind option_bind] in Hgc.
    destruct (mapM (fun idx => lchunks !! idx) (tail g)) as [members|] eqn:Hm;
      [|done].
    cbn [mbind option_bind] in Hgc.
    destruct g as [|i [|j g]]; [simpl in Hg; lia|simpl in Hg; lia|].
    destruct members as [|x members].
    { apply mapM_Some in Hm. simpl in Hm. by apply Forall2_nil_inv_r in Hm. }
    injection Hgc as <-.
    exists (Legal.merged_chunk list_set a (x :: members)
              (List.last (x :: members) a)), (a :: x :: members).
    split.
    { intros k1 i1 Hk1.
      destruct (Forall2_lookup_l _ _ _ _ _ Hl Hk1) as (c1 & Hc1 & Hgc1).
      rewrite Hc1. unfold legal_group_chunk in Hgc1. simpl in Hgc1.
      destruct (lchunks !! i1) as [a1|]; [|done]. simpl in Hgc1. congruence. }
    split; [done|]. split.
    { change (mapM (fun i0 => lchunks !! i0) (i :: j :: g))
        with (y ← lchunks !! i;
              r ← mapM (fun i0 => lchunks !! i0) (j :: g); mret (y :: r)).
      change (anchor (i :: j :: g)) with i in Ha.
      change (tail (i :: j :: g)) with (j :: g) in Hm.
      by rewrite Ha, Hm. }
    by apply legal_merged_chunk_spec.
Qed.

(** C3 fails as stated on [_optimize_chunks_semantically]: the chunk that
    merges sample chunks 0 and 1 keeps the keywords of chunk 0 only, so the
    keyword "judge" of chunk 1 is not among them. *)
Lemma C3_counterexample :
  exists out c,
    Generic._optimize_chunks_semantically Stub.cosine2 Example.gchunks = Ok out /\
    out !! 0 = Some c /\
    Generic.merged_from (Generic.metadata c)
    = Some (map Generic.chunk_id (take 2 Example.gchunks)) /\
    py "judge" ∈ Generic.keywords (Generic.metadata (Example.gchunk 1 "beta" ["judge"] [1; 0]%Q)) /\
    py "judge" ∉ Generic.keywords (Generic.metadata c).
Proof.
  eexists _, _. split; [vm_compute; reflexivity|].
  split; [reflexivity|]. split; [reflexivity|].
  split; [by left|].
  intros H. apply list_elem_of_singleton in H. discriminate H.
Qed.

(** The sample chunks meet the hypotheses of C3 for the group of chunks 0
    and 1. *)
Lemma C3_witness :
  exists c members,
    Legal._merge_chunks Stub.cosine1 Stub.first_seen Example.lchunks
      Example.lembeddings !! 0 = Some c /\
    mapM (fun i => Example.lchunks !! i) [0; 1] = Some members /\
    union_of (Legal.keywords c) (map Legal.keywords members) /\
    max_of (Legal.importance_score c) (map Legal.importance_score members).
Proof.
  destruct (C3_consolidated_chunk Stub.cosine2 Example.gchunks Example.gmatrix
              Stub.cosine1 Stub.first_seen Example.lchunks Example.lembeddings
              [[0; 1]; [2]] 0 [0; 1])
    as [_ (c & members & _ & H1 & H2 & _ & _ & H3 & _ & _ & _ & H4)].
  - exact example_similarity.
  - simpl. lia.
  - reflexivity.
  - reflexivity.
  - exact first_seen_set_order.
  - reflexivity.
  - reflexivity.
  - simpl. lia.
  - by exists c, members.
Defined.

(** ** Sentiment *)

(** C8, as the code has it.  The two counts are the numbers of lexicon words
    that occur at least once, as substrings, in the lower-cased content;
    the answer is 'positive' exactly when the language pipeline returns and
    the positive count is strictly larger, 'negative' exactly when it returns
    and the negative count is strictly larger, and 'neutral' otherwise. *)
Theorem C8_sentiment_by_words_present
    (nlp : pystr -> result Legal.Doc) (text : pystr) :
  let pos_count := Legal.count_present Legal.positive_words (lower text) in
  let neg_count := Legal.count_present Legal.negative_words (lower text) in
  let returns := exists doc, nlp text = Ok doc in
  (Legal._analyze_sentiment nlp text = py "positive"
   <-> returns /\ neg_count < pos_count) /\
  (Legal._analyze_sentiment nlp text = py "negative"
   <-> returns /\ pos_count < neg_count) /\
  (Legal._analyze_sentiment nlp text = py "neutral"
   <-> ~ returns \/ pos_count = neg_count).
Proof.
  intros pos_count neg_count returns. unfold Legal._analyze_sentiment.
  fold pos_count neg_count. unfold returns.
  destruct (nlp text) as [doc|e].
  - destruct (neg_count <? pos_count) eqn:H1.
    + apply Nat.ltb_lt in H1. split_and!; split; try done; eauto.
      * intros [_ ?]. lia.
      * intros [[] | ?]; [eauto|lia].
    + apply Nat.ltb_ge in H1. destruct (pos_count <? neg_count) eqn:H2.
      * apply Nat.ltb_lt in H2. split_and!; split; try done; eauto.
        -- intros [_ ?]. lia.
        -- intros [[] | ?]; [eauto|lia].
      * apply Nat.ltb_ge in H2. split_and!; split; try done.
        -- intros [_ ?]. lia.
        -- intros [_ ?]. lia.
        -- intros _. right. lia.
  - split_and!; split; try done.
    + by intros [[? ?] _].
    + by intros [[? ?] _].
    + intros _. left. by intros [? ?].
Qed.

(** C8 fails as stated: in "good good bad" the positive lexicon occurs twice
    and the negative lexicon once, yet the answer is 'neutral'; and when the
    language pipeline raises on "good", the answer is 'neutral' although a
    positive word and no negative word occurs. *)
Lemma C8_counterexample :
  let text := py "good good bad" in
  let failing_nlp := fun _ : pystr => @Raise Legal.Doc (ValueError (py "E088")) in
  (lexicon_occurrences Legal.positive_words (lower text) = 2 /\
   lexicon_occurrences Legal.negative_words (lower text) = 1 /\
   Legal._analyze_sentiment Stub.legal_nlp text = py "neutral" /\
   ~ (Legal._analyze_sentiment Stub.legal_nlp text = py "positive"
      <-> lexicon_occurrences Legal.negative_words (lower text)
          < lexicon_occurrences Legal.positive_words (lower text))) /\
  (lexicon_occurrences Legal.positive_words (lower (py "good")) = 1 /\
   lexicon_occurrences Legal.negative_words (lower (py "good")) = 0 /\
   Legal._analyze_sentiment failing_nlp (py "good") = py "neutral").
Proof.
  split.
  - split; [reflexivity|]. split; [reflexivity|]. split; [reflexivity|].
    intros [_ H]. assert (1 < 2) as Hlt by lia.
    specialize (H Hlt). discriminate H.
  - split; [reflexivity|]. split; reflexivity.
Qed.

(** ** Blank documents *)

Lemma lstrip_blank (s : pystr) : blank s -> lstrip s = [].
Proof.
  induction 1 as [|c s Hc _ IH]; [done|]. simpl. by rewrite Hc.
Qed.

Lemma strip_blank (s : pystr) : blank s -> strip s = [].
Proof. intros H. unfold strip. by rewrite lstrip_blank. Qed.

(** C7.  For a document whose text is empty or white space only, both
    [process_document] functions with an explicit check return a failure
    record instead of raising: no chunks, and an error message;
    [advanced-document-processor.py] sets [success] to false,
    [python-document-processor.py] has no such field and reports the failure
    under [error]. *)
Theorem C7_blank_document_fails
    (cosine_similarity : list Embedding -> list Embedding -> result Matrix)
    (encode : pystr -> result Embedding)
    (nlp : pystr -> result Generic.Doc)
    (split_text : pystr -> result (list pystr))
    (list_set : list pystr -> list pystr)
    (_extract_content : pystr -> result (pystr * gmap pystr pyval))
    (t0 t1 : Q) (file_path document_id content : pystr)
    (metadata : gmap pystr pyval)
    (create_word_document : list Basic.Chunk -> pystr -> result pystr)
    (try_advanced : Basic.InputData -> option Basic.Response)
    (input_data : Basic.InputData) :
  _extract_content file_path = Ok (content, metadata) ->
  blank content ->
  blank (default [] (Basic.text input_data)) ->
  (let r := Generic.process_document cosine_similarity encode nlp split_text
              list_set _extract_content t0 t1 file_path document_id in
   Generic.chunks r = [] /\ Generic.success r = false /\
   Generic.error_message r = Some (py "No content extracted from document")) /\
  Basic.process_document create_word_document try_advanced input_data
  = {| Basic.error := Some (py "No text content provided");
       Basic.chunks := [];
       Basic.word_document := [];
       Basic.chunk_count := 0;
       Basic.total_tokens := 0;
       Basic.processing_method := None |}.
Proof.
  intros Hextract Hblank Hblank'. split.
  - unfold Generic.process_document. rewrite Hextract.
    rewrite (strip_blank _ Hblank). done.
  - unfold Basic.process_document, Basic.process_body.
    rewrite (strip_blank _ Hblank'). done.
Qed.

(** A file of spaces and a line break, and an input whose text is two
    spaces. *)
Lemma C7_witness :
  let r := Generic.process_document Stub.cosine2 Stub.encode Stub.generic_nlp
             (fun s => Ok (Stub.paragraphs [] s)) Stub.first_seen
             (fun _ => Ok ([" "; newline; " "]%char, ∅))
             0 1 (py "empty.txt") (py "doc") in
  Generic.chunks r = [] /\ Generic.success r = false /\
  Generic.error_message r = Some (py "No content extracted from document").
Proof.
  apply (C7_blank_document_fails Stub.cosine2 Stub.encode Stub.generic_nlp
           (fun s => Ok (Stub.paragraphs [] s)) Stub.first_seen
           (fun _ => Ok ([" "; newline; " "]%char, ∅))
           0 1 (py "empty.txt") (py "doc") [" "; newline; " "]%char ∅
           (fun _ _ => Ok []) (fun _ => None)
           {| Basic.text := Some (py "  "); Basic.in_title := None;
              Basic.file_path := None; Basic.in_document_id := None;
              Basic.in_max_chunk_size := None; Basic.in_overlap_size := None |}).
  - reflexivity.
  - by repeat constructor.
  - by repeat constructor.
Defined.

(** ** Failure of the merge step *)

(** C10.  [_merge_chunks] returns a list on every input, and when the body of
    its [try] block raises, that list is the input. *)
Theorem C10_merge_failure_returns_input
    (cosine1 : list Embedding -> result Matrix)
    (list_set : list pystr -> list pystr)
    (chunks : list Legal.ChunkMetadata) (embeddings : list Embedding) (e : exn) :
  Legal.merge_body cosine1 list_set chunks embeddings = Raise e ->
  Legal._merge_chunks cosine1 list_set chunks embeddings = chunks.
Proof.
  intros Hraise. unfold Legal._merge_chunks. by rewrite Hraise.
Qed.

(** With the empty array that [_generate_embeddings] returns on failure, the
    similarity matrix has no row, the first lookup raises, and the three sample
    chunks come back as they were. *)
Lemma C10_witness :
  Legal.merge_body Stub.cosine1 Stub.first_seen Example.lchunks [] = Raise IndexError /\
  Legal._merge_chunks Stub.cosine1 Stub.first_seen Example.lchunks [] = Example.lchunks.
Proof.
  assert (Legal.merge_body Stub.cosine1 Stub.first_seen Example.lchunks []
          = Raise IndexError) as H by reflexivity.
  split; [exact H|].
  exact (C10_merge_failure_returns_input Stub.cosine1 Stub.first_seen
           Example.lchunks [] IndexError H).
Defined.

(** ** Query matching *)

Lemma insert_desc_perm {A} (key : A -> Q) (x : A) (l : list A) :
  insert_desc key x l ≡ₚ x :: l.
Proof.
  induction l as [|y l IH]; [done|]. simpl.
  destruct (Qle_bool (key y) (key x)); [done|].
  rewrite IH. apply Permutation_swap.
Qed.

Lemma sort_desc_perm {A} (key : A -> Q) (l : list A) : sort_desc key l ≡ₚ l.
Proof.
  induction l as [|x l IH]; [done|]. simpl.
  rewrite insert_desc_perm. by f_equiv.
Qed.

(** The sort puts larger similarities first. *)
Lemma sort_desc_sorted {A} (key : A -> Q) (l : list A) :
  StronglySorted (fun a b => (key b <= key a)%Q) (sort_desc key l).
Proof.
  induction l as [|x l IH]; simpl; [constructor|].
  revert IH. generalize (sort_desc key l). clear l.
  induction l as [|y l IHl]; intros Hs; simpl.
  - repeat constructor.
  - apply StronglySorted_cons in Hs as [Hall Hs].
    destruct (Qle_bool (key y) (key x)) eqn:Hle.
    + apply Qle_bool_iff in Hle.
      constructor; [by constructor|].
      constructor; [done|].
      eapply Forall_impl; [exact Hall|]. intros z Hz. simpl in Hz.
      by apply (Qle_trans _ (key y)).
    + constructor; [by apply IHl|].
      rewrite (insert_desc_perm key x l).
      constructor; [|done].
      apply Qlt_le_weak, Qnot_le_lt. intros Hq%Qle_bool_iff. congruence.
Qed.

Lemma insert_desc_filter {A} (key : A -> Q) (q : Q) (x : A) (l : list A) :
  List.filter (fun x => Qeq_bool (key x) q) (insert_desc key x l)
  = List.filter (fun x => Qeq_bool (key x) q) (x :: l).
Proof.
  induction l as [|y l IHl]; [done|].
  simpl insert_desc.
  destruct (Qle_bool (key y) (key x)) eqn:Hle; [done|].
  cbn [List.filter] in *. rewrite IHl.
  destruct (Qeq_bool (key x) q) eqn:Hx; [|done].
  destruct (Qeq_bool (key y) q) eqn:Hy; [|done].
  exfalso. apply Qeq_bool_iff in Hx, Hy.
  assert (Qle_bool (key y) (key x) = true) as Habs.
  { apply Qle_bool_iff. rewrite Hx, Hy. apply Qle_refl. }
  congruence.
Qed.

(** Chunks with the same similarity keep their input order. *)
Lemma sort_desc_stable {A} (key : A -> Q) (q : Q) (l : list A) :
  List.filter (fun x => Qeq_bool (key x) q) (sort_desc key l)
  = List.filter (fun x => Qeq_bool (key x) q) l.
Proof.
  induction l as [|x l IH]; [done|].
  cbn [sort_desc foldr]. fold (sort_desc key l).
  rewrite insert_desc_filter. cbn [List.filter]. by rewrite IH.
Qed.

(** A negative [top_k] cuts that many chunks off the end of the ranking
    instead of returning nothing. *)
Lemma slice_to_negative {A} (k : Z) (l : list A) :
  (k < 0)%Z -> (- k < Z.of_nat (length l))%Z ->
  length (slice_to k l) = length l - Z.to_nat (- k) /\ slice_to k l <> [].
Proof.
  intros Hk Hlen. unfold slice_to.
  replace (k <? 0)%Z with true by (symmetry; by apply Z.ltb_lt).
  rewrite Z.max_l by lia.
  assert (Z.to_nat (Z.of_nat (length l) + k) = length l - Z.to_nat (- k)) as ->
    by lia.
  split.
  - rewrite length_take. lia.
  - intros Hnil. apply (f_equal length) in Hnil.
    rewrite length_take in Hnil. simpl in Hnil. lia.
Qed.

Lemma slice_to_nonneg {A} (k : Z) (l : list A) :
  (0 <= k)%Z -> slice_to k l = take (Z.to_nat k) l.
Proof.
  intros Hk. unfold slice_to.
  replace (k <? 0)%Z with false by (symmetry; by apply Z.ltb_ge).
  destruct (Z.min_spec k (Z.of_nat (length l))) as [[? ->]|[? ->]]; [done|].
  rewrite Nat2Z.id. rewrite !take_ge by lia. done.
Qed.

(** The scoring loop keeps the chunks that carry an embedding, in their
    input order, and skips the others. *)
Lemma score_chunks_candidates
    (cosine_similarity : list Embedding -> list Embedding -> result Matrix)
    (query_embedding : Embedding) (chunks : list Generic.Chunk) :
  forall acc similarities,
    Generic.score_chunks cosine_similarity query_embedding chunks acc
    = Ok similarities ->
    map snd similarities
    = map snd acc
      ++ List.filter (fun c => bool_decide (is_Some (Generic.has_embedding c))) chunks.
Proof.
  induction chunks as [|c chunks IH]; intros acc sims Hs; simpl in Hs.
  - injection Hs as <-. by rewrite app_nil_r.
  - simpl. destruct (Generic.has_embedding c) as [v|] eqn:Hv.
    + destruct (cosine_similarity [query_embedding] [v]) as [sm|]; [|done].
      cbn [mbind result_bind] in Hs.
      destruct (getitem2 sm 0 0) as [q|]; [|done].
      cbn [mbind result_bind] in Hs.
      apply IH in Hs. rewrite Hs, map_app, <- app_assoc. done.
    + by apply IH.
Qed.

(** For a [top_k] that is not negative, the search returns the first [top_k]
    chunks of the ranking, all of them when there are fewer. *)
Lemma search_similar_chunks_nonneg
    (cosine_similarity : list Embedding -> list Embedding -> result Matrix)
    (encode : pystr -> result Embedding)
    (query : pystr) (chunks : list Generic.Chunk) (top_k : Z)
    (query_embedding : Embedding) (similarities : list (Q * Generic.Chunk)) :
  (0 <= top_k)%Z -> chunks <> [] ->
  encode query = Ok query_embedding ->
  Generic.score_chunks cosine_similarity query_embedding chunks []
  = Ok similarities ->
  Generic.search_similar_chunks cosine_similarity encode query chunks top_k
  = Ok (map snd (take (Z.to_nat top_k) (sort_desc fst similarities))).
Proof.
  intros Hk Hne Hq Hs. unfold Generic.search_similar_chunks.
  destruct chunks as [|c chunks]; [done|].
  rewrite Hq. cbn [mbind result_bind]. rewrite Hs. cbn [mbind result_bind].
  by rewrite slice_to_nonneg.
Qed.

(** C5 at [top_k = -1]: of the three sample chunks, all with an embedding,
    the two best ranked are returned, not the empty sequence. *)
Theorem C5_negative_top_k :
  Generic.search_similar_chunks Stub.cosine2 Example.encode_query
    (py "contract breach") Example.gchunks (-1)
  = Ok (take 2 Example.gchunks).
Proof. vm_compute. reflexivity. Qed.

(** ** Offsets *)

(** C6 on the document [Example.repeated]: the third chunk repeats the first
    200 characters of the first chunk, [content.find] reports it at offset 0
    instead of 1804, and the start offsets of the chunks are 0, 902, 0, before
    the consolidation and, no two chunks being similar, after it. *)
Theorem C6_find_offsets_not_monotone :
  (exists chunks,
     Generic.annotated_chunks Stub.encode Stub.generic_nlp
       Example.split_paragraphs Stub.first_seen Example.repeated (py "doc")
     = Ok chunks /\
     map (fun c => Generic.start_char (Generic.metadata c)) chunks
     = [0; 902; 0]%Z) /\
  (exists chunks,
     Generic._create_intelligent_chunks Stub.cosine2 Stub.encode
       Stub.generic_nlp Example.split_paragraphs Stub.first_seen
       Example.repeated (py "doc") ∅
     = Ok chunks /\
     map (fun c => (Generic.chunk_index (Generic.metadata c),
                    Generic.start_char (Generic.metadata c),
                    Generic.end_char (Generic.metadata c))) chunks
     = [(0, 0%Z, 900%Z); (1, 902%Z, 1802%Z); (2, 0%Z, 200%Z)]).
Proof.
  split; eexists; (split; [vm_compute; reflexivity|reflexivity]).
Qed.

Lemma truthy_length (s : pystr) : truthy s = true -> 0 < length s.
Proof. destruct s; [done|]. simpl. lia. Qed.

(** The assembler of [advanced_document_processor.py] keeps its running
    offsets in order: every chunk starts at 0 and ends after its start. *)
Lemma legal_assemble_offsets (document_id : pystr) (sentences : list pystr) :
  Forall (fun c => Legal.start_position c = 0%Z /\ (0 < Legal.end_position c)%Z)
    (Legal.assemble document_id sentences).
Proof.
  unfold Legal.assemble.
  set (P := fun c => Legal.start_position c = 0%Z /\ (0 < Legal.end_position c)%Z).
  assert (forall st,
            Legal.chunk_start st = 0%Z -> Forall P (Legal.chunks st) ->
            let st' := fold_left (Legal.add_sentence document_id) sentences st in
            Legal.chunk_start st' = 0%Z /\ Forall P (Legal.chunks st')) as Hinv.
  { induction sentences as [|s sentences IH]; intros st H0 Hall; [done|].
    simpl. apply IH.
    - unfold Legal.add_sentence.
      destruct ((1000 <? _) && truthy (Legal.current_chunk st)); simpl; lia.
    - unfold Legal.add_sentence.
      destruct (1000 <? _); simpl; [|done].
      destruct (truthy (Legal.current_chunk st)) eqn:Ht; simpl; [|done].
      apply Forall_app. split; [done|]. constructor; [|constructor].
      split; simpl; [done|]. apply truthy_length in Ht. lia. }
  match goal with |- context [fold_left _ _ ?st0] =>
    destruct (Hinv st0 eq_refl (Forall_nil_2 _)) as [H0 Hall] end.
  destruct (truthy _) eqn:Ht; [|done].
  apply Forall_app. split; [done|]. constructor; [|constructor].
  split; simpl; [done|]. apply truthy_length in Ht. lia.
Qed.

Lemma range_step_spec (fuel i n step : nat) :
  0 < step ->
  Forall (fun x => i <= x < n) (Legal.range_step fuel i n step) /\
  StronglySorted le (Legal.range_step fuel i n step).
Proof.
  intros Hstep. revert i. induction fuel as [|fuel IH]; intros i; simpl.
  - split; constructor.
  - destruct (i <? n) eqn:Hlt; [|split; constructor].
    apply Nat.ltb_lt in Hlt. destruct (IH (i + step)) as [Hall Hs].
    split.
    + constructor; [lia|]. eapply Forall_impl; [exact Hall|]. intros x Hx.
      simpl in Hx. lia.
    + constructor; [done|]. eapply Forall_impl; [exact Hall|]. intros x Hx.
      simpl in Hx. lia.
Qed.

(** The sibling of C6: in [advanced_document_processor.py] every chunk
    satisfies [start_position < end_position] and the start positions never
    decrease, whichever way the sentences were obtained. *)
Lemma legal_offsets_monotone
    (nlp : pystr -> result Legal.Doc)
    (sent_tokenize : pystr -> result (list pystr))
    (content document_id : pystr) :
  let chunks := Legal._create_intelligent_chunks nlp sent_tokenize content document_id in
  Forall (fun c => (Legal.start_position c < Legal.end_position c)%Z) chunks /\
  StronglySorted Z.le (map Legal.start_position chunks).
Proof.
  unfold Legal._create_intelligent_chunks.
  destruct (Legal._split_into_sentences nlp sent_tokenize content) as [sentences|e].
  - pose proof (legal_assemble_offsets document_id sentences) as Hall.
    revert Hall. generalize (Legal.assemble document_id sentences).
    intros chunks Hall. split.
    + eapply Forall_impl; [exact Hall|]. intros c [? ?]. simpl. lia.
    + induction Hall as [|c chunks [Hc _] Hall IH]; simpl; [constructor|].
      constructor; [done|]. rewrite Hc.
      apply Forall_fmap, Forall_forall. intros c' Hc'.
      rewrite Forall_forall in Hall. destruct (Hall c' Hc') as [Hc'0 _].
      simpl. lia.
  - unfold Legal._create_simple_chunks.
    destruct (range_step_spec (length content) 0 (length content) (1000 - 200))
      as [Hall Hs]; [lia|].
    revert Hall Hs. generalize (Legal.range_step (length content) 0
                                  (length content) (1000 - 200)).
    intros starts Hall Hs. split.
    + apply Forall_fmap. eapply Forall_impl; [exact Hall|].
      intros i Hi. simpl in *. lia.
    + rewrite map_map. simpl.
      induction Hs as [|i starts Hs IH Hle]; simpl; [constructor|].
      apply Forall_cons in Hall as [_ Hall].
      constructor; [by apply IH|].
      apply Forall_fmap. eapply Forall_impl; [exact Hle|].
      intros j Hj. simpl in *. lia.
Qed.

(** ** Repeated runs *)

Lemma last_seen_set_order : set_order Stub.last_seen.
Proof.
  intros xs. unfold Stub.last_seen.
  pose proof (Permutation_rev (remove_dups xs)) as Hperm.
  split.
  - rewrite <- Hperm. apply NoDup_remove_dups.
  - intros x. rewrite <- Hperm. apply elem_of_remove_dups.
Qed.

Lemma set_order_perm (list_set1 list_set2 : list pystr -> list pystr)
    (xs : list pystr) :
  set_order list_set1 -> set_order list_set2 ->
  list_set1 xs ≡ₚ list_set2 xs.
Proof.
  intros H1 H2. destruct (H1 xs) as [Hnd1 Hin1], (H2 xs) as [Hnd2 Hin2].
  apply NoDup_Permutation; [done|done|].
  intros x. by rewrite Hin1, Hin2.
Qed.

Section TwoRuns.

Variables list_set1 list_set2 : list pystr -> list pystr.
Hypothesis Hset1 : set_order list_set1.
Hypothesis Hset2 : set_order list_set2.

Lemma legal_annotate_two_runs
    (nlp : pystr -> result Legal.Doc)
    (tfidf : pystr -> result (list (pystr * Q)))
    (finditer_legal_terms finditer_case_reference finditer_statute_reference :
       pystr -> list pystr)
    (chunk : Legal.ChunkMetadata) :
  same_but_term_order
    (Legal.annotate nlp tfidf finditer_legal_terms finditer_case_reference
       finditer_statute_reference list_set1 chunk)
    (Legal.annotate nlp tfidf finditer_legal_terms finditer_case_reference
       finditer_statute_reference list_set2 chunk).
Proof.
  pose proof (set_order_perm list_set1 list_set2
                (finditer_legal_terms (Legal.content chunk)) Hset1 Hset2) as Hperm.
  split; [|exact Hperm].
  unfold forget_terms, Legal.annotate. simpl. f_equal.
  unfold Legal._calculate_importance_score, Legal._extract_legal_terms.
  cbv zeta. by rewrite (Permutation_length Hperm).
Qed.

Lemma generic_annotate_two_runs
    (encode : pystr -> result Embedding)
    (nlp : pystr -> result Generic.Doc)
    (content document_id : pystr) (i : nat) (chunk_text : pystr) :
  match Generic.annotate encode nlp list_set1 content document_id i chunk_text,
        Generic.annotate encode nlp list_set2 content document_id i chunk_text
  with
  | Ok c1, Ok c2 => same_but_keyword_choice c1 c2
  | Raise e1, Raise e2 => e1 = e2
  | _, _ => False
  end.
Proof.
  unfold Generic.annotate.
  destruct (nlp chunk_text) as [doc|e]; [|done]. cbn [mbind result_bind].
  destruct (encode chunk_text) as [embedding|e]; [|done]. cbn [mbind result_bind].
  split; [done|]. simpl.
  set (kws := map (fun token => lower (Generic.lemma_ token))
                (List.filter Generic.is_keyword (Generic.tokens doc))).
  exists (list_set1 kws), (list_set2 kws).
  split; [by apply set_order_perm|]. split; [apply Hset1|].
  assert (forall l : list pystr, slice_to 10 l = take 10 l) as Hslice.
  { intros l. unfold slice_to. simpl.
    destruct (Z.min_spec 10 (Z.of_nat (length l))) as [[? ->]|[? ->]]; [done|].
    rewrite Nat2Z.id. rewrite take_ge by lia. rewrite take_ge by lia. done. }
  by rewrite !Hslice.
Qed.

Lemma generic_annotate_loop_two_runs
    (encode : pystr -> result Embedding)
    (nlp : pystr -> result Generic.Doc)
    (content document_id : pystr) (todo : list (nat * pystr)) :
  forall acc1 acc2,
    Forall2 same_but_keyword_choice acc1 acc2 ->
    match Generic.annotate_loop encode nlp list_set1 content document_id todo acc1,
          Generic.annotate_loop encode nlp list_set2 content document_id todo acc2
    with
    | Ok cs1, Ok cs2 => Forall2 same_but_keyword_choice cs1 cs2
    | Raise e1, Raise e2 => e1 = e2
    | _, _ => False
    end.
Proof.
  induction todo as [|[i chunk_text] todo IH]; intros acc1 acc2 Hacc; [done|].
  simpl. destruct (negb (truthy (strip chunk_text))); [by apply IH|].
  pose proof (generic_annotate_two_runs encode nlp content document_id i chunk_text)
    as Hone.
  destruct (Generic.annotate encode nlp list_set1 content document_id i chunk_text)
    as [c1|e1],
    (Generic.annotate encode nlp list_set2 content document_id i chunk_text)
    as [c2|e2]; try done.
  cbn [mbind result_bind]. apply IH. apply Forall2_app; [done|by constructor].
Qed.

End TwoRuns.

(** C9, as the code has it.  Two runs of assembly and annotation on the same
    input, with the same deterministic capabilities, may iterate over Python
    sets in different orders.  They then produce chunk lists of the same
    length that agree, chunk by chunk and in order, on contents, offsets,
    entities, embeddings, scores and every other field, except that
    - in [advanced_document_processor.py] the legal terms of a chunk are the
      same terms in possibly another order, and
    - in [advanced-document-processor.py] the keywords of a chunk are the
      first ten of two orderings of the same duplicate-free keyword list. *)
Theorem C9_two_runs
    (list_set1 list_set2 : list pystr -> list pystr)
    (nlp : pystr -> result Legal.Doc)
    (sent_tokenize : pystr -> result (list pystr))
    (encode_texts : list pystr -> result (list Embedding))
    (tfidf : pystr -> result (list (pystr * Q)))
    (finditer_legal_terms finditer_case_reference finditer_statute_reference :
       pystr -> list pystr)
    (content filename : pystr) (document_id : option pystr)
    (encode : pystr -> result Embedding)
    (gnlp : pystr -> result Generic.Doc)
    (split_text : pystr -> result (list pystr))
    (gcontent gdocument_id : pystr) :
  set_order list_set1 -> set_order list_set2 ->
  (let run list_set :=
     Legal.annotated_chunks nlp sent_tokenize encode_texts tfidf
       finditer_legal_terms finditer_case_reference finditer_statute_reference
       list_set content filename document_id in
   Forall2 same_but_term_order (fst (run list_set1)) (fst (run list_set2)) /\
   snd (run list_set1) = snd (run list_set2)) /\
  (let run list_set :=
     Generic.annotated_chunks encode gnlp split_text list_set gcontent gdocument_id in
   match run list_set1, run list_set2 with
   | Ok chunks1, Ok chunks2 => Forall2 same_but_keyword_choice chunks1 chunks2
   | Raise e1, Raise e2 => e1 = e2
   | _, _ => False
   end).
Proof.
  intros Hset1 Hset2. split.
  - cbv zeta. unfold Legal.annotated_chunks. cbn [fst snd]. split; [|done].
    apply Forall2_fmap, Forall_Forall2_diag, Forall_forall.
    intros c _. by apply legal_annotate_two_runs.
  - cbv zeta. unfold Generic.annotated_chunks.
    destruct (split_text gcontent) as [basic_chunks|e]; [|done].
    cbn [mbind result_bind].
    by apply generic_annotate_loop_two_runs.
Qed.

(** C9 fails as stated: by first insertion and by last insertion are both
    iteration orders of a set, and the sentence [Example.ruling] is annotated
    with the legal terms "court", "judge" under the first and "judge",
    "court" under the second. *)
Lemma C9_counterexample :
  set_order Stub.first_seen /\ set_order Stub.last_seen /\
  map Legal.legal_terms (Example.annotated_ruling Stub.first_seen)
  = [[py "court"; py "judge"]] /\
  map Legal.legal_terms (Example.annotated_ruling Stub.last_seen)
  = [[py "judge"; py "court"]] /\
  Example.annotated_ruling Stub.first_seen
  <> Example.annotated_ruling Stub.last_seen.
Proof.
  split; [exact first_seen_set_order|]. split; [exact last_seen_set_order|].
  split; [reflexivity|]. split; [reflexivity|].
  intros H. apply (f_equal (map Legal.legal_terms)) in H.
  vm_compute in H. discriminate H.
Qed.

(** The two runs on [Example.ruling] agree up to the order of the legal
    terms. *)
Lemma C9_witness :
  Forall2 same_but_term_order
    (Example.annotated_ruling Stub.first_seen)
    (Example.annotated_ruling Stub.last_seen).
Proof.
  destruct (C9_two_runs Stub.first_seen Stub.last_seen Stub.legal_nlp
              (fun _ => Ok []) Example.encode_all (fun _ => Ok []) Stub.find_terms
              (fun _ => []) (fun _ => []) Example.ruling (py "ruling.txt") None
              Stub.encode Stub.generic_nlp Example.split_paragraphs
              Example.ruling (py "doc")
              first_seen_set_order last_seen_set_order) as [[Hlegal _] _].
  exact Hlegal.
Defined.

(** ** Stripping *)

Lemma truthy_strip_nonblank (s : pystr) : truthy (strip s) = true -> nonblank s.
Proof.
  induction s as [|c s IH]; [done|]. intros H.
  destruct (isspace c) eqn:Hc.
  - right. apply IH. unfold strip in *. simpl in H. by rewrite Hc in H.
  - by left.
Qed.

Lemma lstrip_nonblank (s : pystr) : nonblank s -> lstrip s <> [].
Proof.
  induction 1 as [c s Hc|c s _ IH]; simpl.
  - by rewrite Hc.
  - by destruct (isspace c).
Qed.

Lemma lstrip_app (a b : pystr) : nonblank a -> lstrip (a ++ b) = lstrip a ++ b.
Proof.
  induction 1 as [c s Hc|c s _ IH]; simpl.
  - by rewrite Hc.
  - by destruct (isspace c).
Qed.

Lemma lstrip_app_blank (a b : pystr) : lstrip a = [] -> lstrip (a ++ b) = lstrip b.
Proof.
  induction a as [|c a IH]; [done|]. simpl.
  destruct (isspace c); [exact IH|done].
Qed.

Lemma nonblank_rev (s : pystr) : nonblank s -> nonblank (rev s).
Proof.
  unfold nonblank. rewrite !Exists_exists.
  intros (c & Hin & Hc). exists c. split; [|done].
  apply list_elem_of_In. rewrite <- in_rev. by apply list_elem_of_In.
Qed.

Lemma nonblank_app_r (a b : pystr) : nonblank b -> nonblank (a ++ b).
Proof. intros H. apply Exists_app. by right. Qed.

Lemma nonblank_app_l (a b : pystr) : nonblank a -> nonblank (a ++ b).
Proof. intros H. apply Exists_app. by left. Qed.

Lemma rstrip_app (a b : pystr) : nonblank b -> rstrip (a ++ b) = a ++ rstrip b.
Proof.
  intros Hb. unfold rstrip. rewrite rev_app_distr.
  rewrite lstrip_app by (by apply nonblank_rev).
  by rewrite rev_app_distr, rev_involutive.
Qed.

Lemma nonblank_strip (s : pystr) : nonblank s -> truthy (strip s) = true.
Proof.
  intros Hs. unfold strip, rstrip.
  assert (nonblank (lstrip s)) as Hl.
  { induction Hs as [c s Hc|c s _ IH]; simpl.
    - rewrite Hc. by left.
    - destruct (isspace c) eqn:Hc; [done|]. by left. }
  apply nonblank_rev, lstrip_nonblank in Hl.
  destruct (lstrip (rev (lstrip s))) as [|c t] eqn:Heq; [done|].
  simpl. by destruct (rev t ++ [c]) eqn:Hr; [destruct (rev t)|].
Qed.

Lemma startswith_app (p x : pystr) : startswith p (p ++ x) = true.
Proof.
  induction p as [|c p IH]; simpl; [by destruct x|].
  by destruct (ascii_dec c c).
Qed.

(** What is left of the seed of a buffer once the buffer is stripped: the
    overlap without its leading white space. *)
Lemma strip_seeded (overlap sentence x : pystr) :
  nonblank sentence ->
  startswith (lstrip overlap)
    (strip (overlap ++ py " " ++ sentence ++ x)) = true.
Proof.
  intros Hs. unfold strip.
  destruct (lstrip overlap) as [|c t] eqn:Hl; [by destruct (rstrip _)|].
  assert (nonblank overlap) as Ho.
  { clear -Hl. induction overlap as [|a o IH]; [done|].
    simpl in Hl. destruct (isspace a) eqn:Ha; [right; by apply IH|by left]. }
  rewrite lstrip_app by done. rewrite Hl.
  rewrite (app_assoc (c :: t) (py " ") (sentence ++ x)).
  rewrite rstrip_app by (by apply nonblank_app_l).
  rewrite <- app_assoc. apply startswith_app.
Qed.

(** ** The assembler of [python-document-processor.py] *)

Lemma overlap_of_trailing (overlap_size : Z) (buffer : pystr) :
  (0 < overlap_size)%Z ->
  Basic.overlap_of overlap_size buffer = trailing (Z.to_nat overlap_size) buffer.
Proof.
  intros Hpos. unfold Basic.overlap_of, trailing, slice_from.
  destruct (overlap_size <? Z.of_nat (length buffer))%Z eqn:Hlt.
  - apply Z.ltb_lt in Hlt.
    replace (- overlap_size <? 0)%Z with true by (symmetry; apply Z.ltb_lt; lia).
    f_equal. lia.
  - apply Z.ltb_ge in Hlt.
    replace (length buffer - Z.to_nat overlap_size) with 0 by lia. done.
Qed.

Section Seeded.

Variables (max_chunk_size overlap_size : Z).
Variables (prefix : list Basic.Chunk) (overlap sentence : pystr).
Hypothesis Hsentence : nonblank sentence.

Lemma add_sentence_seeded (st : Basic.Chunker) (s : pystr) :
  seeded prefix overlap sentence st ->
  seeded prefix overlap sentence
    (Basic.add_sentence max_chunk_size overlap_size st s).
Proof.
  intros Hst. unfold Basic.add_sentence.
  destruct (negb (truthy (strip s))); [done|].
  destruct ((max_chunk_size <? _)%Z && truthy (Basic.current_chunk st)) eqn:Hsplit.
  - destruct Hst as [[Hp [x Hx]]|(next & more & Hp & Hn)].
    + right. eexists _, []. simpl. rewrite Hp. split; [done|].
      rewrite Hx. by apply strip_seeded.
    + right. exists next, (more ++ [Basic.new_chunk (Basic.current_chunk st)
                                    (Basic.start_pos st) (Basic.chunk_index st)]).
      simpl. rewrite Hp. split; [|done]. by rewrite <- app_assoc.
  - destruct Hst as [[Hp [x Hx]]|(next & more & Hp & Hn)].
    + left. simpl. split; [done|].
      assert (truthy (Basic.current_chunk st) = true) as ->
        by (rewrite Hx; by destruct overlap).
      rewrite Hx. exists (x ++ py " " ++ s). by rewrite <- !app_assoc.
    + right. exists next, more. by simpl.
Qed.

Lemma fold_seeded (sentences : list pystr) (st : Basic.Chunker) :
  seeded prefix overlap sentence st ->
  seeded prefix overlap sentence
    (fold_left (Basic.add_sentence max_chunk_size overlap_size) sentences st).
Proof.
  revert st. induction sentences as [|s sentences IH]; intros st Hst; [done|].
  simpl. apply IH. by apply add_sentence_seeded.
Qed.

Lemma finish_seeded (st : Basic.Chunker) :
  seeded prefix overlap sentence st ->
  exists next more,
    Basic.finish st = prefix ++ next :: more /\
    startswith (lstrip overlap) (Basic.chunkText next) = true.
Proof.
  intros [[Hp [x Hx]]|(next & more & Hp & Hn)]; unfold Basic.finish.
  - rewrite nonblank_strip.
    + eexists _, []. rewrite Hp. split; [done|].
      simpl. rewrite Hx. by apply strip_seeded.
    + rewrite Hx. apply nonblank_app_r, nonblank_app_r. by apply nonblank_app_l.
  - destruct (truthy (strip (Basic.current_chunk st))).
    + eexists next, (more ++ [_]). rewrite Hp. split; [|done].
      by rewrite <- app_assoc.
    + by exists next, more.
Qed.

End Seeded.

(** C2, as the code has it.  Take any run of the assembler of
    [python-document-processor.py] with a positive overlap, and in it a
    sentence, not blank, whose appending would make the non-empty buffer
    exceed [max_chunk_size].  Then the buffer is sealed as a chunk, which
    is in the output; the next buffer is the trailing [overlap_size]
    characters of the sealed buffer (all of it when it is shorter), a space,
    and the sentence; and the chunk that follows in the output begins with
    these trailing characters without their leading white space.  The
    assembler of [advanced_document_processor.py] seals the buffer in the same
    way and starts the next buffer with the sentence alone. *)
Theorem C2_overlap_seed
    (max_chunk_size overlap_size : Z)
    (before : list pystr) (sentence : pystr) (after : list pystr)
    (document_id : pystr) (lst : Legal.Assembler) (lsentence : pystr) :
  let st := fold_left (Basic.add_sentence max_chunk_size overlap_size)
              before Basic.initial in
  let buffer := Basic.current_chunk st in
  let overlap := trailing (Z.to_nat overlap_size) buffer in
  let st' := Basic.add_sentence max_chunk_size overlap_size st sentence in
  let sealed := Basic.new_chunk buffer (Basic.start_pos st) (Basic.chunk_index st) in
  let out := Basic.assemble max_chunk_size overlap_size
               (before ++ sentence :: after) in
  let lbuffer := Legal.current_chunk lst in
  let lst' := Legal.add_sentence document_id lst lsentence in
  (0 < overlap_size)%Z ->
  truthy (strip sentence) = true ->
  truthy buffer = true ->
  (max_chunk_size < Z.of_nat (length buffer) + Z.of_nat (length sentence))%Z ->
  truthy lbuffer = true ->
  1000 < length lbuffer + length lsentence ->
  (Basic.st_chunks st' = Basic.st_chunks st ++ [sealed] /\
   Basic.current_chunk st' = overlap ++ py " " ++ sentence /\
   out !! length (Basic.st_chunks st) = Some sealed /\
   exists next,
     out !! S (length (Basic.st_chunks st)) = Some next /\
     startswith (lstrip overlap) (Basic.chunkText next) = true) /\
  (Legal.chunks lst'
   = Legal.chunks lst
     ++ [Legal.new_chunk document_id (Legal.next_index lst) (strip lbuffer)
           (Legal.chunk_start lst)
           (Legal.chunk_start lst + Z.of_nat (length lbuffer))] /\
   Legal.current_chunk lst' = lsentence).
Proof.
  intros st buffer overlap st' sealed out lbuffer lst'
         Hpos Hsentence Hbuffer Hmax Hlbuffer Hlmax.
  assert (Basic.st_chunks st' = Basic.st_chunks st ++ [sealed] /\
          Basic.current_chunk st' = overlap ++ py " " ++ sentence) as [Hc Hb].
  { unfold st', Basic.add_sentence. rewrite Hsentence. simpl negb. cbv iota.
    fold buffer. rewrite Hbuffer.
    replace (max_chunk_size <? Z.of_nat (length buffer) + Z.of_nat (length sentence))%Z
      with true by (symmetry; by apply Z.ltb_lt).
    simpl. rewrite overlap_of_trailing by done. done. }
  split; [|].
  - split; [done|]. split; [done|].
    assert (seeded (Basic.st_chunks st ++ [sealed]) overlap sentence st') as Hseed.
    { left. split; [done|]. exists []. by rewrite app_nil_r. }
    apply truthy_strip_nonblank in Hsentence.
    apply (fold_seeded max_chunk_size overlap_size _ _ _ Hsentence after) in Hseed.
    apply (finish_seeded _ _ _ Hsentence) in Hseed as (next & more & Hout & Hnext).
    assert (out = (Basic.st_chunks st ++ [sealed]) ++ next :: more) as ->.
    { unfold out, Basic.assemble. rewrite fold_left_app. exact Hout. }
    split.
    + rewrite <- app_assoc. simpl. by apply list_lookup_middle.
    + exists next. split; [|done].
      apply list_lookup_middle. rewrite length_app. simpl. lia.
  - unfold lst', Legal.add_sentence. fold lbuffer. rewrite Hlbuffer.
    replace (1000 <? length lbuffer + length lsentence) with true
      by (symmetry; by apply Nat.ltb_lt).
    done.
Qed.

(** C2 fails as stated: with [max_chunk_size = 10] and [overlap_size = 3] the
    text "ab cd e. gh ij." gives the chunks "ab cd e." and "e. gh ij.": the
    three trailing characters of the first are " e.", and the second, whose
    text was stripped, does not begin with them.  In
    [advanced_document_processor.py] two sentences of 601 characters give two
    chunks, and the second begins with no trailing part of the first. *)
Lemma C2_counterexample :
  (map Basic.chunkText (Basic.create_chunks 10 3 (py "ab cd e. gh ij."))
   = [py "ab cd e."; py "e. gh ij."] /\
   trailing 3 (py "ab cd e.") = py " e." /\
   startswith (trailing 3 (py "ab cd e.")) (py "e. gh ij.") = false) /\
  (let s1 := repeat "A"%char 600 ++ py "." in
   let s2 := repeat "B"%char 600 ++ py "." in
   map Legal.content (Legal.assemble (py "doc") [s1; s2]) = [s1; s2] /\
   startswith (trailing 200 s1) s2 = false /\
   startswith (trailing 1 s1) s2 = false).
Proof. split; by vm_compute. Qed.

(** The run of the counterexample meets the hypotheses of C2, as does a
    buffer of a thousand characters in [advanced_document_processor.py]. *)
Lemma C2_witness :
  exists next,
    Basic.assemble 10 3 ([py "ab cd e."] ++ [py "gh ij."]) !! 1 = Some next /\
    startswith (lstrip (trailing 3 (py "ab cd e."))) (Basic.chunkText next) = true.
Proof.
  destruct (C2_overlap_seed 10 3 [py "ab cd e."] (py "gh ij.") [] (py "doc")
              {| Legal.chunks := []; Legal.current_chunk := repeat "a"%char 1000;
                 Legal.chunk_start := 0; Legal.next_index := 0 |} (py "b."))
    as [(_ & _ & _ & next & Hnext & Hstarts) _].
  - lia.
  - reflexivity.
  - reflexivity.
  - vm_compute. reflexivity.
  - reflexivity.
  - vm_compute. lia.
  - exists next. split; [exact Hnext|exact Hstarts].
Defined.

(** The example of the specification: three sentences of 400 characters with
    the default sizes give two chunks, and the second begins with the last 200
    characters of the first. *)
Lemma three_sentences_two_chunks :
  exists c1 c2,
    Basic.create_chunks 1000 200 Example.three_sentences = [c1; c2] /\
    length (Basic.chunkText c1) = 801 /\
    startswith (trailing 200 (Basic.chunkText c1)) (Basic.chunkText c2) = true.
Proof. eexists _, _. split; [vm_compute; reflexivity|]. by vm_compute. Qed.

(** With [overlap_size = 0] the slice [current_chunk[-0:]] is the whole
    buffer: the next chunk repeats the sealed one in full. *)
Lemma overlap_zero_keeps_buffer :
  map Basic.chunkText (Basic.create_chunks 10 0 (py "ab cd e. gh ij."))
  = [py "ab cd e."; py "ab cd e. gh ij."].
Proof. by vm_compute. Qed.


(** * Further properties of the code *)

(** ** White space at the ends of a string *)

Lemma lstrip_decompose (s : pystr) : exists b, blank b /\ s = b ++ lstrip s.
Proof.
  induction s as [|c s (b & Hb & Hs)]; [exists []; split; [constructor|done]|].
  simpl. destruct (isspace c) eqn:Hc.
  - exists (c :: b). split; [by constructor|]. simpl. by rewrite <- Hs.
  - exists []. split; [constructor|done].
Qed.

Lemma blank_rev (b : pystr) : blank b -> blank (rev b).
Proof. apply Forall_rev. Qed.

Lemma rstrip_decompose (s : pystr) : exists b, blank b /\ s = rstrip s ++ b.
Proof.
  destruct (lstrip_decompose (rev s)) as (b & Hb & Hs).
  exists (rev b). split; [by apply blank_rev|].
  unfold rstrip. rewrite <- rev_app_distr, <- Hs. by rewrite rev_involutive.
Qed.

Lemma lstrip_head (s : pystr) c t : lstrip s = c :: t -> isspace c = false.
Proof.
  induction s as [|a s IH]; [done|]. simpl.
  destruct (isspace a) eqn:Ha; [done|]. by intros [= <- _].
Qed.

Lemma lstrip_fixed (c : ascii) (t : pystr) :
  isspace c = false -> lstrip (c :: t) = c :: t.
Proof. intros H. simpl. by rewrite H. Qed.

Lemma lstrip_idem (s : pystr) : lstrip (lstrip s) = lstrip s.
Proof.
  destruct (lstrip s) as [|c t] eqn:Hs; [done|].
  apply lstrip_fixed. by eapply lstrip_head.
Qed.

Lemma rstrip_idem (s : pystr) : rstrip (rstrip s) = rstrip s.
Proof. unfold rstrip. by rewrite rev_involutive, lstrip_idem. Qed.

Lemma nonblank_cons (c : ascii) (t : pystr) : isspace c = false -> nonblank (c :: t).
Proof. intros H. by left. Qed.

Lemma lstrip_rstrip (s : pystr) : lstrip (rstrip s) = rstrip (lstrip s).
Proof.
  destruct (lstrip_decompose s) as (b & Hb & Hs).
  destruct (lstrip s) as [|c t] eqn:Hl.
  - (* the whole string is blank *)
    rewrite app_nil_r in Hs. subst b.
    assert (rstrip s = []) as ->.
    { unfold rstrip. by rewrite (lstrip_blank _ (blank_rev _ Hb)). }
    done.
  - pose proof (lstrip_head _ _ _ Hl) as Hc.
    rewrite Hs at 1. rewrite rstrip_app by (by apply nonblank_cons).
    destruct (rstrip_decompose (c :: t)) as (b' & Hb' & Hct).
    destruct (rstrip (c :: t)) as [|c' t'] eqn:Hr.
    + simpl in Hct. subst b'. apply Forall_cons in Hb' as [Hc' _]. congruence.
    + injection Hct as <- Ht.
      rewrite lstrip_app_blank by (by apply lstrip_blank).
      by apply lstrip_fixed.
Qed.

Lemma strip_idem (s : pystr) : strip (strip s) = strip s.
Proof.
  unfold strip. rewrite (lstrip_rstrip (lstrip s)).
  by rewrite lstrip_idem, rstrip_idem.
Qed.

Lemma length_lstrip (s : pystr) : length (lstrip s) <= length s.
Proof.
  destruct (lstrip_decompose s) as (b & _ & Hs).
  rewrite Hs at 2. rewrite length_app. lia.
Qed.

Lemma length_rstrip (s : pystr) : length (rstrip s) <= length s.
Proof.
  destruct (rstrip_decompose s) as (b & _ & Hs).
  rewrite Hs at 2. rewrite length_app. lia.
Qed.

Lemma length_strip (s : pystr) : length (strip s) <= length s.
Proof.
  unfold strip. pose proof (length_rstrip (lstrip s)). pose proof (length_lstrip s). lia.
Qed.

(** A string that [strip] leaves alone starts and ends with a character that
    is not white space. *)
Lemma strip_fixed_ends (s : pystr) :
  strip s = s -> lstrip s = s /\ rstrip s = s.
Proof.
  intros H.
  destruct (lstrip_decompose s) as (b & Hb & Hs).
  destruct (rstrip_decompose (lstrip s)) as (b' & Hb' & Hs').
  fold (strip s) in Hs'. rewrite H in Hs'.
  assert (b = [] /\ b' = []) as [-> ->].
  { apply (f_equal length) in Hs. rewrite Hs', !length_app in Hs.
    split; apply length_zero_iff_nil; lia. }
  rewrite app_nil_r in Hs'. simpl in Hs. split; [done|].
  unfold strip in H. by rewrite Hs' in H.
Qed.

Lemma strip_fixed_intro (s : pystr) : lstrip s = s -> rstrip s = s -> strip s = s.
Proof. intros H1 H2. unfold strip. by rewrite H1, H2. Qed.


(** ** The chunker of [python-document-processor.py] *)

Lemma count_words_lstrip (s : pystr) :
  count_words false (lstrip s) = count_words false s.
Proof.
  induction s as [|c s IH]; [done|]. simpl.
  destruct (isspace c) eqn:Hc; [done|]. simpl. by rewrite Hc.
Qed.

Lemma count_words_blank (b : pystr) (w : bool) : blank b -> count_words w b = 0.
Proof.
  intros Hb. revert w. induction Hb as [|c b Hc _ IH]; intros w; [done|].
  simpl. rewrite Hc. apply IH.
Qed.

Lemma count_words_app_blank (s b : pystr) (w : bool) :
  blank b -> count_words w (s ++ b) = count_words w s.
Proof.
  intros Hb. revert w. induction s as [|c s IH]; intros w.
  - simpl. by rewrite count_words_blank.
  - simpl. destruct (isspace c); [apply IH|]. destruct w; by rewrite IH.
Qed.

(** [len(s.split())] does not see the white space that [strip] removes. *)
Lemma len_split_strip (s : pystr) : len_split (strip s) = len_split s.
Proof.
  unfold len_split, strip.
  destruct (rstrip_decompose (lstrip s)) as (b & Hb & Hs).
  rewrite <- (count_words_lstrip s). rewrite Hs at 2.
  by rewrite count_words_app_blank.
Qed.

Lemma nonblank_truthy (s : pystr) : nonblank s -> truthy s = true.
Proof. by destruct 1. Qed.

Lemma nonblank_strip_ne (s : pystr) : nonblank s -> strip s <> [].
Proof.
  intros H%nonblank_strip. intros Heq. by rewrite Heq in H.
Qed.

Lemma chunker_inv_step (max_chunk_size overlap_size : Z)
    (st : Basic.Chunker) (sentence : pystr) :
  chunker_inv st ->
  chunker_inv (Basic.add_sentence max_chunk_size overlap_size st sentence).
Proof.
  intros (Hpos & Hcur & Hall). unfold Basic.add_sentence.
  destruct (truthy (strip sentence)) eqn:Hs; simpl; [|done].
  apply truthy_strip_nonblank in Hs.
  destruct ((max_chunk_size <? _)%Z && truthy (Basic.current_chunk st)) eqn:Hseal.
  - apply andb_true_iff in Hseal as [_ Ht].
    destruct Hcur as [Hnil|Hnb]; [by rewrite Hnil in Ht|].
    split_and!; simpl.
    + rewrite !length_app. simpl. lia.
    + right. apply nonblank_app_r. by apply Exists_cons_tl.
    + rewrite Nat.add_1_r, seq_S. apply Forall2_app; [done|].
      constructor; [|constructor]. exists (Basic.current_chunk st).
      split; [done|]. by rewrite Hpos.
  - split_and!; simpl; [done| |done].
    right. destruct (truthy (Basic.current_chunk st)); [|done].
    apply nonblank_app_r. by apply Exists_cons_tl.
Qed.

Lemma chunker_inv_fold (max_chunk_size overlap_size : Z) (sentences : list pystr) :
  forall st, chunker_inv st ->
    chunker_inv (fold_left (Basic.add_sentence max_chunk_size overlap_size) sentences st).
Proof.
  induction sentences as [|s sentences IH]; intros st Hst; [done|].
  simpl. by apply IH, chunker_inv_step.
Qed.

(** The chunks of a run, in normal form. *)
Lemma assemble_normal_form (max_chunk_size overlap_size : Z) (sentences : list pystr) :
  let chunks := Basic.assemble max_chunk_size overlap_size sentences in
  Forall2 (fun k c => exists buffer,
             nonblank buffer /\ c = Basic.new_chunk buffer (Z.of_nat k) k)
    (seq 0 (length chunks)) chunks.
Proof.
  unfold Basic.assemble.
  pose proof (chunker_inv_fold max_chunk_size overlap_size sentences Basic.initial)
    as Hinv.
  destruct Hinv as (Hpos & Hcur & Hall).
  { split_and!; [done|by left|constructor]. }
  revert Hpos Hcur Hall.
  generalize (fold_left (Basic.add_sentence max_chunk_size overlap_size)
                sentences Basic.initial).
  intros st Hpos Hcur Hall. unfold Basic.finish.
  pose proof (Forall2_length _ _ _ Hall) as Hlen. rewrite length_seq in Hlen.
  destruct (truthy (strip (Basic.current_chunk st))) eqn:Ht.
  - rewrite length_app. simpl. rewrite Nat.add_1_r, seq_S.
    apply Forall2_app; [by rewrite <- Hlen|].
    constructor; [|constructor]. exists (Basic.current_chunk st).
    split; [by apply truthy_strip_nonblank|]. simpl. by rewrite <- Hlen, Hpos.
  - by rewrite <- Hlen.
Qed.


Lemma len_split_nonblank (s : pystr) : nonblank s -> 0 < len_split s.
Proof.
  unfold len_split. induction 1 as [c s Hc|c s _ IH]; simpl.
  - rewrite Hc. lia.
  - destruct (isspace c); [done|lia].
Qed.


(** X2.  Every chunk of [create_chunks] has a text that is not empty and has
    no white space at either end, and its token count is the number of
    white-space separated words of that text, at least one. *)
Theorem create_chunks_texts (max_chunk_size overlap_size : Z) (text : pystr) :
  Forall (fun c =>
            Basic.chunkText c <> [] /\
            strip (Basic.chunkText c) = Basic.chunkText c /\
            Basic.tokenCount c = len_split (Basic.chunkText c) /\
            0 < Basic.tokenCount c)
    (Basic.create_chunks max_chunk_size overlap_size text).
Proof.
  unfold Basic.create_chunks.
  pose proof (assemble_normal_form max_chunk_size overlap_size
                (Basic.split_sentences (Basic.After false) []
                   (Basic.preprocess_text text))) as Hnf.
  cbv zeta in *. apply Forall_forall. intros c Hc.
  apply list_elem_of_lookup in Hc as [i Hi].
  destruct (Forall2_lookup_r _ _ _ _ _ Hnf Hi) as (k & _ & buffer & Hnb & ->).
  simpl. split_and!.
  - by apply nonblank_strip_ne.
  - apply strip_idem.
  - by rewrite len_split_strip.
  - by apply len_split_nonblank.
Qed.


(** *** How long a chunk can get *)

Lemma length_overlap_of (overlap_size : Z) (buffer : pystr) :
  (0 < overlap_size)%Z ->
  (Z.of_nat (length (Basic.overlap_of overlap_size buffer)) <= overlap_size)%Z.
Proof.
  intros Hpos. rewrite overlap_of_trailing by done.
  unfold trailing. rewrite length_drop. lia.
Qed.

(** X3.  With an overlap of at least one character and sentences of at most
    [longest] characters, no chunk text of the chunker is longer than the
    larger of [max_chunk_size + 1] and [overlap_size + 1 + longest]: the space
    that joins two sentences is not counted when the size is checked, and a
    buffer that starts with an overlap is not checked at all. *)
Theorem assemble_chunk_length (max_chunk_size overlap_size : Z)
    (longest : nat) (sentences : list pystr) :
  (0 < overlap_size)%Z ->
  Forall (fun s => length s <= longest) sentences ->
  Forall (fun c => (Z.of_nat (length (Basic.chunkText c))
                    <= Z.max (max_chunk_size + 1)
                         (overlap_size + 1 + Z.of_nat longest))%Z)
    (Basic.assemble max_chunk_size overlap_size sentences).
Proof.
  intros Hov Hlong.
  set (bound := Z.max (max_chunk_size + 1) (overlap_size + 1 + Z.of_nat longest)).
  set (P := fun c : Basic.Chunk => (Z.of_nat (length (Basic.chunkText c)) <= bound)%Z).
  assert (forall st,
            (Z.of_nat (length (Basic.current_chunk st)) <= bound)%Z ->
            Forall P (Basic.st_chunks st) ->
            let st' := fold_left (Basic.add_sentence max_chunk_size overlap_size)
                         sentences st in
            (Z.of_nat (length (Basic.current_chunk st')) <= bound)%Z /\
            Forall P (Basic.st_chunks st')) as Hinv.
  { induction Hlong as [|s sentences Hs _ IH]; intros st Hcur Hall; [done|].
    simpl. apply IH.
    - unfold Basic.add_sentence.
      destruct (truthy (strip s)); simpl; [|done].
      destruct (max_chunk_size <? _)%Z eqn:Hlt; simpl.
      + destruct (truthy (Basic.current_chunk st)) eqn:Ht; simpl.
        * rewrite !length_app. simpl.
          pose proof (length_overlap_of overlap_size (Basic.current_chunk st) Hov).
          lia.
        * destruct (Basic.current_chunk st); [|done]. lia.
      + apply Z.ltb_ge in Hlt.
        destruct (truthy (Basic.current_chunk st)) eqn:Ht; simpl.
        * rewrite !length_app. simpl. lia.
        * lia.
    - unfold Basic.add_sentence.
      destruct (truthy (strip s)); simpl; [|done].
      destruct ((max_chunk_size <? _)%Z && truthy (Basic.current_chunk st));
        simpl; [|done].
      apply Forall_app. split; [done|]. constructor; [|constructor].
      unfold P. simpl. pose proof (length_strip (Basic.current_chunk st)). lia. }
  unfold Basic.assemble.
  destruct (Hinv Basic.initial) as [Hcur Hall]; [simpl; lia|constructor|].
  unfold Basic.finish. destruct (truthy _); [|done].
  apply Forall_app. split; [done|]. constructor; [|constructor].
  unfold P. simpl. match goal with |- context [strip ?b] =>
    pose proof (length_strip b) end. lia.
Qed.

(** Two sentences of five characters and a limit of ten: the chunk has eleven
    characters. *)
Lemma assemble_chunk_length_witness :
  Forall (fun c => (Z.of_nat (length (Basic.chunkText c)) <= 11)%Z)
    (Basic.assemble 10 2 [py "abcd."; py "efgh."]) /\
  map Basic.chunkText (Basic.assemble 10 2 [py "abcd."; py "efgh."])
  = [py "abcd. efgh."].
Proof.
  split; [|reflexivity].
  apply (assemble_chunk_length 10 2 5 [py "abcd."; py "efgh."]).
  - lia.
  - repeat constructor.
Defined.

(** *** Nothing is lost *)

Lemma startswith_spec (p s : pystr) :
  startswith p s = true <-> exists x, s = p ++ x.
Proof.
  revert s. induction p as [|a p IH]; intros s; simpl.
  - split; [eauto|done].
  - destruct s as [|b s].
    + split; [done|]. by intros [x Hx].
    + destruct (ascii_dec a b) as [->|Hne].
      * rewrite IH. split; intros [x Hx]; exists x; [by rewrite Hx|by injection Hx].
      * split; [done|]. intros [x Hx]. by injection Hx.
Qed.

Lemma contains_spec (w s : pystr) : contains w s = true <-> occurs w s.
Proof.
  induction s as [|c s IH]; simpl.
  - rewrite orb_false_r, startswith_spec. split.
    + intros [x Hx]. by exists [], x.
    + intros (pre & post & H). symmetry in H.
      apply app_eq_nil in H as [-> H]. apply app_eq_nil in H as [-> ->].
      by exists [].
  - rewrite orb_true_iff, IH, startswith_spec. split.
    + intros [[x Hx]|(pre & post & H)].
      * by exists [], x.
      * exists (c :: pre), post. by rewrite H.
    + intros (pre & post & H). destruct pre as [|a pre].
      * left. by exists post.
      * right. injection H as -> H. by exists pre, post.
Qed.

Lemma blank_or_nonblank (s : pystr) : blank s \/ nonblank s.
Proof.
  induction s as [|c s [IH|IH]].
  - left. constructor.
  - destruct (isspace c) eqn:Hc.
    + left. by constructor.
    + right. by left.
  - right. by right.
Qed.

Lemma rstrip_app_blank (a b : pystr) : blank b -> rstrip (a ++ b) = rstrip a.
Proof.
  intros Hb. unfold rstrip. rewrite rev_app_distr.
  rewrite lstrip_app_blank; [done|]. by apply lstrip_blank, blank_rev.
Qed.

Lemma strip_nonblank (s : pystr) : nonblank s -> nonblank (strip s).
Proof.
  intros H. pose proof (nonblank_strip_ne s H) as Hne.
  unfold strip in *. rewrite <- lstrip_rstrip in *.
  destruct (lstrip (rstrip s)) as [|c t] eqn:Hl; [done|].
  left. by eapply lstrip_head.
Qed.

(** A sentence of a buffer survives the stripping of the buffer, up to its
    own white space. *)
Lemma occurs_strip (s buffer : pystr) :
  nonblank s -> occurs s buffer -> occurs (strip s) (strip buffer).
Proof.
  intros Hs (pre & post & ->).
  destruct (lstrip_decompose s) as (bl & Hbl & Hl).
  destruct (rstrip_decompose (lstrip s)) as (br & Hbr & Hr).
  fold (strip s) in Hr. set (m := strip s) in *.
  assert (nonblank m) as Hm by (by apply strip_nonblank).
  assert (lstrip m = m /\ rstrip m = m) as [Hlm Hrm].
  { apply strip_fixed_ends. apply strip_idem. }
  assert (pre ++ s ++ post = (pre ++ bl) ++ m ++ (br ++ post)) as ->.
  { rewrite Hl, Hr at 1. by rewrite <- !app_assoc. }
  generalize (pre ++ bl) (br ++ post). clear -Hm Hlm Hrm. intros A B.
  assert (exists A', lstrip (A ++ m ++ B) = A' ++ m ++ B) as [A' HA].
  { destruct (blank_or_nonblank A) as [HbA|HnA].
    - exists []. rewrite lstrip_app_blank by (by apply lstrip_blank).
      by rewrite lstrip_app, Hlm.
    - exists (lstrip A). by apply lstrip_app. }
  unfold strip. rewrite HA.
  replace (A' ++ m ++ B) with ((A' ++ m) ++ B) by (by rewrite <- app_assoc).
  destruct (blank_or_nonblank B) as [HbB|HnB].
  - rewrite rstrip_app_blank by done. rewrite rstrip_app, Hrm by done.
    exists A', []. by rewrite app_nil_r.
  - rewrite rstrip_app by done. exists A', (rstrip B). by rewrite <- app_assoc.
Qed.

Lemma occurs_nil_nonblank (s : pystr) : nonblank s -> ~ occurs s [].
Proof.
  intros Hs (pre & post & H). symmetry in H.
  apply app_eq_nil in H as [_ H]. apply app_eq_nil in H as [-> _].
  by apply Exists_nil in Hs.
Qed.

Lemma occurs_nonblank (s buffer : pystr) :
  nonblank s -> occurs s buffer -> nonblank buffer.
Proof.
  intros Hs (pre & post & ->). by apply nonblank_app_r, nonblank_app_l.
Qed.

Lemma kept_step (max_chunk_size overlap_size : Z) (st : Basic.Chunker)
    (sentence s : pystr) :
  nonblank s ->
  kept st s \/ s = sentence ->
  kept (Basic.add_sentence max_chunk_size overlap_size st sentence) s.
Proof.
  intros Hs Hk. unfold Basic.add_sentence.
  destruct (truthy (strip sentence)) eqn:Ht; simpl.
  2:{ destruct Hk as [Hk| ->]; [done|]. by rewrite nonblank_strip in Ht. }
  destruct ((max_chunk_size <? _)%Z && truthy (Basic.current_chunk st)) eqn:Hseal.
  - destruct Hk as [[(c & Hc & Hoc)|Hoc]| ->].
    + left. exists c. split; [|done]. simpl. apply elem_of_app. by left.
    + left. eexists. split; [simpl; apply elem_of_app; right; by left|].
      simpl. by apply occurs_strip.
    + right. simpl. exists (Basic.overlap_of overlap_size (Basic.current_chunk st)
                              ++ py " "), []. by rewrite app_nil_r, <- app_assoc.
  - destruct Hk as [[(c & Hc & Hoc)|Hoc]| ->].
    + left. by exists c.
    + right. simpl. destruct (truthy (Basic.current_chunk st)) eqn:Hc.
      * destruct Hoc as (pre & post & ->).
        exists pre, (post ++ py " " ++ sentence). by rewrite <- !app_assoc.
      * destruct (Basic.current_chunk st); [|done].
        by apply occurs_nil_nonblank in Hoc.
    + right. simpl. destruct (truthy (Basic.current_chunk st)).
      * exists (Basic.current_chunk st ++ py " "), [].
        by rewrite app_nil_r, <- app_assoc.
      * exists [], []. by rewrite app_nil_r.
Qed.

Lemma kept_fold (max_chunk_size overlap_size : Z) (sentences : list pystr) :
  forall st s, nonblank s -> kept st s \/ s ∈ sentences ->
    kept (fold_left (Basic.add_sentence max_chunk_size overlap_size) sentences st) s.
Proof.
  induction sentences as [|x sentences IH]; intros st s Hs Hk; simpl.
  - destruct Hk as [Hk|Hin]; [done|]. by apply elem_of_nil in Hin.
  - apply IH; [done|]. destruct Hk as [Hk|[->|Hin]%elem_of_cons].
    + left. apply kept_step; auto.
    + left. apply kept_step; auto.
    + by right.
Qed.

Lemma kept_chunk (max_chunk_size overlap_size : Z)
    (sentences : list pystr) (s : pystr) :
  s ∈ sentences -> nonblank s ->
  exists c, c ∈ Basic.assemble max_chunk_size overlap_size sentences /\
            occurs (strip s) (Basic.chunkText c).
Proof.
  intros Hin Hs. unfold Basic.assemble.
  pose proof (kept_fold max_chunk_size overlap_size sentences Basic.initial s Hs
                (or_intror Hin)) as Hk.
  revert Hk. generalize (fold_left (Basic.add_sentence max_chunk_size overlap_size)
                           sentences Basic.initial).
  intros st [(c & Hc & Hoc)|Hoc]; unfold Basic.finish.
  - exists c. split; [|done].
    destruct (truthy _); [apply elem_of_app; by left|done].
  - pose proof (occurs_nonblank _ _ Hs Hoc) as Hnb.
    rewrite (nonblank_strip _ Hnb).
    eexists. split; [apply elem_of_app; right; by left|].
    simpl. by apply occurs_strip.
Qed.

(** X4.  The chunker loses no sentence: every sentence that is not blank
    occurs, stripped, in the text of at least one chunk. *)
Theorem assemble_keeps_sentences (max_chunk_size overlap_size : Z)
    (sentences : list pystr) (s : pystr) :
  s ∈ sentences -> nonblank s ->
  exists c, c ∈ Basic.assemble max_chunk_size overlap_size sentences /\
            contains (strip s) (Basic.chunkText c) = true.
Proof.
  intros Hin Hs.
  destruct (kept_chunk max_chunk_size overlap_size sentences s Hin Hs)
    as (c & Hc & Hoc).
  exists c. split; [done|]. by apply contains_spec.
Qed.

(** The second of two sentences that do not fit into one chunk is found in
    the second chunk. *)
Lemma assemble_keeps_sentences_witness :
  exists c, c ∈ Basic.assemble 10 3 [py "ab cd e."; py "gh ij."] /\
            contains (strip (py "gh ij.")) (Basic.chunkText c) = true.
Proof.
  apply (assemble_keeps_sentences 10 3 [py "ab cd e."; py "gh ij."] (py "gh ij.")).
  - right. by left.
  - by left.
Defined.


(** *** Cleaning and splitting *)

Lemma collapse_spaces_only (in_run : bool) (s : pystr) :
  only_spaces (Basic.collapse_spaces in_run s).
Proof.
  revert in_run. induction s as [|c s IH]; intros in_run; simpl; [constructor|].
  destruct (isspace c) eqn:Hc.
  - destruct in_run; [apply IH|]. constructor; [done|apply IH].
  - constructor; [congruence|apply IH].
Qed.

Lemma collapse_spaces_length (in_run : bool) (s : pystr) :
  length (Basic.collapse_spaces in_run s) <= length s.
Proof.
  revert in_run. induction s as [|c s IH]; intros in_run; simpl; [done|].
  destruct (isspace c).
  - destruct in_run; simpl.
    + pose proof (IH true). lia.
    + pose proof (IH true). lia.
  - simpl. pose proof (IH false). lia.
Qed.

Lemma collapse_spaces_blank (s : pystr) :
  blank s -> forall in_run, blank (Basic.collapse_spaces in_run s).
Proof.
  induction 1 as [|c s Hc _ IH]; intros in_run; simpl; [constructor|].
  rewrite Hc. destruct in_run; [apply IH|]. constructor; [done|apply IH].
Qed.

Lemma span_digits_app (s : pystr) :
  s = fst (Basic.span_digits s) ++ snd (Basic.span_digits s).
Proof.
  induction s as [|c s IH]; [done|]. simpl.
  destruct (Basic.isdigit c); [|done].
  destruct (Basic.span_digits s) as [d r]. simpl in *. by rewrite <- IH.
Qed.

Lemma after_prefix_app (p s r : pystr) :
  Basic.after_prefix p s = Some r -> s = p ++ r.
Proof.
  revert s. induction p as [|a p IH]; intros s; simpl.
  - by intros [= ->].
  - destruct s as [|b s]; [done|].
    destruct (ascii_dec a b) as [->|]; [|done].
    intros H%IH. by rewrite H.
Qed.

Lemma match_page_of_suffix (s r : pystr) :
  Basic.match_page_of s = Some r -> r `suffix_of` s.
Proof.
  unfold Basic.match_page_of.
  destruct (Basic.after_prefix (py "Page ") s) as [r1|] eqn:H1; [|done].
  cbn [mbind option_bind].
  pose proof (span_digits_app r1) as H2.
  destruct (Basic.span_digits r1) as [d1 r2]. simpl in H2.
  destruct (negb (truthy d1)); [done|].
  destruct (Basic.after_prefix (py " of ") r2) as [r3|] eqn:H3; [|done].
  cbn [mbind option_bind].
  pose proof (span_digits_app r3) as H4.
  destruct (Basic.span_digits r3) as [d2 r4]. simpl in H4.
  destruct (negb (truthy d2)); [done|]. intros [= <-].
  apply after_prefix_app in H1, H3. subst.
  exists (py "Page " ++ d1 ++ py " of " ++ d2). by rewrite <- !app_assoc.
Qed.

Lemma drop_line_suffix (s : pystr) : Basic.drop_line s `suffix_of` s.
Proof.
  induction s as [|c s IH]; [done|]. simpl.
  destruct (ascii_dec c newline); [done|]. by apply suffix_cons_r.
Qed.

Lemma match_copyright_suffix (s r : pystr) :
  Basic.match_copyright s = Some r -> r `suffix_of` s.
Proof.
  unfold Basic.match_copyright.
  destruct (Basic.after_prefix Basic.copyright_mark s) as [r1|] eqn:H1; [|done].
  cbn [mbind option_bind].
  pose proof (span_digits_app r1) as H2.
  destruct (Basic.span_digits r1) as [d r2]. simpl in H2.
  destruct (negb (truthy d)); [done|]. intros [= <-].
  apply after_prefix_app in H1. subst.
  etransitivity; [apply drop_line_suffix|].
  exists (Basic.copyright_mark ++ d). by rewrite <- !app_assoc.
Qed.

Lemma suffix_sublist {A} (r s : list A) : r `suffix_of` s -> r `sublist_of` s.
Proof. intros [k ->]. by apply sublist_inserts_l. Qed.

Lemma Forall_sublist {A} (P : A -> Prop) (l1 l2 : list A) :
  Forall P l2 -> l1 `sublist_of` l2 -> Forall P l1.
Proof.
  intros Hall Hsub%sublist_subseteq. rewrite Forall_forall in *. auto.
Qed.

Lemma remove_page_of_sublist (fuel : nat) (s : pystr) :
  Basic.remove_page_of fuel s `sublist_of` s.
Proof.
  revert s. induction fuel as [|fuel IH]; intros s; [done|]. simpl.
  destruct s as [|c s]; [done|].
  destruct (Basic.match_page_of (c :: s)) as [r|] eqn:Hm.
  - etransitivity; [apply IH|]. by apply suffix_sublist, match_page_of_suffix.
  - by apply sublist_skip.
Qed.

Lemma remove_copyright_sublist (fuel : nat) (s : pystr) :
  Basic.remove_copyright fuel s `sublist_of` s.
Proof.
  revert s. induction fuel as [|fuel IH]; intros s; [done|]. simpl.
  destruct s as [|c s]; [done|].
  destruct (Basic.match_copyright (c :: s)) as [r|] eqn:Hm.
  - etransitivity; [apply IH|]. by apply suffix_sublist, match_copyright_suffix.
  - by apply sublist_skip.
Qed.

Lemma blank_page_number_sublist (s : pystr) :
  Basic.blank_page_number s `sublist_of` s.
Proof.
  unfold Basic.blank_page_number. destruct (Basic.span_digits s) as [d r].
  destruct (_ && _); [apply sublist_nil_l|done].
Qed.

Lemma strip_sublist (s : pystr) : strip s `sublist_of` s.
Proof.
  destruct (lstrip_decompose s) as (b & _ & Hs).
  destruct (rstrip_decompose (lstrip s)) as (b' & _ & Hs').
  fold (strip s) in Hs'.
  assert (s = b ++ strip s ++ b') as Heq by (by rewrite <- Hs').
  rewrite Heq at 2. apply sublist_inserts_l, sublist_inserts_r. done.
Qed.

Lemma preprocess_text_sublist (text : pystr) :
  Basic.preprocess_text text `sublist_of` Basic.collapse_spaces false text.
Proof.
  unfold Basic.preprocess_text.
  etransitivity; [apply strip_sublist|].
  etransitivity; [apply remove_copyright_sublist|].
  etransitivity; [apply remove_page_of_sublist|].
  apply blank_page_number_sublist.
Qed.

(** X5.  The text that [preprocess_text] returns has no white space at its
    ends, contains no white space other than the space character (no line
    break, no tab), and is never longer than the text it was given. *)
Theorem preprocess_text_shape (text : pystr) :
  let cleaned := Basic.preprocess_text text in
  strip cleaned = cleaned /\
  Forall (fun c => isspace c = true -> c = " "%char) cleaned /\
  length cleaned <= length text.
Proof.
  pose proof (preprocess_text_sublist text) as Hsub.
  split_and!.
  - unfold Basic.preprocess_text. apply strip_idem.
  - eapply Forall_sublist; [|exact Hsub]. apply collapse_spaces_only.
  - apply sublist_length in Hsub.
    pose proof (collapse_spaces_length false text). lia.
Qed.


Lemma split_sentences_nonblank (text : pystr) :
  forall st cur,
    nonblank text \/ (st <> Basic.InSeparator /\ nonblank cur) ->
    Exists nonblank (Basic.split_sentences st cur text).
Proof.
  induction text as [|c text IH]; intros st cur H; simpl.
  - destruct H as [H|[_ H]]; [by apply Exists_nil in H|].
    left. by apply nonblank_rev.
  - assert (isspace c = true -> nonblank (c :: text) -> nonblank text) as Htl.
    { intros Hc [Hc'|Ht]%Exists_cons; [congruence|done]. }
    destruct st as [|terminator].
    + destruct H as [H|[? _]]; [|done].
      destruct (isspace c) eqn:Hc.
      * apply IH. left. by apply Htl.
      * apply IH. right. split; [done|]. by left.
    + destruct (terminator && isspace c) eqn:Hsep.
      * apply andb_true_iff in Hsep as [_ Hc].
        destruct H as [H|[_ H]].
        -- right. apply IH. left. by apply Htl.
        -- left. by apply nonblank_rev.
      * apply IH. destruct H as [[Hc|Ht]%Exists_cons|[_ H]].
        -- right. split; [done|]. by left.
        -- by left.
        -- right. split; [done|]. by right.
Qed.

Lemma strip_nonempty_nonblank (s : pystr) : strip s <> [] -> nonblank (strip s).
Proof.
  intros Hne. destruct (blank_or_nonblank s) as [Hb|Hn].
  - by rewrite strip_blank in Hne.
  - by apply strip_nonblank.
Qed.

Lemma preprocess_text_blank (text : pystr) :
  blank text -> Basic.preprocess_text text = [].
Proof.
  intros Hb. unfold Basic.preprocess_text. apply strip_blank.
  eapply Forall_sublist; [apply (collapse_spaces_blank _ Hb false)|].
  etransitivity; [apply remove_copyright_sublist|].
  etransitivity; [apply remove_page_of_sublist|].
  apply blank_page_number_sublist.
Qed.

Lemma create_chunks_nil_iff (max_chunk_size overlap_size : Z) (text : pystr) :
  Basic.create_chunks max_chunk_size overlap_size text = []
  <-> Basic.preprocess_text text = [].
Proof.
  split.
  - intros Hnil.
    destruct (Basic.preprocess_text text) as [|c cleaned] eqn:Hc; [done|].
    exfalso.
    assert (nonblank (c :: cleaned)) as Hnb.
    { rewrite <- Hc. unfold Basic.preprocess_text in *.
      apply strip_nonempty_nonblank. by rewrite Hc. }
    pose proof (split_sentences_nonblank (c :: cleaned) (Basic.After false) []
                  (or_introl Hnb)) as Hex.
    apply Exists_exists in Hex as (s & Hin & Hs).
    destruct (kept_chunk max_chunk_size overlap_size _ s Hin Hs)
      as (ch & Hch & _).
    unfold Basic.create_chunks in Hnil. rewrite Hc in Hnil.
    rewrite Hnil in Hch. by apply elem_of_nil in Hch.
  - intros H. unfold Basic.create_chunks. rewrite H. reflexivity.
Qed.

(** X6.  [create_chunks] returns no chunk exactly when nothing is left of the
    text after cleaning, which is the case for every text that is empty or
    white space only: a text with any content left gives at least one
    chunk. *)
Theorem create_chunks_empty (max_chunk_size overlap_size : Z) (text : pystr) :
  (Basic.create_chunks max_chunk_size overlap_size text = []
   <-> Basic.preprocess_text text = []) /\
  (blank text -> Basic.create_chunks max_chunk_size overlap_size text = []).
Proof.
  split; [apply create_chunks_nil_iff|].
  intros Hb. by apply create_chunks_nil_iff, preprocess_text_blank.
Qed.


(** ** The assembler of [advanced_document_processor.py] *)

Lemma str_of_nat_inj (i j : nat) : str_of_nat i = str_of_nat j -> i = j.
Proof.
  unfold str_of_nat, py. intros H.
  apply (f_equal string_of_list_ascii) in H.
  rewrite !string_of_list_ascii_of_string in H.
  apply (f_equal NilEmpty.uint_of_string) in H.
  rewrite !NilEmpty.usu in H. injection H as H.
  by apply DecimalNat.Unsigned.to_uint_inj.
Qed.

Lemma clean_strip (s : pystr) : truthy (strip s) = true -> clean (strip s).
Proof.
  intros Ht. split; [by destruct (strip s)|apply strip_idem].
Qed.

Lemma clean_ends (s : pystr) :
  clean s -> exists c t, s = c :: t /\ isspace c = false /\ rstrip s = s.
Proof.
  intros [Hne Hs]. apply strip_fixed_ends in Hs as [Hl Hr].
  destruct s as [|c t]; [done|]. exists c, t. split; [done|]. split; [|done].
  by eapply lstrip_head.
Qed.

Lemma clean_nonblank (s : pystr) : clean s -> nonblank s.
Proof. intros (c & t & -> & Hc & _)%clean_ends. by left. Qed.

Lemma join_snoc (sep : pystr) (l : list pystr) (x : pystr) :
  l <> [] -> join sep (l ++ [x]) = join sep l ++ sep ++ x.
Proof.
  induction l as [|y l IH]; [done|]. intros _.
  destruct l as [|z l]; [done|].
  change (join sep ((y :: z :: l) ++ [x])) with (y ++ sep ++ join sep ((z :: l) ++ [x])).
  rewrite IH by done.
  change (join sep (y :: z :: l)) with (y ++ sep ++ join sep (z :: l)).
  by rewrite <- !app_assoc.
Qed.

Lemma join_clean (run : list pystr) :
  run <> [] -> Forall clean run ->
  exists c t, join (py " ") run = c :: t /\ isspace c = false
              /\ rstrip (join (py " ") run) = join (py " ") run.
Proof.
  intros Hne Hall. induction Hall as [|x run Hx Hall IH]; [done|].
  destruct (clean_ends x Hx) as (c & t & -> & Hc & Hr).
  destruct run as [|y run].
  - by exists c, t.
  - destruct IH as (c' & t' & HJ & Hc' & Hr'); [done|].
    change (join (py " ") ((c :: t) :: y :: run))
      with ((c :: t) ++ py " " ++ join (py " ") (y :: run)).
    exists c, (t ++ py " " ++ join (py " ") (y :: run)).
    split; [done|]. split; [done|].
    rewrite app_assoc. rewrite rstrip_app.
    + by rewrite Hr'.
    + rewrite HJ. by left.
Qed.

Lemma strip_join_clean (run : list pystr) :
  run <> [] -> Forall clean run -> strip (join (py " ") run) = join (py " ") run.
Proof.
  intros Hne Hall. destruct (join_clean run Hne Hall) as (c & t & HJ & Hc & Hr).
  apply strip_fixed_intro; [|done]. rewrite HJ. by apply lstrip_fixed.
Qed.

Lemma truthy_join_clean (run : list pystr) :
  Forall clean run -> truthy (join (py " ") run) = true <-> run <> [].
Proof.
  intros Hall. split.
  - by intros H ->.
  - intros Hne. destruct (join_clean run Hne Hall) as (c & t & -> & _). done.
Qed.

Lemma assembled_step (document_id : pystr) (st : Legal.Assembler)
    (runs : list (list pystr)) (run : list pystr) (sentence : pystr) :
  clean sentence -> assembled st runs run ->
  exists runs' run',
    assembled (Legal.add_sentence document_id st sentence) runs' run' /\
    List.concat runs' ++ run' = (List.concat runs ++ run) ++ [sentence].
Proof.
  intros Hs (Hc & Hne & Hcur & Hrun). unfold Legal.add_sentence.
  destruct ((1000 <? _) && truthy (Legal.current_chunk st)) eqn:Hseal.
  - apply andb_true_iff in Hseal as [_ Ht].
    rewrite Hcur in Ht. apply truthy_join_clean in Ht; [|done].
    exists (runs ++ [run]), [sentence]. split.
    + split_and!; simpl.
      * rewrite !map_app, Hc. simpl. f_equal. f_equal.
        rewrite Hcur. by apply strip_join_clean.
      * apply Forall_app. split; [done|]. by constructor.
      * done.
      * by constructor.
    + rewrite concat_app. simpl. by rewrite app_nil_r, <- app_assoc.
  - exists runs, (run ++ [sentence]). split; [|by rewrite <- app_assoc].
    split_and!; simpl; [done|done| |].
    + rewrite Hcur.
      destruct (truthy (join (py " ") run)) eqn:Ht.
      * apply truthy_join_clean in Ht; [|done]. by rewrite join_snoc.
      * destruct run as [|y run]; [done|].
        assert (truthy (join (py " ") (y :: run)) = true) as Ht'
          by (by apply truthy_join_clean).
        congruence.
    + apply Forall_app. split; [done|]. by constructor.
Qed.

Lemma assembled_fold (document_id : pystr) (sentences : list pystr) :
  Forall clean sentences ->
  forall st runs run, assembled st runs run ->
    exists runs' run',
      assembled (fold_left (Legal.add_sentence document_id) sentences st) runs' run' /\
      List.concat runs' ++ run' = (List.concat runs ++ run) ++ sentences.
Proof.
  induction 1 as [|s sentences Hs _ IH]; intros st runs run Hst.
  - exists runs, run. by rewrite app_nil_r.
  - destruct (assembled_step document_id st runs run s Hs Hst)
      as (runs1 & run1 & Hst1 & Heq1).
    destruct (IH _ _ _ Hst1) as (runs2 & run2 & Hst2 & Heq2).
    exists runs2, run2. split; [done|].
    rewrite Heq2, Heq1. by rewrite <- app_assoc.
Qed.

Lemma assemble_runs (document_id : pystr) (sentences : list pystr) :
  Forall clean sentences ->
  exists runs,
    List.concat runs = sentences /\
    Forall (fun r => r <> []) runs /\
    map Legal.content (Legal.assemble document_id sentences)
    = map (join (py " ")) runs.
Proof.
  intros Hall. unfold Legal.assemble.
  destruct (assembled_fold document_id sentences Hall
              {| Legal.chunks := []; Legal.current_chunk := [];
                 Legal.chunk_start := 0; Legal.next_index := 0 |} [] [])
    as (runs & run & (Hc & Hne & Hcur & Hrun) & Heq).
  { split_and!; [done|constructor|done|constructor]. }
  simpl in Heq. revert Hc Hne Hcur Hrun Heq.
  generalize (fold_left (Legal.add_sentence document_id) sentences
    {| Legal.chunks := []; Legal.current_chunk := [];
       Legal.chunk_start := 0; Legal.next_index := 0 |}).
  intros st Hc Hne Hcur Hrun Heq.
  destruct (truthy (Legal.current_chunk st)) eqn:Ht.
  - rewrite Hcur in Ht. apply truthy_join_clean in Ht; [|done].
    exists (runs ++ [run]). split_and!.
    + rewrite concat_app. simpl. by rewrite app_nil_r.
    + apply Forall_app. split; [done|]. by constructor.
    + rewrite !map_app, Hc. simpl. f_equal. f_equal.
      rewrite Hcur. by apply strip_join_clean.
  - destruct run as [|y run].
    + exists runs. rewrite app_nil_r in Heq. done.
    + assert (truthy (join (py " ") (y :: run)) = true) as Ht'
        by (by apply truthy_join_clean).
      rewrite Hcur in Ht. congruence.
Qed.

Lemma split_into_sentences_clean
    (nlp : pystr -> result Legal.Doc)
    (sent_tokenize : pystr -> result (list pystr)) (text : pystr) (doc : Legal.Doc) :
  nlp text = Ok doc ->
  Legal._split_into_sentences nlp sent_tokenize text
  = Ok (List.filter truthy (map strip (Legal.sents doc))) /\
  Forall clean (List.filter truthy (map strip (Legal.sents doc))).
Proof.
  intros Hnlp. unfold Legal._split_into_sentences. rewrite Hnlp.
  split; [done|]. apply Forall_forall. intros s Hs.
  apply list_elem_of_In, filter_In in Hs as [Hin Ht].
  apply in_map_iff in Hin as (t & <- & _). by apply clean_strip.
Qed.

(** X7.  When spaCy finds the sentences, the chunks of
    [_create_intelligent_chunks] cut the sentence list into consecutive runs:
    every chunk's content is the sentences of one run joined by single
    spaces, no run is empty, and the runs, put end to end, are the stripped
    non-empty sentences in their order; so each sentence is in exactly one
    chunk and none is lost or repeated. *)
Theorem legal_chunks_are_runs
    (nlp : pystr -> result Legal.Doc)
    (sent_tokenize : pystr -> result (list pystr))
    (content document_id : pystr) (doc : Legal.Doc) :
  nlp content = Ok doc ->
  exists runs,
    List.concat runs = List.filter truthy (map strip (Legal.sents doc)) /\
    Forall (fun r => r <> []) runs /\
    map Legal.content
      (Legal._create_intelligent_chunks nlp sent_tokenize content document_id)
    = map (join (py " ")) runs.
Proof.
  intros Hnlp.
  destruct (split_into_sentences_clean nlp sent_tokenize content doc Hnlp)
    as [Hsplit Hclean].
  unfold Legal._create_intelligent_chunks. rewrite Hsplit.
  by apply assemble_runs.
Qed.


(** Two sentences that spaCy returns with white space around them. *)
Lemma legal_chunks_are_runs_witness :
  let nlp := fun _ : pystr =>
    Ok {| Legal.ents := []; Legal.sents := [py "One. "; py "  "; py " Two."] |} in
  exists runs,
    List.concat runs = [py "One."; py "Two."] /\
    Forall (fun r => r <> []) runs /\
    map Legal.content
      (Legal._create_intelligent_chunks nlp (fun _ => Ok []) (py "One.    Two.")
         (py "doc"))
    = map (join (py " ")) runs.
Proof.
  intros nlp.
  exact (legal_chunks_are_runs nlp (fun _ => Ok []) (py "One.    Two.") (py "doc")
           _ eq_refl).
Defined.

Lemma legal_inv_step (document_id : pystr) (st : Legal.Assembler) (sentence : pystr) :
  legal_inv document_id st ->
  legal_inv document_id (Legal.add_sentence document_id st sentence).
Proof.
  intros (Hpos & Hall). unfold Legal.add_sentence.
  destruct ((1000 <? _) && truthy (Legal.current_chunk st)) eqn:Hseal; [|done].
  apply andb_true_iff in Hseal as [_ Ht].
  split; simpl; [lia|].
  rewrite Nat.add_1_r, seq_S. apply Forall2_app; [done|].
  constructor; [|constructor]. exists (Legal.current_chunk st).
  split; [by destruct (Legal.current_chunk st)|]. by rewrite Hpos.
Qed.

Lemma legal_normal_form (document_id : pystr) (sentences : list pystr) :
  let chunks := Legal.assemble document_id sentences in
  Forall2 (fun k c => exists buffer,
             buffer <> [] /\
             c = Legal.new_chunk document_id k (strip buffer) 0
                   (Z.of_nat (length buffer)))
    (seq 0 (length chunks)) chunks.
Proof.
  unfold Legal.assemble.
  assert (forall st, legal_inv document_id st ->
            legal_inv document_id
              (fold_left (Legal.add_sentence document_id) sentences st)) as Hfold.
  { induction sentences as [|s sentences IH]; intros st Hst; [done|].
    simpl. by apply IH, legal_inv_step. }
  match goal with |- context [fold_left _ _ ?st0] =>
    destruct (Hfold st0) as (Hpos & Hall); [split; [done|constructor]|];
    revert Hpos Hall; generalize (fold_left (Legal.add_sentence document_id)
                                    sentences st0) end.
  intros st Hpos Hall.
  pose proof (Forall2_length _ _ _ Hall) as Hlen. rewrite length_seq in Hlen.
  destruct (truthy (Legal.current_chunk st)) eqn:Ht.
  - rewrite length_app. simpl. rewrite Nat.add_1_r, seq_S.
    apply Forall2_app; [by rewrite <- Hlen|].
    constructor; [|constructor]. exists (Legal.current_chunk st).
    split; [by destruct (Legal.current_chunk st)|]. by rewrite <- Hlen, Hpos.
  - by rewrite <- Hlen.
Qed.

Lemma chunk_id_inj (document_id : pystr) (i j : nat) :
  document_id ++ py "_chunk_" ++ str_of_nat i
  = document_id ++ py "_chunk_" ++ str_of_nat j -> i = j.
Proof.
  intros H. apply app_inv_head in H. apply app_inv_head in H.
  by apply str_of_nat_inj.
Qed.

Lemma legal_normal_form_ids (document_id : pystr)
    (chunks : list Legal.ChunkMetadata) :
  forall k,
    Forall2 (fun k c => exists buffer,
               buffer <> [] /\
               c = Legal.new_chunk document_id k (strip buffer) 0
                     (Z.of_nat (length buffer)))
      (seq k (length chunks)) chunks ->
    map Legal.chunk_index chunks = map Z.of_nat (seq k (length chunks)) /\
    map Legal.chunk_id chunks
    = map (fun k => document_id ++ py "_chunk_" ++ str_of_nat k)
        (seq k (length chunks)).
Proof.
  induction chunks as [|c chunks IH]; intros k Hnf; [done|].
  simpl in Hnf. apply Forall2_cons in Hnf as [(buffer & _ & ->) Hnf].
  destruct (IH _ Hnf) as [H1 H2]. simpl. by rewrite H1, H2.
Qed.


(** X9.  With sentences of at most [longest] characters, no chunk of the
    sentence assembler is longer than the larger of 1001 and [longest]: the
    space that joins two sentences is not counted when the size is checked
    against 1000, and a sentence longer than that is never split. *)
Theorem legal_assemble_chunk_length (document_id : pystr) (longest : nat)
    (sentences : list pystr) :
  Forall (fun s => length s <= longest) sentences ->
  Forall (fun c => length (Legal.content c) <= Nat.max 1001 longest)
    (Legal.assemble document_id sentences).
Proof.
  intros Hlong.
  set (bound := Nat.max 1001 longest).
  set (P := fun c : Legal.ChunkMetadata => length (Legal.content c) <= bound).
  assert (forall st,
            length (Legal.current_chunk st) <= bound ->
            Forall P (Legal.chunks st) ->
            let st' := fold_left (Legal.add_sentence document_id) sentences st in
            length (Legal.current_chunk st') <= bound /\
            Forall P (Legal.chunks st')) as Hinv.
  { induction Hlong as [|s sentences Hs _ IH]; intros st Hcur Hall; [done|].
    cbn [fold_left]. apply IH.
    - unfold Legal.add_sentence.
      destruct (1000 <? _) eqn:Hlt; cbn [andb].
      + destruct (truthy (Legal.current_chunk st)) eqn:Ht;
          cbn [Legal.current_chunk]; [unfold bound; lia|].
        destruct (Legal.current_chunk st); [|done]. unfold bound. lia.
      + apply Nat.ltb_ge in Hlt. cbn [Legal.current_chunk].
        destruct (truthy (Legal.current_chunk st)) eqn:Ht.
        * rewrite !length_app. cbn [length py list_ascii_of_string].
          unfold bound. lia.
        * unfold bound. lia.
    - unfold Legal.add_sentence.
      destruct ((1000 <? _) && truthy (Legal.current_chunk st));
        cbn [Legal.chunks]; [|done].
      apply Forall_app. split; [done|]. constructor; [|constructor].
      unfold P. cbn [Legal.content Legal.new_chunk].
      pose proof (length_strip (Legal.current_chunk st)). lia. }
  unfold Legal.assemble.
  match goal with |- context [fold_left _ _ ?st0] =>
    destruct (Hinv st0) as [Hcur Hall] end.
  { cbn [Legal.current_chunk length]. unfold bound. lia. }
  { constructor. }
  destruct (truthy _); [|done].
  apply Forall_app. split; [done|]. constructor; [|constructor].
  unfold P. cbn [Legal.content Legal.new_chunk].
  match goal with |- context [strip ?b] => pose proof (length_strip b) end. lia.
Qed.

(** Two sentences of 500 characters fit under the limit of 1000 and make one
    chunk of 1001 characters. *)
Lemma legal_assemble_chunk_length_witness :
  let sentences := [repeat "a"%char 499 ++ py "."; repeat "b"%char 499 ++ py "."] in
  Forall (fun c => length (Legal.content c) <= Nat.max 1001 500)
    (Legal.assemble (py "doc") sentences) /\
  map (fun c => length (Legal.content c)) (Legal.assemble (py "doc") sentences)
  = [1001].
Proof.
  intros sentences. split.
  - apply (legal_assemble_chunk_length (py "doc") 500 sentences).
    repeat constructor; vm_compute; discriminate.
  - vm_compute. reflexivity.
Defined.


(** ** The fallback chunker of [advanced_document_processor.py] *)

(** [range(i, n, step)] lists [i], [i + step], ... below [n]. *)
Lemma range_step_multiples (step n : nat) :
  0 < step ->
  forall fuel i, n - i <= fuel ->
    Legal.range_step fuel i n step
    = map (fun k => i + k * step) (seq 0 ((n - i + (step - 1)) / step)).
Proof.
  intros Hstep.
  assert (forall i, n <= i -> (n - i + (step - 1)) / step = 0) as Hzero.
  { intros i Hi. apply Nat.div_small. lia. }
  induction fuel as [|fuel IH]; intros i Hfuel; simpl.
  - by rewrite Hzero by lia.
  - destruct (i <? n) eqn:Hlt.
    + apply Nat.ltb_lt in Hlt. rewrite IH by lia.
      assert ((n - i + (step - 1)) / step
              = S ((n - (i + step) + (step - 1)) / step)) as ->.
      { replace (n - i + (step - 1)) with (1 * step + (n - i - 1)) by lia.
        rewrite Nat.div_add_l by lia.
        destruct (le_lt_dec step (n - i)) as [Hge|Hsmall].
        - replace (n - (i + step) + (step - 1)) with (n - i - 1) by lia. lia.
        - replace (n - (i + step) + (step - 1)) with (step - 1) by lia.
          rewrite !Nat.div_small by lia. lia. }
      simpl. f_equal; [lia|].
      rewrite <- seq_shift, map_map. apply map_ext. intros k. lia.
    + apply Nat.ltb_ge in Hlt. by rewrite Hzero.
Qed.

Lemma simple_chunks_closed_form (content document_id : pystr) :
  Legal._create_simple_chunks content document_id
  = map (fun k =>
           Legal.new_chunk document_id k
             (take 1000 (drop (k * 800) content))
             (Z.of_nat (k * 800))
             (Z.of_nat (Nat.min (k * 800 + 1000) (length content))))
      (seq 0 ((length content + 799) / 800)).
Proof.
  unfold Legal._create_simple_chunks. cbv zeta.
  rewrite (range_step_multiples (1000 - 200) (length content)) by lia.
  rewrite map_map. rewrite Nat.sub_0_r.
  replace (1000 - 200 - 1) with 799 by lia.
  replace (1000 - 200) with 800 by lia.
  apply map_ext. intros k. rewrite Nat.add_0_l.
  by rewrite Nat.div_mul by lia.
Qed.

Lemma take_drop_min {A} (l : list A) (i w : nat) :
  take w (drop i l) = take (Nat.min (i + w) (length l) - i) (drop i l).
Proof.
  destruct (le_lt_dec (length l) (i + w)) as [Hle|Hlt].
  - rewrite Nat.min_r by lia. rewrite !take_ge; [done| |]; rewrite length_drop; lia.
  - rewrite Nat.min_l by lia. f_equal. lia.
Qed.

Lemma concat_take_windows {A} (step : nat) (l : list A) :
  0 < step ->
  forall m i, length l - i <= m * step ->
    List.concat (map (fun k => take step (drop (i + k * step) l)) (seq 0 m))
    = drop i l.
Proof.
  intros Hstep. induction m as [|m IH]; intros i Hm; simpl.
  - rewrite drop_ge by lia. done.
  - rewrite Nat.add_0_r. rewrite <- seq_shift, map_map.
    rewrite (map_ext _ (fun k => take step (drop (i + step + k * step) l))).
    2:{ intros k. f_equal. f_equal. lia. }
    rewrite IH by lia.
    rewrite <- (take_drop step (drop i l)) at 2. by rewrite drop_drop.
Qed.

(** X10.  The fallback chunker cuts the content into windows of 1000
    characters that start every 800 characters: chunk [k] is
    [content[800 k : 800 k + 1000]], its index is [k], and its recorded
    positions are the true offsets of its content, so slicing the content by
    them gives the chunk back.  There are [ceil(len / 800)] chunks (none for
    an empty content); each window starts with the last 200 characters of the
    one before it, and the first 800 characters of the windows, put end to
    end, are the content. *)
Theorem simple_chunks_windows (content document_id : pystr) :
  let chunks := Legal._create_simple_chunks content document_id in
  length chunks = (length content + 799) / 800 /\
  (forall k c, chunks !! k = Some c ->
     Legal.chunk_index c = Z.of_nat k /\
     Legal.chunk_id c = document_id ++ py "_chunk_" ++ str_of_nat k /\
     Legal.start_position c = Z.of_nat (800 * k) /\
     Legal.end_position c
     = Z.of_nat (Nat.min (800 * k + 1000) (length content)) /\
     (Legal.start_position c < Legal.end_position c)%Z /\
     Legal.content c
     = substring (Legal.start_position c) (Legal.end_position c) content /\
     (forall c', chunks !! (k + 1) = Some c' ->
        drop 800 (Legal.content c) = take 200 (Legal.content c'))) /\
  List.concat (map (fun c => take 800 (Legal.content c)) chunks) = content.
Proof.
  cbv zeta. rewrite simple_chunks_closed_form.
  set (n := (length content + 799) / 800).
  assert (forall k, k < n -> 800 * k < length content) as Hlt.
  { intros k Hk. unfold n in Hk.
    pose proof (Nat.div_mod_eq (length content + 799) 800) as Hd.
    pose proof (Nat.mod_upper_bound (length content + 799) 800). lia. }
  split_and!.
  - by rewrite length_map, length_seq.
  - intros k c Hc. rewrite list_lookup_fmap in Hc.
    destruct (seq 0 n !! k) as [k'|] eqn:Hk; [|done].
    apply lookup_seq in Hk as [-> Hk]. injection Hc as <-. simpl.
    replace (k * 800) with (800 * k) by lia.
    split_and!; try done.
    + specialize (Hlt k Hk). lia.
    + unfold substring. rewrite !Nat2Z.id.
      replace (Z.to_nat (Z.of_nat (Nat.min (800 * k + 1000) (length content))
                         - Z.of_nat (800 * k)))
        with (Nat.min (800 * k + 1000) (length content) - 800 * k) by lia.
      apply take_drop_min.
    + intros c' Hc'. rewrite list_lookup_fmap in Hc'.
      destruct (seq 0 n !! (k + 1)) as [k'|] eqn:Hk'; [|done].
      apply lookup_seq in Hk' as [-> _]. injection Hc' as <-. simpl.
      replace 1000 with (800 + 200) at 1 by lia.
      rewrite <- take_drop_commute, drop_drop, take_take.
      replace (Nat.min 200 1000) with 200 by lia.
      f_equal. f_equal. lia.
  - rewrite map_map. simpl.
    rewrite (map_ext _ (fun k => take 800 (drop (0 + k * 800) content))).
    2:{ intros k. rewrite take_take. by replace (Nat.min 800 1000) with 800 by lia. }
    rewrite concat_take_windows; [done|lia|].
    unfold n. pose proof (Nat.div_mod_eq (length content + 799) 800) as Hd.
    pose proof (Nat.mod_upper_bound (length content + 799) 800). lia.
Qed.


(** ** Keywords and importance in [advanced_document_processor.py] *)

Lemma StronglySorted_take {A} (R : relation A) (l : list A) (n : nat) :
  StronglySorted R l -> StronglySorted R (take n l).
Proof. apply sublist_StronglySorted, sublist_take. Qed.

(** X11.  [_extract_keywords] returns at most five keywords: the features the
    vectoriser gave a positive score among the first five of its features
    sorted by descending score, where the sort is stable, so that features
    of equal score stay in the order of the vectoriser; and no keyword at all
    when the vectoriser raises. *)
Theorem extract_keywords_best_five
    (tfidf : pystr -> result (list (pystr * Q))) (text : pystr) :
  let keywords := Legal._extract_keywords tfidf text in
  length keywords <= 5 /\
  (forall e, tfidf text = Raise e -> keywords = []) /\
  (forall features, tfidf text = Ok features ->
     exists ranked,
       ranked ≡ₚ features /\
       StronglySorted (fun a b => (snd b <= snd a)%Q) ranked /\
       (forall q,
          List.filter (fun ks => Qeq_bool (snd ks) q) ranked
          = List.filter (fun ks => Qeq_bool (snd ks) q) features) /\
       (forall a b, a ∈ take 5 ranked -> b ∈ drop 5 ranked -> (snd b <= snd a)%Q) /\
       keywords
       = map fst (List.filter (fun ks => gtb (snd ks) 0) (take 5 ranked))).
Proof.
  cbv zeta. unfold Legal._extract_keywords.
  destruct (tfidf text) as [features|e]; [|split_and!; [simpl; lia|done|done]].
  rewrite slice_to_nonneg by lia. change (Z.to_nat 5) with 5.
  pose proof (sort_desc_perm snd features) as Hperm.
  pose proof (sort_desc_sorted snd features) as Hsorted.
  pose proof (fun q => sort_desc_stable snd q features) as Hstable.
  revert Hperm Hsorted Hstable. generalize (sort_desc snd features).
  intros ranked Hperm Hsorted Hstable.
  split_and!.
  - rewrite length_map.
    etransitivity; [apply List.filter_length_le|].
    rewrite length_take. lia.
  - done.
  - intros ? [= <-]. exists ranked. split_and!.
    + done.
    + done.
    + exact Hstable.
    + intros a b Ha Hb. rewrite <- (take_drop 5 ranked) in Hsorted.
      by eapply (StronglySorted_app_1_elem_of _ _ _ a b) in Hsorted.
    + done.
Qed.

Lemma Q_of_nat_nonneg (n : nat) : (0 <= inject_Z (Z.of_nat n))%Q.
Proof. unfold Qle. simpl. lia. Qed.

Lemma min2_le_r (a b : Q) : (Legal.min2 a b <= b)%Q.
Proof.
  unfold Legal.min2. destruct (gtb a b) eqn:H.
  - apply Qle_refl.
  - by apply gtb_false.
Qed.

Lemma min2_ge (a b c : Q) : (c <= a)%Q -> (c <= b)%Q -> (c <= Legal.min2 a b)%Q.
Proof. intros. unfold Legal.min2. by destruct (gtb a b). Qed.

Lemma fold_entities_ge (entities : list Legal.Entity) (score : Q) :
  (score <=
   fold_left (fun score entity =>
                if bool_decide (Legal.ent_label entity ∈ Legal.high_value_labels)
                then score + (5 # 100) else score) entities score)%Q.
Proof.
  revert score. induction entities as [|e entities IH]; intros score; simpl.
  - apply Qle_refl.
  - eapply Qle_trans; [|apply IH].
    destruct (bool_decide _); [|apply Qle_refl].
    rewrite <- (Qplus_0_r score) at 1. apply Qplus_le_r. done.
Qed.

(** The importance score of a text lies between 0 and 1. *)
Lemma importance_score_range
    (nlp : pystr -> result Legal.Doc)
    (finditer_legal_terms finditer_case_reference finditer_statute_reference :
       pystr -> list pystr)
    (list_set : list pystr -> list pystr) (text : pystr) :
  let score := Legal._calculate_importance_score nlp finditer_legal_terms
                 finditer_case_reference finditer_statute_reference list_set text in
  (0 <= score)%Q /\ (score <= 1)%Q.
Proof.
  cbv zeta. unfold Legal._calculate_importance_score. cbv zeta.
  split; [|apply min2_le_r].
  apply min2_ge; [|done].
  set (s1 := (0 + inject_Z (Z.of_nat (length _)) * (1 # 10))%Q).
  assert (0 <= s1)%Q as H1.
  { unfold s1. rewrite Qplus_0_l. apply Qmult_le_0_compat; [apply Q_of_nat_nonneg|done]. }
  pose proof (fold_entities_ge
                (Legal._extract_entities nlp text) s1) as H2.
  set (s2 := fold_left _ _ s1) in *.
  assert (0 <= s2)%Q as H2' by (by eapply Qle_trans).
  rewrite <- (Qplus_0_r 0). apply Qplus_le_compat.
  - rewrite <- (Qplus_0_r 0). apply Qplus_le_compat; [done|].
    apply Qmult_le_0_compat; [apply Q_of_nat_nonneg|done].
  - apply Qmult_le_0_compat; [apply Q_of_nat_nonneg|done].
Qed.


(** ** More on the consolidation of [advanced_document_processor.py] *)

(** Either [_merge_chunks] hands its input back, or its output is made of
    the merge-groups of the matrix scikit-learn returned. *)
Lemma merge_chunks_cases
    (cosine1 : list Embedding -> result Matrix)
    (list_set : list pystr -> list pystr)
    (chunks : list Legal.ChunkMetadata) (embeddings : list Embedding) :
  Legal._merge_chunks cosine1 list_set chunks embeddings = chunks \/
  exists m,
    cosine1 embeddings = Ok m /\ 1 < length chunks /\
    Forall2 (fun g c => legal_group_chunk list_set chunks g = Some c)
      (groups_from (length chunks) m (seq 0 (length chunks)) ∅)
      (Legal._merge_chunks cosine1 list_set chunks embeddings).
Proof.
  unfold Legal._merge_chunks.
  destruct (Legal.merge_body cosine1 list_set chunks embeddings)
    as [out|e] eqn:Hbody; [|by left].
  unfold Legal.merge_body in Hbody.
  destruct (length chunks <=? 1) eqn:Hlen; [left; by injection Hbody as <-|].
  apply Nat.leb_gt in Hlen.
  destruct (cosine1 embeddings) as [m|] eqn:Hcos; [|done].
  cbn [mbind result_bind] in Hbody.
  apply legal_merge_loop_spec in Hbody as (out' & -> & Hall).
  - right. exists m. rewrite enumerate_fst in Hall. done.
  - apply enumerate_lookup.
  - rewrite enumerate_fst. apply seq_StronglySorted.
Qed.

Lemma mapM_lookup_elem {A} (l : list A) (idxs : list nat) (ms : list A) :
  mapM (fun i => l !! i) idxs = Some ms -> Forall (fun x => x ∈ l) ms.
Proof.
  intros H%mapM_Some. induction H as [|i x idxs ms Hi _ IH]; constructor; [|done].
  by eapply list_elem_of_lookup_2.
Qed.

Lemma merged_importance (list_set : list pystr -> list pystr)
    (a : Legal.ChunkMetadata) (members : list Legal.ChunkMetadata)
    (last : Legal.ChunkMetadata) :
  Legal.importance_score (Legal.merged_chunk list_set a members last)
  ∈ map Legal.importance_score (a :: members).
Proof.
  unfold Legal.merged_chunk. cbn [Legal.importance_score].
  destruct members as [|x xs].
  - simpl. unfold Legal.max2. destruct (gtb _ _); by left.
  - cbn [map].
    destruct (max2_of_max (Legal.importance_score a)
                (Legal.importance_score x :: map Legal.importance_score xs) _
                (max_list_spec (Legal.importance_score x)
                   (map Legal.importance_score xs))) as [H _].
    exact H.
Qed.

Lemma legal_group_chunk_anchor (list_set : list pystr -> list pystr)
    (chunks : list Legal.ChunkMetadata) (g : list nat) (c : Legal.ChunkMetadata) :
  legal_group_chunk list_set chunks g = Some c ->
  exists a, chunks !! anchor g = Some a /\ identity c = identity a /\
            Legal.importance_score c ∈ map Legal.importance_score chunks.
Proof.
  unfold legal_group_chunk. intros H.
  destruct (chunks !! anchor g) as [a|] eqn:Ha; [|done].
  cbn [mbind option_bind] in H.
  destruct (mapM (fun idx => chunks !! idx) (tail g)) as [members|] eqn:Hm; [|done].
  cbn [mbind option_bind] in H. exists a. split; [done|].
  pose proof (list_elem_of_lookup_2 _ _ _ Ha) as Hin.
  destruct members as [|x members]; injection H as <-.
  - split; [done|]. by apply list_elem_of_fmap_2.
  - split; [done|].
    match goal with
    | |- Legal.importance_score (Legal.merged_chunk _ _ _ ?l) ∈ _ =>
        pose proof (merged_importance list_set a (x :: members) l) as Himp
    end.
    apply list_elem_of_fmap in Himp as (y & -> & Hy).
    apply list_elem_of_fmap_2.
    apply elem_of_cons in Hy as [->|Hy]; [done|].
    apply mapM_lookup_elem in Hm. rewrite Forall_forall in Hm. by apply Hm.
Qed.

Lemma map_lookup_seq {A B} (f : A -> B) (d : B) (l : list A) :
  map f l = map (fun i => from_option f d (l !! i)) (seq 0 (length l)).
Proof.
  induction l as [|x l IH]; [done|]. simpl. f_equal.
  rewrite <- seq_shift, map_map. exact IH.
Qed.

Lemma sublist_map {A B} (f : A -> B) (l1 l2 : list A) :
  l1 `sublist_of` l2 -> map f l1 `sublist_of` map f l2.
Proof.
  induction 1; simpl; [constructor|by apply sublist_skip|by apply sublist_cons].
Qed.

Lemma sublist_lookup_anchors {A B} (f : A -> B) (d : B) (l : list A)
    (gs : list (list nat)) (out : list A) :
  sublist (map anchor gs) (seq 0 (length l)) ->
  Forall2 (fun g c => exists a, l !! anchor g = Some a /\ f c = f a) gs out ->
  sublist (map f out) (map f l).
Proof.
  intros Hsub Hall.
  assert (map f out = map (fun i => from_option f d (l !! i)) (map anchor gs)) as ->.
  { clear Hsub. induction Hall as [|g c gs out (a & Ha & Hc) _ IH]; [done|].
    simpl. by rewrite Ha, IH, Hc. }
  rewrite (map_lookup_seq f d l). by apply sublist_map.
Qed.

Lemma merge_chunks_identity_sublist
    (cosine1 : list Embedding -> result Matrix)
    (list_set : list pystr -> list pystr)
    (chunks : list Legal.ChunkMetadata) (embeddings : list Embedding) :
  map identity (Legal._merge_chunks cosine1 list_set chunks embeddings)
  `sublist_of` map identity chunks.
Proof.
  destruct (merge_chunks_cases cosine1 list_set chunks embeddings)
    as [->|(m & _ & _ & Hall)]; [done|].
  apply (sublist_lookup_anchors identity ([], [], 0%Z, 0%Z, [], [])
           chunks (groups_from (length chunks) m (seq 0 (length chunks)) ∅)).
  - apply groups_from_anchors.
  - eapply Forall2_impl; [exact Hall|]. intros g c Hg.
    apply legal_group_chunk_anchor in Hg as (a & Ha & Hid & _). eauto.
Qed.

(** X12.  A chunk keeps its identity through [_merge_chunks]: the ids,
    document ids, indices, start positions, sentiments and topics of the output
    chunks are those of a subsequence of the input chunks, in the input order
    (a merged chunk has them from the first chunk of its group); and the
    output is never longer than the input. *)
Theorem merge_chunks_keeps_identity
    (cosine1 : list Embedding -> result Matrix)
    (list_set : list pystr -> list pystr)
    (chunks : list Legal.ChunkMetadata) (embeddings : list Embedding) :
  let out := Legal._merge_chunks cosine1 list_set chunks embeddings in
  map identity out `sublist_of` map identity chunks /\
  length out <= length chunks.
Proof.
  cbv zeta.
  pose proof (merge_chunks_identity_sublist cosine1 list_set chunks embeddings)
    as Hsub.
  split; [done|]. apply sublist_length in Hsub. by rewrite !length_map in Hsub.
Qed.

(** A predicate that holds of the importance score of every input chunk
    holds of that of every output chunk. *)
Lemma merge_chunks_importance (P : Q -> Prop)
    (cosine1 : list Embedding -> result Matrix)
    (list_set : list pystr -> list pystr)
    (chunks : list Legal.ChunkMetadata) (embeddings : list Embedding) :
  Forall (fun c => P (Legal.importance_score c)) chunks ->
  Forall (fun c => P (Legal.importance_score c))
    (Legal._merge_chunks cosine1 list_set chunks embeddings).
Proof.
  intros HP.
  destruct (merge_chunks_cases cosine1 list_set chunks embeddings)
    as [->|(m & _ & _ & Hall)]; [done|].
  apply Forall_forall. intros c Hc.
  apply list_elem_of_lookup in Hc as [k Hk].
  destruct (Forall2_lookup_r _ _ _ _ _ Hall Hk) as (g & _ & Hg).
  apply legal_group_chunk_anchor in Hg as (_ & _ & _ & Himp).
  apply list_elem_of_fmap in Himp as (y & -> & Hy).
  rewrite Forall_forall in HP. by apply HP.
Qed.


(** ** When consolidation changes nothing *)

Lemma joiners_none (n : nat) (m : Matrix) (i : nat) (used : gset nat) :
  (forall j, i < j < n -> similar m i j = false) -> joiners n m i used = [].
Proof.
  intros Hno. destruct (joiners n m i used) as [|j J] eqn:HJ; [done|].
  assert (j ∈ joiners n m i used) as Hj by (rewrite HJ; by left).
  apply joiners_elem in Hj as (Hij & _ & Hs). rewrite Hno in Hs by done. done.
Qed.

Lemma groups_from_singletons (n : nat) (m : Matrix) (todo : list nat) :
  (forall i j, i < j < n -> similar m i j = false) ->
  groups_from n m todo ∅ = map (fun i => [i]) todo.
Proof.
  intros Hno. induction todo as [|i todo IH]; [done|]. simpl.
  rewrite decide_False by set_solver.
  rewrite joiners_none by (intros j Hj; by apply Hno). simpl. f_equal.
  rewrite <- IH. apply groups_from_equiv. set_solver.
Qed.

Lemma length_concat_ge (gs : list (list nat)) :
  Forall (fun g => g <> []) gs -> length gs <= length (List.concat gs).
Proof.
  induction 1 as [|g gs Hg _ IH]; [done|]. simpl. rewrite length_app.
  destruct g; [done|]. simpl. lia.
Qed.

Lemma all_singletons (gs : list (list nat)) :
  Forall (fun g => g <> []) gs -> length (List.concat gs) <= length gs ->
  Forall (fun g => length g = 1) gs.
Proof.
  induction 1 as [|g gs Hg Hall IH]; intros Hlen; [constructor|].
  simpl in Hlen. rewrite length_app in Hlen.
  pose proof (length_concat_ge gs Hall).
  destruct g as [|x g]; [done|]. simpl in Hlen.
  constructor; [simpl; lia|]. apply IH. lia.
Qed.

(** With as many groups as chunks, no later chunk resembles an earlier
    one. *)
Lemma full_length_nothing_similar (n : nat) (m : Matrix) :
  length (groups_from n m (seq 0 n) ∅) = n ->
  forall i j, i < j < n -> similar m i j = false.
Proof.
  intros Hlen i j Hij.
  destruct (similar m i j) eqn:Hs; [exfalso|done].
  pose proof (groups_from_partition_of n m) as (Hperm & _ & Hne).
  remember (groups_from n m (seq 0 n) ∅) as gs eqn:Hgs.
  assert (Forall (fun g => length g = 1) gs) as Hone.
  { apply all_singletons.
    - eapply Forall_impl; [exact Hne|]. by intros g [? _].
    - rewrite (Permutation_length Hperm), length_seq. lia. }
  assert (i ∈ List.concat gs) as Hi.
  { rewrite Hperm. apply elem_of_seq. lia. }
  apply list_elem_of_In, in_concat in Hi as (g & Hg & Hig).
  apply list_elem_of_In in Hg, Hig.
  assert (g = [i]) as ->.
  { rewrite Forall_forall in Hone. specialize (Hone g Hg).
    destruct g as [|x [|y g]]; try done.
    apply list_elem_of_singleton in Hig. by subst. }
  apply list_elem_of_split in Hg as (gs1 & gs2 & Hsplit).
  rewrite Hsplit in Hgs. symmetry in Hgs.
  pose proof (groups_from_member n m (seq 0 n) ∅ gs1 i [] gs2 Hgs j) as Hmem.
  assert (j ∈ @nil nat) as Habs; [|by apply elem_of_nil in Habs].
  apply Hmem. split_and!; [lia|lia|set_solver| |done].
  intros g' Hg'. rewrite Forall_forall in Hone.
  assert (length g' = 1) as Hl.
  { apply Hone. rewrite Hsplit. apply elem_of_app. by left. }
  destruct g' as [|x [|y g']]; try done. simpl. apply not_elem_of_nil.
Qed.

Lemma singletons_chunks {A} (f : list nat -> option A) (l out : list A) :
  (forall i, f [i] = l !! i) ->
  Forall2 (fun g c => f g = Some c) (map (fun i => [i]) (seq 0 (length l))) out ->
  out = l.
Proof.
  intros Hf Hall. apply Forall2_fmap_l in Hall.
  apply list_eq. intros i.
  pose proof (Forall2_length _ _ _ Hall) as Hlen. rewrite length_seq in Hlen.
  destruct (out !! i) as [c|] eqn:Hc.
  - destruct (Forall2_lookup_r _ _ _ _ _ Hall Hc) as (k & Hk & Hfk).
    apply lookup_seq in Hk as [-> _]. simpl in Hfk. by rewrite <- Hf.
  - apply lookup_ge_None in Hc. symmetry. apply lookup_ge_None. lia.
Qed.

(** X13.  Consolidation leaves the chunk list alone exactly when no chunk
    resembles an earlier one.  When no similarity [matrix[i][j]] with [i < j]
    is above 0.8, [_optimize_chunks_semantically] and [_merge_chunks] return
    their input unchanged; when some is, the output of
    [_optimize_chunks_semantically] is strictly shorter than its input. *)
Theorem consolidation_nothing_similar
    (cosine2 : list Embedding -> list Embedding -> result Matrix)
    (chunks : list Generic.Chunk) (m : Matrix)
    (cosine1 : list Embedding -> result Matrix)
    (list_set : list pystr -> list pystr)
    (lchunks : list Legal.ChunkMetadata) (embeddings : list Embedding) :
  similarity_of cosine2 chunks m ->
  (forall m', cosine1 embeddings = Ok m' ->
     forall i j, i < j < length lchunks -> similar m' i j = false) ->
  (exists out,
     Generic._optimize_chunks_semantically cosine2 chunks = Ok out /\
     ((forall i j, i < j < length chunks -> similar m i j = false) -> out = chunks) /\
     (forall i j, i < j < length chunks -> similar m i j = true ->
        length out < length chunks)) /\
  Legal._merge_chunks cosine1 list_set lchunks embeddings = lchunks.
Proof.
  intros Hready Hno. split.
  - destruct (optimize_groups cosine2 chunks m Hready) as (out & Hout & _ & Hall).
    exists out. split; [done|]. split.
    + intros Hnone. rewrite groups_from_singletons in Hall by done.
      apply (singletons_chunks (group_chunk chunks)); [|done].
      intros i. unfold group_chunk. simpl.
      destruct (chunks !! i); done.
    + intros i j Hij Hs.
      pose proof (Forall2_length _ _ _ Hall) as Hlen.
      pose proof (groups_from_partition_of (length chunks) m) as (Hperm & _ & Hne).
      pose proof (length_concat_ge _ (Forall_impl _ _ _ Hne
                    (fun g (H : g <> [] /\ _) => proj1 H))) as Hle.
      rewrite (Permutation_length Hperm), length_seq in Hle.
      destruct (decide (length out = length chunks)) as [Heq|Hne']; [|lia].
      rewrite <- Hlen in Heq.
      pose proof (full_length_nothing_similar _ _ Heq i j Hij). congruence.
  - destruct (merge_chunks_cases cosine1 list_set lchunks embeddings)
      as [->|(m' & Hcos & _ & Hall)]; [done|].
    rewrite groups_from_singletons in Hall by (by apply Hno).
    apply (singletons_chunks (legal_group_chunk list_set lchunks)); [|done].
    intros i. unfold legal_group_chunk. simpl. destruct (lchunks !! i); done.
Qed.

(** The three sample chunks with a matrix in which nothing exceeds 0.8 off
    the diagonal. *)
Lemma consolidation_nothing_similar_witness :
  let vectors := [[1; 0; 0]; [0; 1; 0]; [0; 0; 1]]%Q in
  let chunks := [Example.gchunk 0 "alpha" [] [1; 0; 0]%Q;
                 Example.gchunk 1 "beta" [] [0; 1; 0]%Q;
                 Example.gchunk 2 "gamma" [] [0; 0; 1]%Q] in
  Generic._optimize_chunks_semantically Stub.cosine2 chunks = Ok chunks /\
  Legal._merge_chunks Stub.cosine1 Stub.first_seen Example.lchunks vectors
  = Example.lchunks.
Proof.
  intros vectors chunks.
  assert (forall i j, i < j < 3 -> similar vectors i j = false) as Hno.
  { intros i j Hij.
    destruct i as [|[|[|i]]], j as [|[|[|j]]]; try lia; reflexivity. }
  destruct (consolidation_nothing_similar Stub.cosine2 chunks vectors
              Stub.cosine1 Stub.first_seen Example.lchunks vectors)
    as [(out & Hout & Hsame & _) Hlegal].
  - intros _. exists vectors. split; [reflexivity|]. split; [reflexivity|].
    split; [reflexivity|]. by repeat constructor.
  - intros m' [= <-]. exact Hno.
  - split; [|exact Hlegal]. rewrite Hout. f_equal. by apply Hsame.
Defined.


(** ** [process_document] of [advanced_document_processor.py] *)

Lemma sum_unit_interval (xs : list Q) :
  Forall (fun x => (0 <= x)%Q /\ (x <= 1)%Q) xs ->
  (0 <= fold_right Qplus 0 xs)%Q /\
  (fold_right Qplus 0 xs <= inject_Z (Z.of_nat (length xs)))%Q.
Proof.
  induction 1 as [|x xs [H0 H1] _ [IH0 IH1]]; [done|].
  cbn [fold_right length]. split.
  - exact (Qplus_le_compat 0 x 0 _ H0 IH0).
  - rewrite Nat2Z.inj_succ. unfold Z.succ. rewrite inject_Z_plus.
    rewrite Qplus_comm. by apply Qplus_le_compat.
Qed.

Lemma np_mean_unit_interval (xs : list Q) :
  Forall (fun x => (0 <= x)%Q /\ (x <= 1)%Q) xs ->
  (xs = [] <-> Legal.np_mean xs = None) /\
  (forall q, Legal.np_mean xs = Some q -> (0 <= q)%Q /\ (q <= 1)%Q).
Proof.
  intros Hall. destruct xs as [|x xs]; [done|].
  split; [done|]. intros q [= <-].
  destruct (sum_unit_interval _ Hall) as [H0 H1].
  assert (0 < inject_Z (Z.of_nat (length (x :: xs))))%Q as Hpos.
  { unfold Qlt. simpl. lia. }
  split.
  - apply Qle_shift_div_l; [done|]. by rewrite Qmult_0_l.
  - apply Qle_shift_div_r; [done|]. by rewrite Qmult_1_l.
Qed.

(** The chunks before annotation are numbered 0, 1, 2, ... and named after
    their number, whichever chunker made them. *)
Lemma legal_chunks_numbered
    (nlp : pystr -> result Legal.Doc)
    (sent_tokenize : pystr -> result (list pystr))
    (content document_id : pystr) :
  let chunks := Legal._create_intelligent_chunks nlp sent_tokenize content document_id in
  map Legal.chunk_index chunks = map Z.of_nat (seq 0 (length chunks)) /\
  map Legal.chunk_id chunks
  = map (fun k => document_id ++ py "_chunk_" ++ str_of_nat k)
      (seq 0 (length chunks)).
Proof.
  cbv zeta. unfold Legal._create_intelligent_chunks.
  destruct (Legal._split_into_sentences nlp sent_tokenize content) as [sentences|e].
  - exact (legal_normal_form_ids document_id _ 0
             (legal_normal_form document_id sentences)).
  - rewrite simple_chunks_closed_form.
    rewrite length_map, length_seq, !map_map. done.
Qed.

Lemma StronglySorted_of_nat (k n : nat) :
  StronglySorted Z.lt (map Z.of_nat (seq k n)).
Proof.
  revert k. induction n as [|n IH]; intros k; simpl; [constructor|].
  constructor; [apply IH|].
  apply Forall_forall. intros z Hz.
  apply list_elem_of_fmap in Hz as (j & -> & Hj%elem_of_seq). lia.
Qed.

(** X14.  [process_document] reports success on every input: each step of
    its body catches its own exceptions.  The record counts the chunks it
    lists; their ids are pairwise different and their indices strictly
    increase; every importance score lies between 0 and 1, and so does their
    average, which is undefined (nan) exactly when there is no chunk. *)
Theorem legal_process_document_succeeds
    (nlp : pystr -> result Legal.Doc)
    (sent_tokenize : pystr -> result (list pystr))
    (encode : list pystr -> result (list Embedding))
    (cosine_similarity : list Embedding -> result Matrix)
    (tfidf : pystr -> result (list (pystr * Q)))
    (finditer_legal_terms finditer_case_reference finditer_statute_reference :
       pystr -> list pystr)
    (list_set : list pystr -> list pystr)
    (now content filename : pystr) (document_id : option pystr) :
  exists chunks advanced_metadata,
    Legal.process_document nlp sent_tokenize encode cosine_similarity tfidf
      finditer_legal_terms finditer_case_reference finditer_statute_reference
      list_set now content filename document_id
    = Legal.Success (Legal.or_else document_id filename) filename
        (length chunks) chunks (py "advanced") advanced_metadata /\
    NoDup (map Legal.d_chunk_id chunks) /\
    StronglySorted Z.lt (map Legal.d_chunk_index chunks) /\
    Forall (fun d => (0 <= Legal.d_importance_score d)%Q /\
                     (Legal.d_importance_score d <= 1)%Q) chunks /\
    (chunks = [] <-> Legal.average_importance advanced_metadata = None) /\
    (forall q, Legal.average_importance advanced_metadata = Some q ->
       (0 <= q)%Q /\ (q <= 1)%Q).
Proof.
  unfold Legal.process_document, Legal.process_body.
  set (doc_id := Legal.or_else document_id filename).
  unfold Legal.processed_chunks, Legal.annotated_chunks.
  change (default filename (Some doc_id)) with doc_id.
  set (raw := Legal._create_intelligent_chunks nlp sent_tokenize
                (Legal._extract_content content filename) doc_id).
  set (annotate := Legal.annotate nlp tfidf finditer_legal_terms
                     finditer_case_reference finditer_statute_reference list_set).
  set (merged := Legal._merge_chunks cosine_similarity list_set
                   (map annotate raw)
                   (Legal._generate_embeddings encode (map Legal.content raw))).
  eexists (map Legal.chunk_dict merged), _. split.
  { by rewrite length_map. }
  pose proof (merge_chunks_identity_sublist cosine_similarity list_set
                (map annotate raw)
                (Legal._generate_embeddings encode (map Legal.content raw)))
    as Hsub.
  fold merged in Hsub.
  destruct (legal_chunks_numbered nlp sent_tokenize
              (Legal._extract_content content filename) doc_id) as [Hidx Hids].
  fold raw in Hidx, Hids.
  assert (Forall (fun c => (0 <= Legal.importance_score c)%Q /\
                           (Legal.importance_score c <= 1)%Q) merged) as Himp.
  { apply (merge_chunks_importance (fun q => (0 <= q)%Q /\ (q <= 1)%Q)).
    apply Forall_fmap, Forall_forall. intros c _. apply importance_score_range. }
  assert (Forall (fun x => (0 <= x)%Q /\ (x <= 1)%Q)
            (map Legal.importance_score merged)) as Himp'
    by (by apply Forall_fmap).
  destruct (np_mean_unit_interval _ Himp') as [Hnan Hmean].
  assert (map Legal.chunk_id merged `sublist_of` map Legal.chunk_id raw) as Hsub_id.
  { apply (sublist_map (fun t => t.1.1.1.1.1)) in Hsub.
    rewrite !map_map in Hsub. exact Hsub. }
  assert (map Legal.chunk_index merged `sublist_of` map Legal.chunk_index raw)
    as Hsub_idx.
  { apply (sublist_map (fun t => t.1.1.1.2)) in Hsub.
    rewrite !map_map in Hsub. exact Hsub. }
  split_and!.
  - rewrite map_map. eapply sublist_NoDup; [|exact Hsub_id].
    rewrite Hids. apply NoDup_fmap_2; [|apply NoDup_seq].
    intros i j. apply chunk_id_inj.
  - rewrite map_map. apply (sublist_StronglySorted _ _ _ Hsub_idx).
    rewrite Hidx. apply StronglySorted_of_nat.
  - by apply Forall_fmap.
  - cbn [Legal.average_importance]. rewrite <- Hnan.
    clearbody merged. destruct merged; [done|]. split; intros H; discriminate H.
  - cbn [Legal.average_importance]. exact Hmean.
Qed.


(** X15.  A document that is empty or white space only is not refused by
    [process_document] of [advanced_document_processor.py]: provided the
    sentence splitters find no sentence in the empty text, it is reported as
    processed, with no chunk, no entity, no legal term and an undefined (nan)
    average importance. *)
Theorem legal_blank_document_succeeds
    (nlp : pystr -> result Legal.Doc)
    (sent_tokenize : pystr -> result (list pystr))
    (encode : list pystr -> result (list Embedding))
    (cosine_similarity : list Embedding -> result Matrix)
    (tfidf : pystr -> result (list (pystr * Q)))
    (finditer_legal_terms finditer_case_reference finditer_statute_reference :
       pystr -> list pystr)
    (list_set : list pystr -> list pystr)
    (now content filename : pystr) (document_id : option pystr) :
  blank content ->
  (forall sentences,
     Legal._split_into_sentences nlp sent_tokenize [] = Ok sentences ->
     sentences = []) ->
  Legal.process_document nlp sent_tokenize encode cosine_similarity tfidf
    finditer_legal_terms finditer_case_reference finditer_statute_reference
    list_set now content filename document_id
  = Legal.Success (Legal.or_else document_id filename) filename 0 []
      (py "advanced")
      {| Legal.total_entities := 0;
         Legal.total_legal_terms := 0;
         Legal.average_importance := None;
         Legal.processing_timestamp := now |}.
Proof.
  intros Hblank Hsplit.
  unfold Legal.process_document, Legal.process_body, Legal.processed_chunks,
    Legal.annotated_chunks, Legal._extract_content.
  rewrite (strip_blank _ Hblank).
  assert (forall id, Legal._create_intelligent_chunks nlp sent_tokenize [] id = [])
    as Hraw.
  { intros id. unfold Legal._create_intelligent_chunks.
    destruct (Legal._split_into_sentences nlp sent_tokenize []) as [sentences|e]
      eqn:Hs; [|reflexivity].
    by rewrite (Hsplit sentences eq_refl). }
  rewrite Hraw. reflexivity.
Qed.

(** A file of two spaces, with a pipeline that reports the whole text as one
    sentence. *)
Lemma legal_blank_document_succeeds_witness :
  Legal.process_document Stub.legal_nlp (fun _ => Ok []) Example.encode_all
    Stub.cosine1 (fun _ => Ok []) Stub.find_terms (fun _ => []) (fun _ => [])
    Stub.first_seen (py "2026-01-01T00:00:00") (py "  ") (py "blank.txt") None
  = Legal.Success (py "blank.txt") (py "blank.txt") 0 [] (py "advanced")
      {| Legal.total_entities := 0;
         Legal.total_legal_terms := 0;
         Legal.average_importance := None;
         Legal.processing_timestamp := py "2026-01-01T00:00:00" |}.
Proof.
  apply (legal_blank_document_succeeds Stub.legal_nlp (fun _ => Ok [])
           Example.encode_all Stub.cosine1 (fun _ => Ok []) Stub.find_terms
           (fun _ => []) (fun _ => []) Stub.first_seen
           (py "2026-01-01T00:00:00") (py "  ") (py "blank.txt") None).
  - by repeat constructor.
  - intros sentences [= <-]. reflexivity.
Defined.


(** ** The annotation loop of [advanced-document-processor.py] *)

Section Annotation.

Variable encode : pystr -> result Embedding.
Variable nlp : pystr -> result Generic.Doc.
Variable list_set : list pystr -> list pystr.
Variables content document_id : pystr.

Lemma annotate_fields (i : nat) (chunk_text : pystr) (c : Generic.Chunk) :
  Generic.annotate encode nlp list_set content document_id i chunk_text = Ok c ->
  Generic.content c = chunk_text /\
  Generic.chunk_index (Generic.metadata c) = i /\
  Generic.chunk_id c = document_id ++ py "_chunk_" ++ str_of_nat i /\
  Generic.document_id c = document_id /\
  Generic.merged_from (Generic.metadata c) = None /\
  Generic.start_char (Generic.metadata c) = find content chunk_text /\
  Generic.end_char (Generic.metadata c)
  = (find content chunk_text + Z.of_nat (length chunk_text))%Z /\
  Generic.word_count (Generic.metadata c) = len_split chunk_text /\
  exists embedding, Generic.semantic_embedding (Generic.metadata c) = Some embedding
                    /\ encode chunk_text = Ok embedding.
Proof.
  unfold Generic.annotate.
  destruct (nlp chunk_text) as [doc|]; [|done]. cbn [mbind result_bind].
  destruct (encode chunk_text) as [embedding|]; [|done]. cbn [mbind result_bind].
  intros [= <-]. cbn. split_and!; try done. by exists embedding.
Qed.

Lemma annotate_loop_spec (todo : list (nat * pystr)) :
  (forall i p, (i, p) ∈ todo -> truthy (strip p) = true ->
     (exists doc, nlp p = Ok doc) /\ exists embedding, encode p = Ok embedding) ->
  forall acc,
  exists out,
    Generic.annotate_loop encode nlp list_set content document_id todo acc
    = Ok (acc ++ out) /\
    Forall2 (fun it c =>
               Generic.annotate encode nlp list_set content document_id
                 (fst it) (snd it) = Ok c)
      (kept_pieces todo) out.
Proof.
  induction todo as [|[i p] todo IH]; intros Hok acc.
  - exists []. rewrite app_nil_r. split; [done|constructor].
  - assert (forall i p, (i, p) ∈ todo -> truthy (strip p) = true ->
              (exists doc, nlp p = Ok doc) /\
              exists embedding, encode p = Ok embedding) as Hok'.
    { intros i' p' Hin. apply (Hok i' p'). by right. }
    unfold kept_pieces. cbn [Generic.annotate_loop List.filter snd].
    destruct (truthy (strip p)) eqn:Hp; cbn [negb].
    + destruct (Hok i p) as [[doc Hdoc] [embedding Hemb]]; [by left|done|].
      destruct (Generic.annotate encode nlp list_set content document_id i p)
        as [c|e] eqn:Hc.
      2:{ unfold Generic.annotate in Hc. rewrite Hdoc, Hemb in Hc. done. }
      cbn [mbind result_bind].
      destruct (IH Hok' (acc ++ [c])) as (out & Hout & Hall).
      exists (c :: out). split; [by rewrite Hout, <- app_assoc|].
      by constructor.
    + exact (IH Hok' acc).
Qed.

End Annotation.

Lemma kept_pieces_enumerate (pieces : list pystr) :
  forall k,
    map snd (kept_pieces (zip (seq k (length pieces)) pieces))
    = List.filter (fun p => truthy (strip p)) pieces /\
    StronglySorted lt (map fst (kept_pieces (zip (seq k (length pieces)) pieces))) /\
    Forall (fun it => k <= fst it /\ pieces !! (fst it - k) = Some (snd it))
      (kept_pieces (zip (seq k (length pieces)) pieces)).
Proof.
  induction pieces as [|p pieces IH]; intros k.
  - split_and!; [done|constructor|constructor].
  - destruct (IH (S k)) as (H1 & H2 & H3).
    assert (Forall (fun it => k <= fst it /\ (p :: pieces) !! (fst it - k) = Some (snd it))
              (kept_pieces (zip (seq (S k) (length pieces)) pieces))) as H3'.
    { eapply Forall_impl; [exact H3|]. intros [i q] [Hle Hq]. simpl in *.
      split; [lia|]. replace (i - k) with (S (i - S k)) by lia. done. }
    unfold kept_pieces in *. cbn [length seq zip zip_with List.filter snd].
    destruct (truthy (strip p)); cbn [map fst snd].
    + split_and!.
      * by rewrite H1.
      * constructor; [done|]. apply Forall_fmap.
        eapply Forall_impl; [exact H3|]. intros [i q] [Hle _]. simpl in *. lia.
      * constructor; [|done]. simpl. split; [lia|]. by rewrite Nat.sub_diag.
    + done.
Qed.

(** X16.  When the splitter has returned its pieces and the language
    pipeline and the sentence model succeed on the pieces that are not blank,
    the annotation loop of [_create_intelligent_chunks] returns one chunk for
    each such piece, in order, with the piece as content.  The index of a
    chunk is the position of its piece in the output of the splitter, blank
    pieces included, so the indices increase but may skip numbers, and the
    chunk id is [<document_id>_chunk_<index>]: the ids are pairwise
    different. *)
Theorem annotated_chunks_follow_pieces
    (encode : pystr -> result Embedding)
    (nlp : pystr -> result Generic.Doc)
    (split_text : pystr -> result (list pystr))
    (list_set : list pystr -> list pystr)
    (content document_id : pystr) (pieces : list pystr) :
  split_text content = Ok pieces ->
  (forall p, p ∈ pieces -> truthy (strip p) = true ->
     (exists doc, nlp p = Ok doc) /\ exists embedding, encode p = Ok embedding) ->
  exists chunks,
    Generic.annotated_chunks encode nlp split_text list_set content document_id
    = Ok chunks /\
    map Generic.content chunks = List.filter (fun p => truthy (strip p)) pieces /\
    StronglySorted lt (map (fun c => Generic.chunk_index (Generic.metadata c)) chunks) /\
    Forall (fun c =>
              pieces !! Generic.chunk_index (Generic.metadata c)
              = Some (Generic.content c) /\
              Generic.chunk_id c
              = document_id ++ py "_chunk_"
                ++ str_of_nat (Generic.chunk_index (Generic.metadata c)) /\
              Generic.document_id c = document_id /\
              Generic.merged_from (Generic.metadata c) = None) chunks /\
    NoDup (map Generic.chunk_id chunks).
Proof.
  intros Hsplit Hok. unfold Generic.annotated_chunks. rewrite Hsplit.
  cbn [mbind result_bind]. unfold enumerate.
  destruct (annotate_loop_spec encode nlp list_set content document_id
              (zip (seq 0 (length pieces)) pieces)) with (acc := @nil Generic.Chunk)
    as (chunks & Hout & Hall).
  { intros i p Hip. apply Hok.
    apply (enumerate_from_lookup pieces 0 i p) in Hip as [_ Hip].
    by eapply list_elem_of_lookup_2. }
  exists chunks. split; [done|].
  destruct (kept_pieces_enumerate pieces 0) as (H1 & H2 & H3).
  revert Hall H1 H2 H3.
  generalize (kept_pieces (zip (seq 0 (length pieces)) pieces)).
  intros kept Hall H1 H2 H3.
  assert (map (fun c => Generic.chunk_index (Generic.metadata c)) chunks
          = map fst kept) as Hidx.
  { clear -Hall. induction Hall as [|[i p] c kept chunks Hc _ IH]; [done|].
    apply annotate_fields in Hc as (_ & Hi & _). simpl in *. by rewrite Hi, IH. }
  assert (Forall (fun c =>
            pieces !! Generic.chunk_index (Generic.metadata c)
            = Some (Generic.content c) /\
            Generic.chunk_id c
            = document_id ++ py "_chunk_"
              ++ str_of_nat (Generic.chunk_index (Generic.metadata c)) /\
            Generic.document_id c = document_id /\
            Generic.merged_from (Generic.metadata c) = None) chunks) as Hfields.
  { clear -Hall H3. induction Hall as [|[i p] c kept chunks Hc _ IH]; [constructor|].
    apply Forall_cons in H3 as [[_ Hp] H3]. simpl in Hp.
    rewrite Nat.sub_0_r in Hp.
    apply annotate_fields in Hc as (Hc1 & Hc2 & Hc3 & Hc4 & Hc5 & _). simpl in *.
    constructor; [|by apply IH]. rewrite Hc1, Hc2. done. }
  split_and!.
  - rewrite <- H1. clear -Hall.
    induction Hall as [|[i p] c kept chunks Hc _ IH]; [done|].
    apply annotate_fields in Hc as (Hc & _). simpl in *. by rewrite Hc, IH.
  - by rewrite Hidx.
  - done.
  - assert (map Generic.chunk_id chunks
            = map (fun i => document_id ++ py "_chunk_" ++ str_of_nat i)
                (map fst kept)) as ->.
    { rewrite <- Hidx, map_map. apply map_ext_Forall.
      eapply Forall_impl; [exact Hfields|]. by intros c (_ & ? & _). }
    apply NoDup_fmap_2; [intros i j; apply chunk_id_inj|].
    clear -H2. induction H2 as [|i l _ IH Hlt]; constructor; [|done].
    intros Hin. rewrite Forall_forall in Hlt. specialize (Hlt i Hin). lia.
Qed.


(** Three pieces, the second of them blank: two chunks, numbered 0 and 2. *)
Lemma annotated_chunks_follow_pieces_witness :
  let content := py "ab" ++ [newline; newline] ++ py " " ++ [newline; newline]
                 ++ py "cd" in
  exists chunks,
    Generic.annotated_chunks Stub.encode Stub.generic_nlp Example.split_paragraphs
      Stub.first_seen content (py "doc") = Ok chunks /\
    map Generic.content chunks = [py "ab"; py "cd"] /\
    map (fun c => Generic.chunk_index (Generic.metadata c)) chunks = [0; 2].
Proof.
  intros content.
  destruct (annotated_chunks_follow_pieces Stub.encode Stub.generic_nlp
              Example.split_paragraphs Stub.first_seen content (py "doc")
              [py "ab"; py " "; py "cd"])
    as (chunks & Hrun & Hcontent & _).
  - reflexivity.
  - intros p _ _. split; eexists; reflexivity.
  - exists chunks. split; [exact Hrun|]. split; [exact Hcontent|].
    assert (Ok chunks
            = Generic.annotated_chunks Stub.encode Stub.generic_nlp
                Example.split_paragraphs Stub.first_seen content (py "doc"))
      as Heq by (by rewrite Hrun).
    vm_compute in Heq. injection Heq as ->. reflexivity.
Defined.

(** ** Offsets by substring search *)

Lemma find_from_spec (w s : pystr) :
  forall pos,
    (contains w s = false /\ find_from w s pos = (-1)%Z) \/
    (exists k, contains w s = true /\
               find_from w s pos = Z.of_nat (pos + k) /\
               startswith w (drop k s) = true /\
               forall j, j < k -> startswith w (drop j s) = false).
Proof.
  induction s as [|c s IH]; intros pos; simpl.
  - destruct (startswith w []) eqn:Hw.
    + right. exists 0. rewrite Nat.add_0_r. split_and!; try done. intros j Hj. lia.
    + by left.
  - destruct (startswith w (c :: s)) eqn:Hw.
    + right. exists 0. rewrite Nat.add_0_r. split_and!; try done. intros j Hj. lia.
    + destruct (IH (S pos)) as [[Hc Hf]|(k & Hc & Hf & Hk & Hmin)].
      * left. by rewrite Hc, Hf.
      * right. exists (S k). rewrite Hc, Hf. split_and!; try done.
        -- f_equal. lia.
        -- intros [|j] Hj; [done|]. apply Hmin. lia.
Qed.

Lemma startswith_take (w s : pystr) :
  startswith w s = true -> take (length w) s = w.
Proof.
  intros [x ->]%startswith_spec. by rewrite take_app_length.
Qed.

(** X17.  The offsets the annotation loop records for a chunk come from a
    substring search in the whole content.  If the chunk text occurs in the
    content, [start_char] is the offset of its first occurrence, and slicing
    the content from [start_char] to [end_char] gives the chunk text back; if
    it does not occur (the splitter may have changed it), [start_char] is -1
    and [end_char] is the length of the text minus one.  In both cases the two
    offsets differ by the length of the text. *)
Theorem annotate_offsets
    (encode : pystr -> result Embedding)
    (nlp : pystr -> result Generic.Doc)
    (list_set : list pystr -> list pystr)
    (content document_id : pystr) (i : nat) (chunk_text : pystr)
    (c : Generic.Chunk) :
  Generic.annotate encode nlp list_set content document_id i chunk_text = Ok c ->
  let start_char := Generic.start_char (Generic.metadata c) in
  let end_char := Generic.end_char (Generic.metadata c) in
  (end_char - start_char = Z.of_nat (length chunk_text))%Z /\
  (contains chunk_text content = true ->
     (0 <= start_char)%Z /\
     substring start_char end_char content = chunk_text /\
     forall k, (0 <= k < start_char)%Z ->
       substring k (k + Z.of_nat (length chunk_text)) content <> chunk_text) /\
  (contains chunk_text content = false ->
     start_char = (-1)%Z /\ end_char = (Z.of_nat (length chunk_text) - 1)%Z).
Proof.
  intros Hc. apply annotate_fields in Hc as (_ & _ & _ & _ & _ & Hs & He & _).
  cbv zeta. rewrite Hs, He. unfold find.
  destruct (find_from_spec chunk_text content 0)
    as [[Hno Hf]|(k & Hyes & Hf & Hk & Hmin)]; rewrite Hf.
  - split_and!; [lia|congruence|]. intros _. split; [done|lia].
  - split_and!; [lia| |congruence]. intros _. simpl. split_and!.
    + lia.
    + unfold substring.
      replace (Z.to_nat (Z.of_nat k + Z.of_nat (length chunk_text) - Z.of_nat k))
        with (length chunk_text) by lia.
      rewrite Nat2Z.id. by apply startswith_take.
    + intros j Hj Heq. unfold substring in Heq.
      replace (Z.to_nat (j + Z.of_nat (length chunk_text) - j))
        with (length chunk_text) in Heq by lia.
      assert (startswith chunk_text (drop (Z.to_nat j) content) = true) as Habs.
      { apply startswith_spec. exists (drop (length chunk_text) (drop (Z.to_nat j) content)).
        rewrite <- Heq at 1. by rewrite take_drop. }
      rewrite Hmin in Habs by lia. done.
Qed.

(** The third paragraph of the sample document repeats the start of the
    first: its offsets are those of the first occurrence. *)
Lemma annotate_offsets_witness :
  let text := repeat "a"%char 200 in
  exists c,
    Generic.annotate Stub.encode Stub.generic_nlp Stub.first_seen Example.repeated
      (py "doc") 2 text = Ok c /\
    (Generic.end_char (Generic.metadata c) - Generic.start_char (Generic.metadata c)
     = Z.of_nat (length text))%Z /\
    (contains text Example.repeated = true ->
     substring (Generic.start_char (Generic.metadata c))
       (Generic.end_char (Generic.metadata c)) Example.repeated = text).
Proof.
  intros text. eexists. split; [reflexivity|].
  match goal with |- context [Generic.start_char (Generic.metadata ?c)] =>
    destruct (annotate_offsets Stub.encode Stub.generic_nlp Stub.first_seen
                Example.repeated (py "doc") 2 text c eq_refl)
      as (Hlen & Hfound & _) end.
  split; [exact Hlen|]. intros Hin. by destruct (Hfound Hin) as (_ & Hsub & _).
Defined.


(** ** Query matching with a [top_k] that is not negative *)

Lemma score_chunks_scored
    (cosine_similarity : list Embedding -> list Embedding -> result Matrix)
    (query_embedding : Embedding) (chunks : list Generic.Chunk) :
  forall acc similarities,
    Forall (scored cosine_similarity query_embedding) acc ->
    Generic.score_chunks cosine_similarity query_embedding chunks acc
    = Ok similarities ->
    Forall (scored cosine_similarity query_embedding) similarities.
Proof.
  induction chunks as [|c chunks IH]; intros acc sims Hacc Hs; simpl in Hs.
  - by injection Hs as <-.
  - destruct (Generic.has_embedding c) as [v|] eqn:Hv; [|by eapply IH].
    destruct (cosine_similarity [query_embedding] [v]) as [sm|] eqn:Hsm; [|done].
    cbn [mbind result_bind] in Hs.
    destruct (getitem2 sm 0 0) as [q|] eqn:Hq; [|done].
    cbn [mbind result_bind] in Hs.
    eapply IH; [|exact Hs]. apply Forall_app. split; [done|].
    constructor; [|constructor]. by exists v, sm.
Qed.

(** The ranking behind a search. *)
Lemma search_ranking
    (cosine_similarity : list Embedding -> list Embedding -> result Matrix)
    (encode : pystr -> result Embedding)
    (query : pystr) (chunks : list Generic.Chunk) (top_k : Z)
    (out : list Generic.Chunk) :
  (0 <= top_k)%Z ->
  Generic.search_similar_chunks cosine_similarity encode query chunks top_k = Ok out ->
  exists ranked,
    out = map snd (take (Z.to_nat top_k) ranked) /\
    map snd ranked
    ≡ₚ List.filter (fun c => bool_decide (is_Some (Generic.has_embedding c))) chunks /\
    StronglySorted (fun a b => (fst b <= fst a)%Q) ranked /\
    (chunks <> [] ->
     exists query_embedding,
       encode query = Ok query_embedding /\
       Forall (scored cosine_similarity query_embedding) ranked).
Proof.
  intros Hk Hout. unfold Generic.search_similar_chunks in Hout.
  destruct chunks as [|c0 chunks'] eqn:Hchunks.
  { injection Hout as <-.
    exists []. rewrite take_nil. split_and!; [done|done|constructor|done]. }
  rewrite <- Hchunks in *. clear Hchunks c0 chunks'.
  destruct (encode query) as [q|] eqn:Hq; [|done]. cbn [mbind result_bind] in Hout.
  destruct (Generic.score_chunks cosine_similarity q chunks []) as [sims|] eqn:Hs;
    [|done].
  cbn [mbind result_bind] in Hout. injection Hout as <-.
  rewrite slice_to_nonneg by done.
  pose proof (score_chunks_candidates _ _ _ _ _ Hs) as Hcand. simpl in Hcand.
  pose proof (score_chunks_scored _ _ _ _ _ (Forall_nil_2 _) Hs) as Hscored.
  pose proof (sort_desc_perm fst sims) as Hperm.
  pose proof (sort_desc_sorted fst sims) as Hsorted.
  revert Hperm Hsorted. generalize (sort_desc fst sims). intros ranked Hperm Hsorted.
  exists ranked. split_and!; try done.
  - rewrite <- Hcand. by apply Permutation_map.
  - intros _. exists q. split; [done|].
    eapply Forall_forall. intros sc Hsc. rewrite Forall_forall in Hscored.
    apply Hscored. by rewrite <- Hperm.
Qed.

(** X18.  For a [top_k] that is not negative, [search_similar_chunks] returns
    the first [top_k] chunks of a ranking of the chunks that carry a
    non-empty embedding, by descending similarity to the query: exactly
    [min(top_k, candidates)] chunks, each of them one of the candidates, so a
    chunk without embedding is never returned.  Every chunk is ranked under
    the entry scikit-learn returns for the query vector and its own. *)
Theorem search_returns_best_candidates
    (cosine_similarity : list Embedding -> list Embedding -> result Matrix)
    (encode : pystr -> result Embedding)
    (query : pystr) (chunks : list Generic.Chunk) (top_k : Z)
    (out : list Generic.Chunk) :
  (0 <= top_k)%Z ->
  Generic.search_similar_chunks cosine_similarity encode query chunks top_k = Ok out ->
  let candidates :=
    List.filter (fun c => bool_decide (is_Some (Generic.has_embedding c))) chunks in
  length out = Nat.min (Z.to_nat top_k) (length candidates) /\
  out ⊆+ candidates /\
  exists ranked,
    out = map snd (take (Z.to_nat top_k) ranked) /\
    map snd ranked ≡ₚ candidates /\
    StronglySorted (fun a b => (fst b <= fst a)%Q) ranked /\
    (chunks <> [] ->
     exists query_embedding,
       encode query = Ok query_embedding /\
       Forall (scored cosine_similarity query_embedding) ranked).
Proof.
  intros Hk Hout. cbv zeta.
  destruct (search_ranking _ _ _ _ _ _ Hk Hout) as (ranked & -> & Hranked & Hrest).
  split_and!.
  - rewrite length_map, length_take.
    by rewrite <- (Permutation_length Hranked), length_map.
  - rewrite <- Hranked. apply sublist_submseteq.
    apply sublist_map, sublist_take.
  - by exists ranked.
Qed.

(** The three sample chunks and [top_k = 2]. *)
Lemma search_returns_best_candidates_witness :
  exists out,
    Generic.search_similar_chunks Stub.cosine2 Example.encode_query
      (py "contract breach") Example.gchunks 2 = Ok out /\
    length out = 2.
Proof.
  eexists. split; [reflexivity|].
  match goal with |- length ?out = _ =>
    destruct (search_returns_best_candidates Stub.cosine2 Example.encode_query
                (py "contract breach") Example.gchunks 2 out)
      as (Hlen & _) end.
  - lia.
  - reflexivity.
  - exact Hlen.
Defined.

(** ** Query matching and chunk similarity *)

(** The ranking behind a search, whatever [top_k]: the search returns a
    prefix of it. *)
Lemma search_ranking_prefix
    (cosine_similarity : list Embedding -> list Embedding -> result Matrix)
    (encode : pystr -> result Embedding)
    (query : pystr) (chunks : list Generic.Chunk) (top_k : Z)
    (out : list Generic.Chunk) :
  Generic.search_similar_chunks cosine_similarity encode query chunks top_k = Ok out ->
  exists ranked n,
    out = map snd (take n ranked) /\
    map snd ranked
    ≡ₚ List.filter (fun c => bool_decide (is_Some (Generic.has_embedding c))) chunks /\
    StronglySorted (fun a b => (fst b <= fst a)%Q) ranked /\
    (chunks <> [] ->
     exists query_embedding,
       encode query = Ok query_embedding /\
       Forall (scored cosine_similarity query_embedding) ranked).
Proof.
  intros Hout. unfold Generic.search_similar_chunks in Hout.
  destruct chunks as [|c0 chunks'] eqn:Hchunks.
  { injection Hout as <-.
    exists [], 0. split_and!; [done|done|constructor|done]. }
  rewrite <- Hchunks in *. clear Hchunks c0 chunks'.
  destruct (encode query) as [q|] eqn:Hq; [|done]. cbn [mbind result_bind] in Hout.
  destruct (Generic.score_chunks cosine_similarity q chunks []) as [sims|] eqn:Hs;
    [|done].
  cbn [mbind result_bind] in Hout. injection Hout as <-.
  pose proof (score_chunks_candidates _ _ _ _ _ Hs) as Hcand. simpl in Hcand.
  pose proof (score_chunks_scored _ _ _ _ _ (Forall_nil_2 _) Hs) as Hscored.
  pose proof (sort_desc_perm fst sims) as Hperm.
  pose proof (sort_desc_sorted fst sims) as Hsorted.
  revert Hperm Hsorted. generalize (sort_desc fst sims). intros ranked Hperm Hsorted.
  unfold slice_to. eexists ranked, _. split_and!; [reflexivity| |done|].
  - rewrite <- Hcand. by apply Permutation_map.
  - intros _. exists q. split; [done|].
    eapply Forall_forall. intros sc Hsc. rewrite Forall_forall in Hscored.
    apply Hscored. by rewrite <- Hperm.
Qed.

(** X19.  [get_chunk_similarity] and the search agree.  When the query is
    encoded as the embedding of [chunk1], the chunks [search_similar_chunks]
    returns, for any [top_k], are in descending order of what
    [get_chunk_similarity] reports between [chunk1] and each of them; and a
    chunk without embedding, which is never among them, has similarity 0 to
    every chunk. *)
Theorem search_orders_by_chunk_similarity
    (cosine_similarity : list Embedding -> list Embedding -> result Matrix)
    (encode : pystr -> result Embedding)
    (query : pystr) (chunks : list Generic.Chunk) (top_k : Z)
    (out : list Generic.Chunk) (chunk1 : Generic.Chunk)
    (query_embedding : Embedding) :
  Generic.search_similar_chunks cosine_similarity encode query chunks top_k = Ok out ->
  encode query = Ok query_embedding ->
  Generic.has_embedding chunk1 = Some query_embedding ->
  (exists similarities,
     Forall2 (fun chunk similarity =>
                Generic.get_chunk_similarity cosine_similarity chunk1 chunk
                = Ok similarity) out similarities /\
     StronglySorted (fun a b => (b <= a)%Q) similarities) /\
  (forall chunk, Generic.has_embedding chunk = None ->
     (chunk ∉ out) /\
     Generic.get_chunk_similarity cosine_similarity chunk1 chunk = Ok 0%Q /\
     Generic.get_chunk_similarity cosine_similarity chunk chunk1 = Ok 0%Q).
Proof.
  intros Hout Hq H1.
  destruct (search_ranking_prefix _ _ _ _ _ _ Hout)
    as (ranked & n & -> & Hranked & Hsorted & Hscored).
  split.
  - exists (map fst (take n ranked)). split.
    + apply Forall2_fmap, Forall_Forall2_diag.
      destruct chunks as [|c0 chunks'].
      { simpl in Hranked. apply Permutation_nil_r in Hranked.
        destruct ranked; [|done]. rewrite take_nil. constructor. }
      destruct Hscored as (q & Hq' & Hall); [done|].
      assert (q = query_embedding) as -> by congruence.
      apply (Forall_sublist _ _ ranked); [|apply sublist_take].
      eapply Forall_impl; [exact Hall|].
      intros [s c] (e & sm & He & Hsm & Hs). simpl in *.
      unfold Generic.get_chunk_similarity. by rewrite H1, He, Hsm.
    + apply (StronglySorted_take _ _ n) in Hsorted.
      revert Hsorted. generalize (take n ranked). clear.
      induction 1 as [|a l _ IH Hall]; simpl; constructor; [done|].
      by apply Forall_fmap.
  - intros chunk Hnone. split_and!.
    + intros Hin.
      assert (chunk ∈ map snd ranked) as Hin'.
      { eapply sublist_subseteq; [|exact Hin]. apply sublist_map, sublist_take. }
      rewrite Hranked in Hin'.
      apply list_elem_of_In, filter_In in Hin' as [_ Hsome].
      rewrite Hnone in Hsome. by apply bool_decide_eq_true in Hsome as [? ?].
    + unfold Generic.get_chunk_similarity. by rewrite H1, Hnone.
    + unfold Generic.get_chunk_similarity. by rewrite Hnone.
Qed.

(** A search among the sample chunks for a query encoded as the vector of
    chunk 0, with a negative [top_k]: the last chunk of the ranking is cut
    off. *)
Lemma search_orders_by_chunk_similarity_witness :
  exists out similarities,
    Generic.search_similar_chunks Stub.cosine2 Example.encode_query
      (py "contract breach") Example.gchunks (-1) = Ok out /\
    length out = 2 /\
    Forall2 (fun chunk similarity =>
               Generic.get_chunk_similarity Stub.cosine2
                 (Example.gchunk 0 "alpha" ["court"] [1; 0]%Q) chunk
               = Ok similarity) out similarities /\
    StronglySorted (fun a b => (b <= a)%Q) similarities.
Proof.
  eexists. 
  match goal with |- exists _, ?run = Ok ?out /\ _ =>
    destruct (search_orders_by_chunk_similarity Stub.cosine2 Example.encode_query
                (py "contract breach") Example.gchunks (-1)
                (take 2 Example.gchunks)
                (Example.gchunk 0 "alpha" ["court"] [1; 0]%Q) [1; 0]%Q)
      as [(similarities & Hall & Hsorted) _] end.
  - reflexivity.
  - reflexivity.
  - reflexivity.
  - exists similarities. split; [reflexivity|]. split; [reflexivity|].
    split; [exact Hall|exact Hsorted].
Defined.


(** ** The readers of [advanced-document-processor.py] *)

Section FileReaders.

Variable cosine_similarity : list Embedding -> list Embedding -> result Matrix.
Variable encode : pystr -> result Embedding.
Variable nlp : pystr -> result Generic.Doc.
Variable split_text : pystr -> result (list pystr).
Variable list_set : list pystr -> list pystr.
Variable suffix : pystr -> pystr.
Variable pdfplumber_pages : pystr -> result (list (option pystr)).
Variable fitz_pages : pystr -> result (list pystr).
Variable docx_paragraphs : pystr -> result (list pystr).
Variable read_text : pystr -> result pystr.

Lemma extract_content_no_title (file_path content : pystr)
    (metadata : gmap pystr pyval) :
  Generic._extract_content suffix pdfplumber_pages fitz_pages docx_paragraphs
    read_text file_path = Ok (content, metadata) ->
  metadata !! py "title" = None.
Proof.
  unfold Generic._extract_content.
  destruct (bool_decide _).
  { unfold Generic._extract_pdf_content.
    destruct (pdfplumber_pages file_path) as [pages|e].
    - intros [= <- <-]. by rewrite !lookup_insert_ne, lookup_empty by done.
    - destruct (fitz_pages file_path) as [pages|e2]; [|done].
      intros [= <- <-]. by rewrite !lookup_insert_ne, lookup_empty by done. }
  destruct (_ || _).
  { unfold Generic._extract_word_content.
    destruct (docx_paragraphs file_path) as [paragraphs|e]; [|done].
    cbn [mbind result_bind]. intros [= <- <-].
    by rewrite !lookup_insert_ne, lookup_empty by done. }
  destruct (bool_decide _); [|done].
  unfold Generic._extract_text_content.
  destruct (read_text file_path) as [text|e]; [|done].
  cbn [mbind result_bind]. intros [= <- <-].
  by rewrite !lookup_insert_ne, lookup_empty by done.
Qed.

(** X20.  Whatever the file and whatever the readers and models do,
    [process_document] returns a result for the requested document whose
    title is 'Unknown' (no reader provides a title) and whose processing time
    is the difference of the two clock readings.  The result carries an error
    message exactly when [success] is false, and then it has no chunks; a
    successful result has a content that is not blank. *)
Theorem process_document_result_shape (t0 t1 : Q) (file_path document_id : pystr) :
  let r := Generic.process_file cosine_similarity encode nlp split_text list_set suffix
             pdfplumber_pages fitz_pages docx_paragraphs read_text
             t0 t1 file_path document_id in
  Generic.title r = Str (py "Unknown") /\
  Generic.pr_document_id r = document_id /\
  Generic.processing_time r = (t1 - t0)%Q /\
  (Generic.success r = true <-> Generic.error_message r = None) /\
  (Generic.success r = false -> Generic.chunks r = []) /\
  (Generic.success r = true -> truthy (strip (Generic.pr_content r)) = true).
Proof.
  cbv zeta. unfold Generic.process_file, Generic.process_document.
  destruct (Generic._extract_content suffix pdfplumber_pages fitz_pages
              docx_paragraphs read_text file_path) as [[content metadata]|e] eqn:He.
  2:{ cbn. split_and!; try done; by split. }
  rewrite (extract_content_no_title _ _ _ He). cbn [default from_option].
  destruct (truthy (strip content)) eqn:Hc; cbn [negb].
  2:{ cbn. split_and!; try done; by split. }
  destruct (Generic._create_intelligent_chunks _ _ _ _ _ _ _ _) as [chunks|e].
  - cbn. split_and!; try done; by split.
  - cbn. split_and!; try done; by split.
Qed.

(** X21.  A file whose extension, lower-cased, is none of .pdf, .docx, .doc
    and .txt is not read at all: [process_document] returns a failure record
    that names the extension, with an empty content and no chunks. *)
Theorem unsupported_format_is_reported (t0 t1 : Q) (file_path document_id : pystr) :
  lower (suffix file_path) ∉ supported ->
  Generic.process_file cosine_similarity encode nlp split_text list_set suffix
    pdfplumber_pages fitz_pages docx_paragraphs read_text
    t0 t1 file_path document_id
  = {| Generic.pr_document_id := document_id;
       Generic.title := Str (py "Unknown");
       Generic.pr_content := [];
       Generic.chunks := [];
       Generic.pr_metadata := ∅;
       Generic.processing_time := t1 - t0;
       Generic.success := false;
       Generic.error_message :=
         Some (py "Unsupported file format: " ++ lower (suffix file_path)) |}.
Proof.
  intros Hext. unfold Generic.process_file, Generic.process_document,
    Generic._extract_content.
  unfold supported in Hext.
  rewrite !bool_decide_eq_false_2; [done|..];
    intros Heq; apply Hext; rewrite Heq; set_solver.
Qed.

Lemma blank_join (sep : pystr) (parts : list pystr) :
  blank sep -> Forall blank parts -> blank (join sep parts).
Proof.
  intros Hsep Hall. induction Hall as [|p parts Hp Hall IH]; [constructor|].
  destruct parts as [|q parts]; [done|].
  change (join sep (p :: q :: parts)) with (p ++ sep ++ join sep (q :: parts)).
  apply Forall_app. split; [done|]. apply Forall_app. split; [done|]. exact IH.
Qed.

(** X22.  A PDF that pdfplumber opens but in which no page has any text
    other than white space (a scan without text layer) is reported as failed
    with 'No content extracted from document'; the page count and the
    extraction method are still in the metadata of the result, and PyMuPDF is
    not tried. *)
Theorem pdf_without_text_is_reported (t0 t1 : Q) (file_path document_id : pystr)
    (pages : list (option pystr)) :
  lower (suffix file_path) = py ".pdf" ->
  pdfplumber_pages file_path = Ok pages ->
  Forall (fun page_text => from_option blank True page_text) pages ->
  Generic.process_file cosine_similarity encode nlp split_text list_set suffix
    pdfplumber_pages fitz_pages docx_paragraphs read_text
    t0 t1 file_path document_id
  = {| Generic.pr_document_id := document_id;
       Generic.title := Str (py "Unknown");
       Generic.pr_content :=
         join Generic.blank_line (List.filter truthy (omap id pages));
       Generic.chunks := [];
       Generic.pr_metadata :=
         <[py "extraction_method" := Str (py "pdfplumber")]>
           (<[py "page_count" := Int (Z.of_nat (length pages))]> ∅);
       Generic.processing_time := t1 - t0;
       Generic.success := false;
       Generic.error_message := Some (py "No content extracted from document") |}.
Proof.
  intros Hext Hpages Hblank.
  unfold Generic.process_file, Generic.process_document, Generic._extract_content.
  rewrite Hext. rewrite bool_decide_eq_true_2 by done.
  unfold Generic._extract_pdf_content. rewrite Hpages.
  assert (blank (join Generic.blank_line (List.filter truthy (omap id pages))))
    as Hcontent.
  { apply blank_join; [by repeat constructor|].
    apply Forall_forall. intros s Hs.
    apply list_elem_of_In, filter_In in Hs as [Hs _].
    apply list_elem_of_In, list_elem_of_omap in Hs as (t & Ht & Hts).
    rewrite Forall_forall in Hblank. specialize (Hblank t Ht).
    destruct t; simpl in *; [|done]. by injection Hts as <-. }
  rewrite (strip_blank _ Hcontent). cbn [truthy negb].
  by rewrite !lookup_insert_ne, lookup_empty by done.
Qed.

End FileReaders.

(** A spreadsheet. *)
Lemma unsupported_format_is_reported_witness :
  Generic.error_message
    (Generic.process_file Stub.cosine2 Stub.encode Stub.generic_nlp
       Example.split_paragraphs Stub.first_seen (fun _ => py ".XLSX")
       (fun _ => Ok []) (fun _ => Ok []) (fun _ => Ok []) (fun _ => Ok [])
       0 1 (py "table.XLSX") (py "doc"))
  = Some (py "Unsupported file format: .xlsx").
Proof.
  rewrite (unsupported_format_is_reported Stub.cosine2 Stub.encode
             Stub.generic_nlp Example.split_paragraphs Stub.first_seen
             (fun _ => py ".XLSX") (fun _ => Ok []) (fun _ => Ok [])
             (fun _ => Ok []) (fun _ => Ok []) 0 1 (py "table.XLSX") (py "doc")).
  - reflexivity.
  - unfold supported. intros H. repeat (apply elem_of_cons in H as [H|H]; [discriminate H|]).
    by apply elem_of_nil in H.
Defined.

(** A scan of two pages, one without text and one with a line break. *)
Lemma pdf_without_text_is_reported_witness :
  let r := Generic.process_file Stub.cosine2 Stub.encode Stub.generic_nlp
             Example.split_paragraphs Stub.first_seen (fun _ => py ".pdf")
             (fun _ => Ok [None; Some [newline]]) (fun _ => Ok [])
             (fun _ => Ok []) (fun _ => Ok []) 0 1 (py "scan.pdf") (py "doc") in
  Generic.success r = false /\
  Generic.pr_metadata r !! py "page_count" = Some (Int 2).
Proof.
  intros r. unfold r.
  rewrite (pdf_without_text_is_reported Stub.cosine2 Stub.encode
             Stub.generic_nlp Example.split_paragraphs Stub.first_seen
             (fun _ => py ".pdf") (fun _ => Ok [None; Some [newline]])
             (fun _ => Ok []) (fun _ => Ok []) (fun _ => Ok [])
             0 1 (py "scan.pdf") (py "doc") [None; Some [newline]]).
  - split; [reflexivity|]. cbn [Generic.pr_metadata].
    rewrite lookup_insert_ne by done. by rewrite lookup_insert.
  - reflexivity.
  - reflexivity.
  - by repeat constructor.
Defined.


(** ** [process_document] of [python-document-processor.py] *)

Lemma assemble_token_counts (max_chunk_size overlap_size : Z) (sentences : list pystr) :
  map Basic.tokenCount (Basic.assemble max_chunk_size overlap_size sentences)
  = map (fun c => len_split (Basic.chunkText c))
      (Basic.assemble max_chunk_size overlap_size sentences).
Proof.
  pose proof (assemble_normal_form max_chunk_size overlap_size sentences) as Hnf.
  cbv zeta in Hnf. apply map_ext_Forall, Forall_forall. intros c Hc.
  apply list_elem_of_lookup in Hc as [i Hi].
  destruct (Forall2_lookup_r _ _ _ _ _ Hnf Hi) as (k & _ & buffer & _ & ->).
  simpl. by rewrite len_split_strip.
Qed.

(** X23.  When the advanced path is not taken, the response of
    [process_document] is consistent: [chunk_count] is the number of chunks
    listed and [total_tokens] the number of white-space separated words of
    their texts; a response with an error has no chunks and no Word document;
    a response without error was made by the basic chunker from a text that
    is not blank, with a chunk size of 1000 and an overlap of 200 unless the
    input says otherwise, and it has no chunk exactly when cleaning leaves
    nothing of the text. *)
Theorem basic_response_consistent
    (create_word_document : list Basic.Chunk -> pystr -> result pystr)
    (try_advanced : Basic.InputData -> option Basic.Response)
    (input_data : Basic.InputData) :
  try_advanced input_data = None ->
  let r := Basic.process_document create_word_document try_advanced input_data in
  let text := default [] (Basic.text input_data) in
  Basic.chunk_count r = length (Basic.chunks r) /\
  Basic.total_tokens r
  = sum_list (map (fun c => len_split (Basic.chunkText c)) (Basic.chunks r)) /\
  (Basic.error r <> None ->
   Basic.chunks r = [] /\ Basic.word_document r = [] /\
   Basic.processing_method r = None) /\
  (Basic.error r = None ->
   nonblank text /\
   Basic.processing_method r = Some (py "basic") /\
   Basic.chunks r
   = Basic.create_chunks (default 1000%Z (Basic.in_max_chunk_size input_data))
       (default 200%Z (Basic.in_overlap_size input_data)) text /\
   (Basic.chunks r = [] <-> Basic.preprocess_text text = [])).
Proof.
  intros Hadv. cbv zeta. unfold Basic.process_document, Basic.process_body.
  rewrite Hadv.
  destruct (truthy (strip (default [] (Basic.text input_data)))) eqn:Ht;
    cbn [negb].
  2:{ cbn. split_and!; done. }
  set (chunks := Basic.create_chunks _ _ _).
  destruct (create_word_document chunks _) as [word_bytes|e];
    cbn [mbind result_bind].
  2:{ cbn. split_and!; done. }
  cbn. split_and!; try done.
  - unfold chunks, Basic.create_chunks. by rewrite assemble_token_counts.
  - intros _. split; [by apply truthy_strip_nonblank|]. split; [done|].
    split; [done|]. unfold chunks.
    apply create_chunks_nil_iff.
Qed.

(** An input without text for the advanced path, and a Word writer that
    returns no bytes. *)
Lemma basic_response_consistent_witness :
  let input_data :=
    {| Basic.text := Some (py "The court ruled. The judge agreed.");
       Basic.in_title := None; Basic.file_path := None;
       Basic.in_document_id := None;
       Basic.in_max_chunk_size := Some 20%Z; Basic.in_overlap_size := Some 5%Z |} in
  let r := Basic.process_document (fun _ _ => Ok []) (fun _ => None) input_data in
  Basic.chunk_count r = length (Basic.chunks r) /\
  Basic.total_tokens r
  = sum_list (map (fun c => len_split (Basic.chunkText c)) (Basic.chunks r)).
Proof.
  intros input_data r.
  destruct (basic_response_consistent (fun _ _ => Ok []) (fun _ => None)
              input_data eq_refl) as (Hcount & Htokens & _).
  split; [exact Hcount|exact Htokens].
Defined.


(** ** Chunk ids at the end of [_create_intelligent_chunks] *)

Section FinalIds.

Variable cosine_similarity : list Embedding -> list Embedding -> result Matrix.
Variable encode : pystr -> result Embedding.
Variable nlp : pystr -> result Generic.Doc.
Variable split_text : pystr -> result (list pystr).
Variable list_set : list pystr -> list pystr.
Variables content document_id : pystr.

Lemma annotate_loop_inv (todo : list (nat * pystr)) :
  forall acc out,
    Generic.annotate_loop encode nlp list_set content document_id todo acc = Ok out ->
    exists out',
      out = acc ++ out' /\
      Forall2 (fun it c =>
                 Generic.annotate encode nlp list_set content document_id
                   (fst it) (snd it) = Ok c)
        (kept_pieces todo) out'.
Proof.
  induction todo as [|[i p] todo IH]; intros acc out Hout.
  - injection Hout as <-. exists []. rewrite app_nil_r. split; [done|constructor].
  - unfold kept_pieces. cbn [Generic.annotate_loop List.filter snd] in *.
    destruct (truthy (strip p)) eqn:Hp; cbn [negb] in Hout.
    + destruct (Generic.annotate encode nlp list_set content document_id i p)
        as [c|e] eqn:Hc; [|done].
      cbn [mbind result_bind] in Hout.
      destruct (IH _ _ Hout) as (out' & -> & Hall).
      exists (c :: out'). split; [by rewrite <- app_assoc|]. by constructor.
    + exact (IH _ _ Hout).
Qed.

(** The ids of the annotated chunks: the piece numbers, increasing. *)
Lemma annotated_chunk_ids (chunks : list Generic.Chunk) :
  Generic.annotated_chunks encode nlp split_text list_set content document_id
  = Ok chunks ->
  exists numbers,
    StronglySorted lt numbers /\
    Forall2 (fun k c =>
               Generic.chunk_id c = document_id ++ py "_chunk_" ++ str_of_nat k /\
               Generic.document_id c = document_id /\
               Generic.merged_from (Generic.metadata c) = None) numbers chunks.
Proof.
  unfold Generic.annotated_chunks.
  destruct (split_text content) as [pieces|]; [|done]. cbn [mbind result_bind].
  intros Hloop. apply annotate_loop_inv in Hloop as (out' & -> & Hall).
  simpl. unfold enumerate in Hall.
  destruct (kept_pieces_enumerate pieces 0) as (_ & Hsorted & _).
  revert Hall Hsorted. generalize (kept_pieces (zip (seq 0 (length pieces)) pieces)).
  intros kept Hall Hsorted. exists (map fst kept). split; [done|].
  apply Forall2_fmap_l. eapply Forall2_impl; [exact Hall|].
  intros [i p] c Hc. apply annotate_fields in Hc as (_ & _ & Hid & Hdoc & Hm & _).
  by simpl.
Qed.

End FinalIds.

Lemma StronglySorted_lookup_inj (numbers : list nat) (i j : nat) :
  StronglySorted lt numbers ->
  i < length numbers -> j < length numbers ->
  default 0 (numbers !! i) = default 0 (numbers !! j) -> i = j.
Proof.
  intros Hs. revert i j. induction Hs as [|x l Hs IH Hall]; intros i j Hi Hj Heq.
  - simpl in Hi. lia.
  - rewrite Forall_forall in Hall.
    destruct i as [|i], j as [|j]; simpl in *.
    + done.
    + destruct (l !! j) as [y|] eqn:Hy; [|apply lookup_ge_None in Hy; lia].
      simpl in Heq. assert (x < y) by (apply Hall; by eapply list_elem_of_lookup_2). lia.
    + destruct (l !! i) as [y|] eqn:Hy; [|apply lookup_ge_None in Hy; lia].
      simpl in Heq. assert (x < y) by (apply Hall; by eapply list_elem_of_lookup_2). lia.
    + f_equal. apply IH; [lia|lia|done].
Qed.

Lemma group_id_inj (document_id : pystr) (numbers : list nat)
    (t1 t2 : nat * bool) :
  StronglySorted lt numbers ->
  fst t1 < length numbers -> fst t2 < length numbers ->
  group_id document_id numbers t1 = group_id document_id numbers t2 ->
  fst t1 = fst t2.
Proof.
  intros Hs H1 H2. unfold group_id.
  destruct t1 as [a1 [|]], t2 as [a2 [|]]; simpl; intros Heq;
    apply app_inv_head in Heq.
  - apply (app_inv_head (py "_merged_")) in Heq. by apply str_of_nat_inj.
  - discriminate Heq.
  - discriminate Heq.
  - apply (app_inv_head (py "_chunk_")) in Heq. apply str_of_nat_inj in Heq.
    by apply (StronglySorted_lookup_inj numbers).
Qed.

Lemma NoDup_map_fst_inj {A B} (f : nat * A -> B) (l : list (nat * A)) :
  NoDup (map fst l) ->
  (forall x y, x ∈ l -> y ∈ l -> f x = f y -> fst x = fst y) ->
  NoDup (map f l).
Proof.
  induction l as [|x l IH]; intros Hnd Hinj; simpl; [constructor|].
  simpl in Hnd. apply NoDup_cons in Hnd as [Hx Hnd].
  constructor.
  - intros Hin. apply list_elem_of_fmap in Hin as (y & Hxy & Hy).
    apply Hx. apply list_elem_of_fmap. exists y. split; [|done].
    apply Hinj; [by left|by right|done].
  - apply IH; [done|]. intros a b Ha Hb. apply Hinj; by right.
Qed.

Lemma StronglySorted_lt_NoDup (l : list nat) : StronglySorted lt l -> NoDup l.
Proof.
  induction 1 as [|x l _ IH Hall]; constructor; [|done].
  intros Hin. rewrite Forall_forall in Hall. specialize (Hall x Hin). lia.
Qed.

(** X24.  When the annotation loop has returned its chunks and scikit-learn
    returns their similarity matrix, [_create_intelligent_chunks] returns
    chunks whose ids are pairwise different: a chunk that was passed through
    keeps [<document_id>_chunk_<piece number>], and a merged chunk is named
    [<document_id>_merged_<position of its first chunk>]. *)
Theorem final_chunk_ids_distinct
    (cosine_similarity : list Embedding -> list Embedding -> result Matrix)
    (encode : pystr -> result Embedding)
    (nlp : pystr -> result Generic.Doc)
    (split_text : pystr -> result (list pystr))
    (list_set : list pystr -> list pystr)
    (content document_id : pystr) (metadata : gmap pystr pyval)
    (chunks : list Generic.Chunk) (m : Matrix) :
  Generic.annotated_chunks encode nlp split_text list_set content document_id
  = Ok chunks ->
  similarity_of cosine_similarity chunks m ->
  exists out,
    Generic._create_intelligent_chunks cosine_similarity encode nlp split_text
      list_set content document_id metadata = Ok out /\
    NoDup (map Generic.chunk_id out) /\
    Forall (fun c =>
              (exists k, Generic.chunk_id c
                         = document_id ++ py "_chunk_" ++ str_of_nat k /\
                         Generic.merged_from (Generic.metadata c) = None) \/
              (exists i, Generic.chunk_id c
                         = document_id ++ py "_merged_" ++ str_of_nat i /\
                         Generic.merged_from (Generic.metadata c) <> None)) out.
Proof.
  intros Hann Hready. unfold Generic._create_intelligent_chunks.
  rewrite Hann. cbn [mbind result_bind].
  destruct (optimize_groups cosine_similarity chunks m Hready)
    as (out & Hout & _ & Hall).
  exists out. split; [done|].
  destruct (annotated_chunk_ids encode nlp split_text list_set content
              document_id chunks Hann) as (numbers & Hsorted & Hids).
  pose proof (Forall2_length _ _ _ Hids) as Hlen.
  pose proof (groups_from_anchors (length chunks) m (seq 0 (length chunks)) ∅)
    as [Hne Hanchors].
  pose proof (groups_from_bounded (length chunks) m (seq 0 (length chunks)) ∅)
    as Hbound.
  assert (Forall (fun i => i < length chunks) (seq 0 (length chunks))) as Hseq.
  { apply Forall_forall. intros i Hi%elem_of_seq. lia. }
  specialize (Hbound Hseq). clear Hseq.
  revert Hall Hne Hanchors Hbound.
  generalize (groups_from (length chunks) m (seq 0 (length chunks)) ∅).
  intros gs Hall Hne Hanchors Hbound.
  assert (Forall2 (fun g c =>
            anchor g < length chunks /\
            Generic.chunk_id c
            = group_id document_id numbers (anchor g, 1 <? length g) /\
            (Generic.merged_from (Generic.metadata c) = None
             <-> (1 <? length g) = false)) gs out) as Htags.
  { clear Hanchors Hout. induction Hall as [|g c gs out Hg _ IH]; [constructor|].
    apply Forall_cons in Hne as [Hg0 Hne].
    apply Forall_cons in Hbound as [Hgb Hbound].
    constructor; [|by apply IH].
    destruct g as [|i g]; [done|]. apply Forall_cons in Hgb as [Hi _].
    change (anchor (i :: g)) with i in *.
    split; [done|].
    unfold group_chunk in Hg. change (anchor (i :: g)) with i in Hg.
    destruct (chunks !! i) as [a|] eqn:Ha; [|done].
    cbn [mbind option_bind] in Hg.
    destruct (mapM (fun idx => chunks !! idx) (i :: g)) as [members|]; [|done].
    cbn [mbind option_bind] in Hg. injection Hg as <-.
    destruct (Forall2_lookup_r _ _ _ _ _ Hids Ha) as (k & Hk & Hid & Hdoc & Hm).
    unfold group_id. cbn [fst snd].
    destruct g as [|j g].
    - simpl. rewrite Hk. simpl. by split.
    - simpl. rewrite Hdoc. split; [done|]. by split. }
  split.
  - assert (map Generic.chunk_id out
            = map (group_id document_id numbers)
                (map (fun g => (anchor g, 1 <? length g)) gs)) as ->.
    { clear -Htags. induction Htags as [|g c gs out (_ & Hc & _) _ IH]; [done|].
      simpl. by rewrite Hc, IH. }
    apply NoDup_map_fst_inj.
    + rewrite map_map. simpl.
      apply StronglySorted_lt_NoDup.
      eapply sublist_StronglySorted; [exact Hanchors|apply seq_StronglySorted].
    + intros t1 t2 Ht1 Ht2.
      apply list_elem_of_fmap in Ht1 as (g1 & -> & Hg1).
      apply list_elem_of_fmap in Ht2 as (g2 & -> & Hg2).
      apply list_elem_of_lookup in Hg1 as [k1 Hk1].
      apply list_elem_of_lookup in Hg2 as [k2 Hk2].
      destruct (Forall2_lookup_l _ _ _ _ _ Htags Hk1) as (c1 & _ & Hb1 & _).
      destruct (Forall2_lookup_l _ _ _ _ _ Htags Hk2) as (c2 & _ & Hb2 & _).
      apply group_id_inj; [done|simpl; lia|simpl; lia].
  - apply Forall_forall. intros c Hc.
    apply list_elem_of_lookup in Hc as [k Hk].
    destruct (Forall2_lookup_r _ _ _ _ _ Htags Hk) as (g & _ & _ & Hid & Hm).
    unfold group_id in Hid. cbn [fst snd] in Hid.
    destruct (1 <? length g).
    + right. eexists. split; [exact Hid|]. intros Hnone. by apply Hm in Hnone.
    + left. eexists. split; [exact Hid|]. by apply Hm.
Qed.

(** The sample document of three paragraphs: no two chunks are similar, and
    the three ids are different. *)
Lemma final_chunk_ids_distinct_witness :
  exists out,
    Generic._create_intelligent_chunks Stub.cosine2 Stub.encode Stub.generic_nlp
      Example.split_paragraphs Stub.first_seen Example.repeated (py "doc") ∅
    = Ok out /\
    NoDup (map Generic.chunk_id out).
Proof.
  assert (exists chunks,
            Generic.annotated_chunks Stub.encode Stub.generic_nlp
              Example.split_paragraphs Stub.first_seen Example.repeated (py "doc")
            = Ok chunks /\
            similarity_of Stub.cosine2 chunks
              [[1; 0; 0]; [0; 1; 0]; [0; 0; 1]]%Q) as (chunks & Hann & Hready).
  { eexists. split; [vm_compute; reflexivity|].
    intros _. eexists. split; [reflexivity|]. split; [reflexivity|].
    split; [reflexivity|]. by repeat constructor. }
  destruct (final_chunk_ids_distinct Stub.cosine2 Stub.encode Stub.generic_nlp
              Example.split_paragraphs Stub.first_seen Example.repeated (py "doc")
              ∅ chunks _ Hann Hready) as (out & Hout & Hnd & _).
  exists out. split; [exact Hout|exact Hnd].
Defined.


(** ** The sentence split of [create_chunks] *)

Lemma rstrip_tail (a b : pystr) :
  rstrip (a ++ b) = a ++ b -> b <> [] -> rstrip b = b /\ nonblank b.
Proof.
  intros H Hb. destruct (blank_or_nonblank b) as [Hblank|Hn].
  - exfalso. rewrite rstrip_app_blank in H by done.
    pose proof (length_rstrip a) as Hlen. rewrite H, length_app in Hlen.
    destruct b; [done|]. simpl in Hlen. lia.
  - split; [|done]. rewrite rstrip_app in H by done. by apply app_inv_head in H.
Qed.

Lemma rstrip_after_space (c : ascii) (s : pystr) (a : pystr) :
  isspace c = true -> rstrip (a ++ c :: s) = a ++ c :: s ->
  s <> [] /\ rstrip s = s.
Proof.
  intros Hc H.
  assert (rstrip ((a ++ [c]) ++ s) = (a ++ [c]) ++ s) as H'
    by (by rewrite <- app_assoc).
  destruct s as [|d s].
  - exfalso. rewrite app_nil_r in H'.
    rewrite rstrip_app_blank in H' by (by repeat constructor).
    pose proof (length_rstrip a) as Hlen. rewrite H', length_app in Hlen.
    simpl in Hlen. lia.
  - split; [done|]. by eapply rstrip_tail.
Qed.

Lemma is_terminator_not_space (c : ascii) :
  Basic.is_terminator c = true -> isspace c = false.
Proof.
  unfold Basic.is_terminator. rewrite !orb_true_iff, !bool_decide_eq_true.
  intros [[->| ->]| ->]; reflexivity.
Qed.

Lemma rstrip_snoc (t : pystr) (c : ascii) :
  isspace c = false -> rstrip (t ++ [c]) = t ++ [c].
Proof.
  intros Hc. rewrite rstrip_app by (by left).
  unfold rstrip. simpl. by rewrite Hc.
Qed.

Lemma split_sentences_not_nil (s : pystr) :
  forall st cur, Basic.split_sentences st cur s <> [].
Proof.
  induction s as [|c s IH]; intros st cur; simpl; [done|].
  destruct st as [|t].
  - destruct (isspace c); apply IH.
  - destruct (t && isspace c); [done|apply IH].
Qed.

Lemma lstrip_prefix (a b : pystr) :
  a <> [] -> lstrip (a ++ b) = a ++ b -> lstrip a = a.
Proof.
  intros Ha H. destruct a as [|c a]; [done|]. simpl in *.
  destruct (isspace c); [|done].
  exfalso. pose proof (length_lstrip (a ++ b)) as Hlen.
  rewrite H in Hlen. simpl in Hlen. lia.
Qed.

Lemma split_sentences_shape_from (s : pystr) :
  forall st cur, scanning st cur s ->
    let pieces := Basic.split_sentences st cur s in
    Forall clean pieces /\ Forall ends_sentence (removelast pieces).
Proof.
  induction s as [|c s IH]; intros st cur Hscan; cbv zeta in *.
  - destruct st as [|t]; simpl in *.
    + by destruct Hscan.
    + destruct Hscan as (Hne & Hl & Hr & _). rewrite app_nil_r in *.
      split; [|constructor]. constructor; [|constructor].
      split; [done|]. by apply strip_fixed_intro.
  - destruct st as [|t]; simpl in *.
    + destruct Hscan as [_ Hr]. destruct (isspace c) eqn:Hc.
      * apply IH. simpl. by apply (rstrip_after_space c s []).
      * apply IH. simpl. split_and!; [done|by rewrite Hc|done|].
        intros Ht. exists c, []. split; [done|].
        unfold Basic.is_terminator in *. done.
    + destruct Hscan as (Hne & Hl & Hr & Hterm).
      destruct (t && isspace c) eqn:Hsep.
      * apply andb_true_iff in Hsep as [-> Hc].
        destruct (Hterm eq_refl) as (d & cur' & -> & Hd).
        destruct (rstrip_after_space c s _ Hc Hr) as [Hs Hrs].
        destruct (IH Basic.InSeparator [] (conj Hs Hrs)) as [Hclean Hends].
        assert (rev (d :: cur') = rev cur' ++ [d]) as Hrev by done.
        split.
        -- constructor; [|done]. split.
           ++ rewrite Hrev. by destruct (rev cur').
           ++ apply strip_fixed_intro.
              ** eapply lstrip_prefix; [|exact Hl]. rewrite Hrev. by destruct (rev cur').
              ** rewrite Hrev. apply rstrip_snoc. by apply is_terminator_not_space.
        -- pose proof (split_sentences_not_nil s Basic.InSeparator []) as Hnn.
           destruct (Basic.split_sentences Basic.InSeparator [] s) as [|p ps] eqn:Hp;
             [done|].
           change (removelast (rev (d :: cur') :: p :: ps))
             with (rev (d :: cur') :: removelast (p :: ps)).
           constructor; [|done]. exists (rev cur'), d. by rewrite Hrev.
      * apply IH. simpl. rewrite <- app_assoc. simpl.
        split_and!; [done|done|done|].
        intros Ht. exists c, cur. split; [done|]. done.
Qed.

Lemma split_sentences_visible (s : pystr) :
  forall st cur,
    (st = Basic.InSeparator -> cur = []) ->
    visible (List.concat (Basic.split_sentences st cur s))
    = visible (rev cur ++ s).
Proof.
  unfold visible.
  induction s as [|c s IH]; intros st cur Hcur.
  - simpl. by rewrite !app_nil_r.
  - cbn [Basic.split_sentences]. destruct st as [|t].
    + rewrite (Hcur eq_refl). cbn [rev app List.filter].
      destruct (isspace c) eqn:Hc; cbn [negb].
      * by rewrite IH.
      * rewrite IH by done. cbn [rev app List.filter]. by rewrite Hc.
    + destruct (t && isspace c) eqn:Hsep.
      * apply andb_true_iff in Hsep as [_ Hc]. cbn [List.concat].
        rewrite !List.filter_app. cbn [List.filter]. rewrite Hc. cbn [negb].
        rewrite IH by done. done.
      * rewrite IH by done. cbn [rev]. by rewrite <- app_assoc.
Qed.

(** X25.  The split at white space after [.], [!] or [?] of a text that is
    not empty and has no white space at its ends, as [preprocess_text]
    returns it: every sentence is non-empty and has no white space at its
    ends, every sentence but the last ends in [.], [!] or [?], and the
    sentences, put end to end, have the visible characters of the text in
    their order: only white space is removed. *)
Theorem split_sentences_shape (text : pystr) :
  text <> [] -> strip text = text ->
  let sentences := Basic.split_sentences (Basic.After false) [] text in
  Forall (fun s => s <> [] /\ strip s = s) sentences /\
  Forall ends_sentence (removelast sentences) /\
  visible (List.concat sentences) = visible text.
Proof.
  intros Hne Hstrip. cbv zeta.
  apply strip_fixed_ends in Hstrip as [Hl Hr].
  destruct (split_sentences_shape_from text (Basic.After false) []) as [H1 H2].
  { simpl. split_and!; done. }
  split_and!; [exact H1|exact H2|].
  by rewrite split_sentences_visible.
Qed.

(** Three sentences with a tab and two spaces between them. *)
Lemma split_sentences_shape_witness :
  let text := py "Is it so?" ++ [ascii_of_nat 9] ++ py "Yes!  It is." in
  Basic.split_sentences (Basic.After false) [] text
  = [py "Is it so?"; py "Yes!"; py "It is."] /\
  Forall (fun s => s <> [] /\ strip s = s)
    (Basic.split_sentences (Basic.After false) [] text).
Proof.
  intros text. split; [reflexivity|].
  destruct (split_sentences_shape text) as (Hclean & _); [done|reflexivity|].
  exact Hclean.
Defined.
